(** * EkoxAutoBot-NTE: the transaction-submission and retry engine

    A shallow embedding of [index.js] (nonce tracker, fee estimation, token
    approval, the five operations, the daily cycle, configuration and account
    loading) together with the properties stated for it.

    Conventions of the embedding:
    - JavaScript [BigInt] values are [Z]; JavaScript numbers are [NaN],
      the two infinities or a finite value taken as an exact rational
      ([number]), so the rounding of doubles is not part of the embedding;
      strings are [string], the bytes of their UTF-8 encoding.
    - One handler runs at a time: while a call is awaited no other handler
      of the script (a key, a menu entry, a form) runs in between.
    - The module-level [let] variables of the script form the record
      [State]; every function of the script is a computation in the monad
      [M], which threads the state and carries the three ways an [await]ed
      call can end: a value, a rejection, or never settling.
    - Everything the script awaits from outside (the JSON-RPC provider, the
      receipts, [Math.random]) is answered by a [World], indexed by the
      number of suspensions so far, so that answers may change over time.
    - The functions of the [ethers] library that the script calls are the
      fields of the record [Ethers]. *)

From Stdlib Require Import ZArith QArith Qround Qabs Ascii String Lia.
From stdpp Require Import base tactics option list gmap strings pretty.

Local Open Scope Z_scope.

(** ** Errors and results *)

(** A JavaScript [Error]. The script only ever reads [message]; the
    constructor records whether the error was raised by a [throw new
    Error(..)] of the script itself or came out of a library call. *)
Inductive error : Type :=
  | Thrown (msg : string)
  | External (msg : string).

Definition message (e : error) : string :=
  match e with Thrown m | External m => m end.

(** How an awaited computation ends. [Hang] is a promise that never
    settles; no [catch] or [finally] block runs after it. *)
Inductive res (A : Type) : Type :=
  | Ok (a : A)
  | Err (e : error)
  | Hang.
Arguments Ok {A} a.
Arguments Err {A} e.
Arguments Hang {A}.

(** ** JavaScript values used by the script *)

(** JavaScript numbers: [NaN], the finite values as exact rationals, and
    [Infinity] and [-Infinity]. *)
Inductive number : Type :=
  | NaN
  | Fin (q : Q)
  | Inf (negative : bool).

(** Truthiness of a number: [NaN] and zero are falsy. *)
Definition truthy (n : number) : bool :=
  match n with
  | NaN => false
  | Fin q => negb (Qeq_bool q 0)
  | Inf _ => true
  end.

(** [a || b] on numbers. *)
Definition num_or (a b : number) : number := if truthy a then a else b.

(** [x || d] where [x] is a [BigInt] or [undefined]/[null]: [0n] is falsy. *)
Definition bigint_or (x : option Z) (d : Z) : Z :=
  match x with
  | Some v => if v =? 0 then d else v
  | None => d
  end.

(** [a && b] used as a condition, on two optional [BigInt]s. *)
Definition bigint_truthy (x : option Z) : bool :=
  match x with
  | Some v => negb (v =? 0)
  | None => false
  end.

(** ** Strings *)

(** [hay.includes(needle)]. *)
Fixpoint includes (needle hay : string) : bool :=
  String.prefix needle hay ||
  match hay with
  | EmptyString => false
  | String _ rest => includes needle rest
  end.

Definition lower_ascii (c : ascii) : ascii :=
  let n := nat_of_ascii c in
  if (Nat.leb 65 n && Nat.leb n 90)%bool then ascii_of_nat (n + 32) else c.

(** [s.toLowerCase()], on ASCII text. *)
Fixpoint toLowerCase (s : string) : string :=
  match s with
  | EmptyString => EmptyString
  | String c rest => String (lower_ascii c) (toLowerCase rest)
  end.

(** [s.slice(0, 6) + "..." + s.slice(-4)]. *)
Definition slice_0_6 (s : string) : string := String.substring 0 6 s.
Definition slice_m4 (s : string) : string :=
  String.substring (String.length s - 4) 4 s.

Definition getShortAddress (address : string) : string :=
  match address with
  | EmptyString => "N/A"
  | _ => slice_0_6 address +:+ "..." +:+ slice_m4 address
  end.

Definition getShortHash (hash : string) : string :=
  slice_0_6 hash +:+ "..." +:+ slice_m4 hash.

(** ** Constants of the script *)

Definition HOLESKY_CHAIN_ID : Z := 17000.

(** The largest value a [uint256] argument can carry. *)
Definition MAX_UINT256 : Z := 2 ^ 256 - 1.
Definition STAKE_CONTRACT_ADDRESS : string := "0x0c6A085e9d17A51DEA2A7e954ACcAb1429213B75".
Definition UNSTAKE_CONTRACT_ADDRESS : string := "0x3Cc99498dea7a164C9d6D02C7710FF63f36A60ed".
Definition CLAIM_CONTRACT_ADDRESS : string := "0x3Cc99498dea7a164C9d6D02C7710FF63f36A60ed".
Definition WETH_ADDRESS : string := "0x94373a4919B3240D86eA41593D5eBa789FEF3848".
Definition EXETH_ADDRESS : string := "0xDD1ec7e2c5408aB7199302d481a1b77FdA0267A3".
Definition isDebug : bool := false.

(** [ethers.parseUnits("1", "gwei")]. *)
Definition one_gwei : Z := 1000000000.

Record direction : Type := { chain : string; rpc : string; chainId : Z }.

Definition holesky : direction :=
  {| chain := "holesky";
     rpc := "https://ethereum-holesky-rpc.publicnode.com/";
     chainId := HOLESKY_CHAIN_ID |}.

Definition directions : list direction := [holesky].

(** ** Transactions and what the chain is asked *)

(** The result of [encodeFunctionData], kept structured. *)
Inductive Calldata : Type :=
  | CallApprove (spender : string) (amount : Z)
  | CallStakeDeposit (token : string) (value : Z)
  | CallUnstakeWithdraw (value : Z) (addr : string)
  | CallClaim (withdrawRequestIndex : Z) (user : string)
  | CallWethDeposit
  | CallWethWithdraw (wad : Z).

(** The object returned by [getFeeParams]: [{maxFeePerGas,
    maxPriorityFeePerGas, type: 2}] or [{gasPrice, type: 0}]. *)
Inductive FeeParams : Type :=
  | FeeDynamic (maxFeePerGas maxPriorityFeePerGas : Z)
  | FeeLegacy (gasPrice : Z).

Definition fee_type (p : FeeParams) : Z :=
  match p with FeeDynamic _ _ => 2 | FeeLegacy _ => 0 end.

(** What [provider.getFeeData()] resolves to; [None] is [null]. *)
Record FeeData : Type := {
  fd_gasPrice : option Z;
  fd_maxFeePerGas : option Z;
  fd_maxPriorityFeePerGas : option Z
}.

Record Transaction : Type := {
  tx_to : string;
  tx_data : Calldata;
  tx_value : Z;
  tx_fee : FeeParams;
  tx_gasLimit : Z;
  tx_nonce : Z
}.

(** The read-only questions put to the provider and the contracts. *)
Inductive Query : Type :=
  | QTransactionCount (address : string)
  | QFeeData
  | QAllowance (token owner spender : string)
  | QBalanceOf (token address : string)
  | QGetBalance (address : string)
  | QOutstandingWithdrawRequests (user : string)
  | QWithdrawRequestCreatedAt (user : string) (index : Z)
  | QCoolDownPeriod
  | QLatestBlockTimestamp.

Inductive OpKind : Type := Stake | Unstake | Claim | Wrap | Unwrap.

(** What an observer of a run sees, in order. [EvPerform] marks the entry
    into one of the five [perform..] functions. *)
Inductive Event : Type :=
  | EvPerform (kind : OpKind) (wallet : string) (amount : option string)
  | EvRead (q : Query)
  | EvSend (from : string) (tx : Transaction)
  | EvWait (hash : string)
  | EvSleep (ms : Z)
  | EvRefresh.

(** How an awaited call to the outside ends: resolved with a value,
    rejected with the text of the error, or never settled. *)
Inductive answer (A : Type) : Type :=
  | Resolved (a : A)
  | Rejected (msg : string)
  | Pending.
Arguments Resolved {A} a.
Arguments Rejected {A} msg.
Arguments Pending {A}.

(** How a confirmation wait ends: settled after [ms] milliseconds with a
    receipt status or the text of a rejection, or never. *)
Inductive Settle : Type :=
  | Settled (ms : Z) (r : string + Z)
  | Never.

(** The answers of the outside world. The first argument of the awaited
    calls is the number of suspensions that came before; [random] is
    indexed by the number of earlier draws. *)
Record World : Type := {
  read : nat -> Query -> answer Z;
  getFeeData : nat -> answer FeeData;
  sendTransaction : nat -> string -> Transaction -> answer string;
  wait : nat -> string -> Settle;
  random : nat -> Q;
  existsSync : string -> bool;
  readFileSync : string -> string + string
}.

(** ** JSON documents *)

#[warnings="-register-all"] Inductive json : Type :=
  | JNull
  | JBool (b : bool)
  | JNum (q : Q)
  | JInf (negative : bool)   (* a number too large for a double, read as an infinity *)
  | JStr (s : string)
  | JArr (items : list json)
  | JObj (fields : list (string * json)).

(** The library functions the script relies on. A function that may
    throw returns [inl] of the error text. *)
Record Ethers : Type := {
  isAddress : string -> bool;
  parseEther : string -> string + Z;
  formatEther : Z -> string;
  (** [new ethers.Wallet(privateKey).address] *)
  walletAddress : string -> string + string;
  (** [new SocksProxyAgent(url)] / [new HttpsProxyAgent(url)] *)
  newProxyAgent : string -> string + unit;
  JSON_parse : string -> string + json;
  (** [Number(v)] for strings, arrays and objects *)
  toNumberOther : json -> number;
  (** template-literal rendering of a number *)
  numberToString : number -> string
}.

(** ** The module-level state *)

Record range : Type := { range_min : number; range_max : number }.

Record Config : Type := {
  stakeRepetitions : number;
  unstakeRepetitions : number;
  claimRepetitions : number;
  wethStakeRange : range;
  exethUnstakeRange : range;
  loopHours : number
}.

(** The initial value of [dailyActivityConfig]. *)
Definition defaultConfig : Config := {|
  stakeRepetitions := Fin 1;
  unstakeRepetitions := Fin 1;
  claimRepetitions := Fin 1;
  wethStakeRange := {| range_min := Fin (1 # 100); range_max := Fin (2 # 100) |};
  exethUnstakeRange := {| range_min := Fin (1 # 100); range_max := Fin (2 # 100) |};
  loopHours := Fin 24
|}.

(** Whether the Node process is still running; [process.exit(code)] ends it. *)
Inductive Process : Type := Alive | Exited (code : Z).

Record State : Type := {
  transactionLogs : list (string * string);  (* (type, message), oldest first *)
  activityRunning : bool;
  isCycleRunning : bool;
  shouldStop : bool;
  dailyActivityInterval : option number;     (* delay of the armed timer *)
  accounts : list string;                    (* the private keys *)
  proxies : list string;
  selectedWalletIndex : Z;
  nonceTracker : gmap string Z;
  hasLoggedSleepInterrupt : bool;
  activeProcesses : Z;
  dailyActivityConfig : Config;
  process : Process;
  (* bookkeeping of the model *)
  tick : nat;                                (* suspensions so far *)
  draws : nat;                               (* Math.random calls so far *)
  trace : list Event
}.

Definition initialState : State := {|
  transactionLogs := [];
  activityRunning := false;
  isCycleRunning := false;
  shouldStop := false;
  dailyActivityInterval := None;
  accounts := [];
  proxies := [];
  selectedWalletIndex := 0;
  nonceTracker := ∅;
  hasLoggedSleepInterrupt := false;
  activeProcesses := 0;
  dailyActivityConfig := defaultConfig;
  process := Alive;
  tick := O;
  draws := O;
  trace := []
|}.

(** Assignment to one module-level variable. *)
Definition set_transactionLogs (v : list (string * string)) (st : State) : State :=
  {| transactionLogs := v; activityRunning := activityRunning st; isCycleRunning :=
     isCycleRunning st; shouldStop := shouldStop st; dailyActivityInterval :=
     dailyActivityInterval st; accounts := accounts st; proxies := proxies st;
     selectedWalletIndex := selectedWalletIndex st; nonceTracker := nonceTracker st;
     hasLoggedSleepInterrupt := hasLoggedSleepInterrupt st; activeProcesses :=
     activeProcesses st; dailyActivityConfig := dailyActivityConfig st; process :=
     process st; tick := tick st; draws := draws st; trace := trace st |}.
Definition set_activityRunning (v : bool) (st : State) : State :=
  {| transactionLogs := transactionLogs st; activityRunning := v; isCycleRunning :=
     isCycleRunning st; shouldStop := shouldStop st; dailyActivityInterval :=
     dailyActivityInterval st; accounts := accounts st; proxies := proxies st;
     selectedWalletIndex := selectedWalletIndex st; nonceTracker := nonceTracker st;
     hasLoggedSleepInterrupt := hasLoggedSleepInterrupt st; activeProcesses :=
     activeProcesses st; dailyActivityConfig := dailyActivityConfig st; process :=
     process st; tick := tick st; draws := draws st; trace := trace st |}.
Definition set_isCycleRunning (v : bool) (st : State) : State :=
  {| transactionLogs := transactionLogs st; activityRunning := activityRunning st;
     isCycleRunning := v; shouldStop := shouldStop st; dailyActivityInterval :=
     dailyActivityInterval st; accounts := accounts st; proxies := proxies st;
     selectedWalletIndex := selectedWalletIndex st; nonceTracker := nonceTracker st;
     hasLoggedSleepInterrupt := hasLoggedSleepInterrupt st; activeProcesses :=
     activeProcesses st; dailyActivityConfig := dailyActivityConfig st; process :=
     process st; tick := tick st; draws := draws st; trace := trace st |}.
Definition set_shouldStop (v : bool) (st : State) : State :=
  {| transactionLogs := transactionLogs st; activityRunning := activityRunning st;
     isCycleRunning := isCycleRunning st; shouldStop := v; dailyActivityInterval :=
     dailyActivityInterval st; accounts := accounts st; proxies := proxies st;
     selectedWalletIndex := selectedWalletIndex st; nonceTracker := nonceTracker st;
     hasLoggedSleepInterrupt := hasLoggedSleepInterrupt st; activeProcesses :=
     activeProcesses st; dailyActivityConfig := dailyActivityConfig st; process :=
     process st; tick := tick st; draws := draws st; trace := trace st |}.
Definition set_dailyActivityInterval (v : option number) (st : State) : State :=
  {| transactionLogs := transactionLogs st; activityRunning := activityRunning st;
     isCycleRunning := isCycleRunning st; shouldStop := shouldStop st;
     dailyActivityInterval := v; accounts := accounts st; proxies := proxies st;
     selectedWalletIndex := selectedWalletIndex st; nonceTracker := nonceTracker st;
     hasLoggedSleepInterrupt := hasLoggedSleepInterrupt st; activeProcesses :=
     activeProcesses st; dailyActivityConfig := dailyActivityConfig st; process :=
     process st; tick := tick st; draws := draws st; trace := trace st |}.
Definition set_accounts (v : list string) (st : State) : State :=
  {| transactionLogs := transactionLogs st; activityRunning := activityRunning st;
     isCycleRunning := isCycleRunning st; shouldStop := shouldStop st;
     dailyActivityInterval := dailyActivityInterval st; accounts := v; proxies :=
     proxies st; selectedWalletIndex := selectedWalletIndex st; nonceTracker :=
     nonceTracker st; hasLoggedSleepInterrupt := hasLoggedSleepInterrupt st;
     activeProcesses := activeProcesses st; dailyActivityConfig := dailyActivityConfig
     st; process := process st; tick := tick st; draws := draws st; trace := trace st |}.
Definition set_proxies (v : list string) (st : State) : State :=
  {| transactionLogs := transactionLogs st; activityRunning := activityRunning st;
     isCycleRunning := isCycleRunning st; shouldStop := shouldStop st;
     dailyActivityInterval := dailyActivityInterval st; accounts := accounts st; proxies
     := v; selectedWalletIndex := selectedWalletIndex st; nonceTracker := nonceTracker
     st; hasLoggedSleepInterrupt := hasLoggedSleepInterrupt st; activeProcesses :=
     activeProcesses st; dailyActivityConfig := dailyActivityConfig st; process :=
     process st; tick := tick st; draws := draws st; trace := trace st |}.
Definition set_selectedWalletIndex (v : Z) (st : State) : State :=
  {| transactionLogs := transactionLogs st; activityRunning := activityRunning st;
     isCycleRunning := isCycleRunning st; shouldStop := shouldStop st;
     dailyActivityInterval := dailyActivityInterval st; accounts := accounts st; proxies
     := proxies st; selectedWalletIndex := v; nonceTracker := nonceTracker st;
     hasLoggedSleepInterrupt := hasLoggedSleepInterrupt st; activeProcesses :=
     activeProcesses st; dailyActivityConfig := dailyActivityConfig st; process :=
     process st; tick := tick st; draws := draws st; trace := trace st |}.
Definition set_nonceTracker (v : gmap string Z) (st : State) : State :=
  {| transactionLogs := transactionLogs st; activityRunning := activityRunning st;
     isCycleRunning := isCycleRunning st; shouldStop := shouldStop st;
     dailyActivityInterval := dailyActivityInterval st; accounts := accounts st; proxies
     := proxies st; selectedWalletIndex := selectedWalletIndex st; nonceTracker := v;
     hasLoggedSleepInterrupt := hasLoggedSleepInterrupt st; activeProcesses :=
     activeProcesses st; dailyActivityConfig := dailyActivityConfig st; process :=
     process st; tick := tick st; draws := draws st; trace := trace st |}.
Definition set_hasLoggedSleepInterrupt (v : bool) (st : State) : State :=
  {| transactionLogs := transactionLogs st; activityRunning := activityRunning st;
     isCycleRunning := isCycleRunning st; shouldStop := shouldStop st;
     dailyActivityInterval := dailyActivityInterval st; accounts := accounts st; proxies
     := proxies st; selectedWalletIndex := selectedWalletIndex st; nonceTracker :=
     nonceTracker st; hasLoggedSleepInterrupt := v; activeProcesses := activeProcesses
     st; dailyActivityConfig := dailyActivityConfig st; process := process st; tick :=
     tick st; draws := draws st; trace := trace st |}.
Definition set_activeProcesses (v : Z) (st : State) : State :=
  {| transactionLogs := transactionLogs st; activityRunning := activityRunning st;
     isCycleRunning := isCycleRunning st; shouldStop := shouldStop st;
     dailyActivityInterval := dailyActivityInterval st; accounts := accounts st; proxies
     := proxies st; selectedWalletIndex := selectedWalletIndex st; nonceTracker :=
     nonceTracker st; hasLoggedSleepInterrupt := hasLoggedSleepInterrupt st;
     activeProcesses := v; dailyActivityConfig := dailyActivityConfig st; process :=
     process st; tick := tick st; draws := draws st; trace := trace st |}.
Definition set_dailyActivityConfig (v : Config) (st : State) : State :=
  {| transactionLogs := transactionLogs st; activityRunning := activityRunning st;
     isCycleRunning := isCycleRunning st; shouldStop := shouldStop st;
     dailyActivityInterval := dailyActivityInterval st; accounts := accounts st; proxies
     := proxies st; selectedWalletIndex := selectedWalletIndex st; nonceTracker :=
     nonceTracker st; hasLoggedSleepInterrupt := hasLoggedSleepInterrupt st;
     activeProcesses := activeProcesses st; dailyActivityConfig := v; process := process
     st; tick := tick st; draws := draws st; trace := trace st |}.
Definition set_process (v : Process) (st : State) : State :=
  {| transactionLogs := transactionLogs st; activityRunning := activityRunning st;
     isCycleRunning := isCycleRunning st; shouldStop := shouldStop st;
     dailyActivityInterval := dailyActivityInterval st; accounts := accounts st; proxies
     := proxies st; selectedWalletIndex := selectedWalletIndex st; nonceTracker :=
     nonceTracker st; hasLoggedSleepInterrupt := hasLoggedSleepInterrupt st;
     activeProcesses := activeProcesses st; dailyActivityConfig := dailyActivityConfig
     st; process := v; tick := tick st; draws := draws st; trace := trace st |}.
Definition set_tick (v : nat) (st : State) : State :=
  {| transactionLogs := transactionLogs st; activityRunning := activityRunning st;
     isCycleRunning := isCycleRunning st; shouldStop := shouldStop st;
     dailyActivityInterval := dailyActivityInterval st; accounts := accounts st; proxies
     := proxies st; selectedWalletIndex := selectedWalletIndex st; nonceTracker :=
     nonceTracker st; hasLoggedSleepInterrupt := hasLoggedSleepInterrupt st;
     activeProcesses := activeProcesses st; dailyActivityConfig := dailyActivityConfig
     st; process := process st; tick := v; draws := draws st; trace := trace st |}.
Definition set_draws (v : nat) (st : State) : State :=
  {| transactionLogs := transactionLogs st; activityRunning := activityRunning st;
     isCycleRunning := isCycleRunning st; shouldStop := shouldStop st;
     dailyActivityInterval := dailyActivityInterval st; accounts := accounts st; proxies
     := proxies st; selectedWalletIndex := selectedWalletIndex st; nonceTracker :=
     nonceTracker st; hasLoggedSleepInterrupt := hasLoggedSleepInterrupt st;
     activeProcesses := activeProcesses st; dailyActivityConfig := dailyActivityConfig
     st; process := process st; tick := tick st; draws := v; trace := trace st |}.
Definition set_trace (v : list Event) (st : State) : State :=
  {| transactionLogs := transactionLogs st; activityRunning := activityRunning st;
     isCycleRunning := isCycleRunning st; shouldStop := shouldStop st;
     dailyActivityInterval := dailyActivityInterval st; accounts := accounts st; proxies
     := proxies st; selectedWalletIndex := selectedWalletIndex st; nonceTracker :=
     nonceTracker st; hasLoggedSleepInterrupt := hasLoggedSleepInterrupt st;
     activeProcesses := activeProcesses st; dailyActivityConfig := dailyActivityConfig
     st; process := process st; tick := tick st; draws := draws st; trace := v |}.

(** ** The monad of the script's functions *)

Definition M (A : Type) : Type := State -> res A * State.

Global Instance M_ret : MRet M := λ A a st, (Ok a, st).

Global Instance M_bind : MBind M := λ A B f m st,
  match m st with
  | (Ok a, st') => f a st'
  | (Err e, st') => (Err e, st')
  | (Hang, st') => (Hang, st')
  end.

Definition throw {A} (e : error) : M A := λ st, (Err e, st).

(** A synchronous library call that returns or throws. *)
Definition call {A} (r : string + A) : M A :=
  λ st, (match r with inl msg => Err (External msg) | inr a => Ok a end, st).

(** The outcome of an awaited call to the outside. *)
Definition settle {A} (a : answer A) : res A :=
  match a with
  | Resolved v => Ok v
  | Rejected msg => Err (External msg)
  | Pending => Hang
  end.

Definition gets {A} (f : State -> A) : M A := λ st, (Ok (f st), st).
Definition modify (f : State -> State) : M unit := λ st, (Ok tt, f st).

(** [try { body } catch (error) { handler }]. *)
Definition tryCatch {A} (body : M A) (handler : error -> M A) : M A := λ st,
  match body st with
  | (Err e, st') => handler e st'
  | other => other
  end.

(** [try { body } finally { fin }]: the outcome of [body] stands unless
    [fin] itself throws. *)
Definition tryFinally {A} (body : M A) (fin : M unit) : M A := λ st,
  match body st with
  | (Hang, st') => (Hang, st')
  | (r, st') =>
      match fin st' with
      | (Ok _, st'') => (r, st'')
      | (Err e, st'') => (Err e, st'')
      | (Hang, st'') => (Hang, st'')
      end
  end.

Definition when (b : bool) (m : M unit) : M unit := if b then m else mret tt.

(** One observable event. *)
Definition emit (e : Event) : M unit :=
  modify (λ st, set_trace (trace st ++ [e]) st).

(** One suspension: the event loop runs until the awaited call settles. *)
Definition suspend : M nat :=
  λ st, (Ok (tick st), set_tick (S (tick st)) st).

(** [addLog(message, type)]; the log keeps the type beside the message in
    place of the colour and the time stamp. *)
Definition addLog (msg : string) (type : string) : M unit :=
  if (String.eqb type "debug" && negb isDebug)%bool then mret tt
  else modify (λ st, set_transactionLogs (transactionLogs st ++ [(type, msg)]) st).

(** ** Arithmetic on JavaScript numbers *)

(** [a + b]: infinities of opposite sign add up to [NaN]. *)
Definition num_add (a b : number) : number :=
  match a, b with
  | Fin x, Fin y => Fin (x + y)
  | Inf s, Fin _ | Fin _, Inf s => Inf s
  | Inf s, Inf t => if Bool.eqb s t then Inf s else NaN
  | _, _ => NaN
  end.

(** [a - b]: infinities of the same sign subtract to [NaN]. *)
Definition num_sub (a b : number) : number :=
  match a, b with
  | Fin x, Fin y => Fin (x - y)
  | Inf s, Fin _ => Inf s
  | Fin _, Inf s => Inf (negb s)
  | Inf s, Inf t => if Bool.eqb s t then NaN else Inf s
  | _, _ => NaN
  end.

(** [a * b]: zero times an infinity is [NaN]. *)
Definition num_mul (a b : number) : number :=
  match a, b with
  | Fin x, Fin y => Fin (x * y)
  | Inf s, Fin y | Fin y, Inf s =>
      if Qeq_bool y 0 then NaN else Inf (xorb s (negb (Qle_bool 0 y)))
  | Inf s, Inf t => Inf (xorb s t)
  | _, _ => NaN
  end.

(** [a < b]; any comparison with [NaN] is false. *)
Definition num_lt (a b : number) : bool :=
  match a, b with
  | Fin x, Fin y => negb (Qle_bool y x)
  | Inf true, Fin _ | Fin _, Inf false | Inf true, Inf false => true
  | _, _ => false
  end.

(** [a <= b]; any comparison with [NaN] is false. *)
Definition num_le (a b : number) : bool :=
  match a, b with
  | Fin x, Fin y => Qle_bool x y
  | Inf true, Fin _ | Fin _, Inf false => true
  | Inf s, Inf t => s || negb t
  | _, _ => false
  end.

Definition isNaN (n : number) : bool :=
  match n with NaN => true | _ => false end.

(** [Math.floor(x)] *)
Definition num_floor (x : number) : number :=
  match x with Fin q => Fin (inject_Z (Qfloor q)) | other => other end.

Definition of_Z (i : Z) : number := Fin (inject_Z i).

(** The largest count up to which [i++] still moves a counter: from 2^53
    on, adding 1 to a double gives the same double back. *)
Definition MAX_COUNT : Z := 2 ^ 53.

(** The number of passes of [for (let i = 0; i < n; i++)], when the loop
    has a last pass: with [n] above 2^53 the counter stops growing below
    [n] and the loop does not end on its own. *)
Definition passes (n : number) : option nat :=
  match n with
  | NaN | Inf true => Some O
  | Fin q =>
      if Qle_bool q (inject_Z MAX_COUNT) then Some (Z.to_nat (Qceiling q)) else None
  | Inf false => None
  end.

(** The longest delay of a timer of Node, in milliseconds. *)
Definition TIMEOUT_MAX : Z := 2147483647.

(** The delay [setTimeout(callback, after)] arms its timer with: [after]
    cut to whole milliseconds when it lies between 1 and [TIMEOUT_MAX],
    and 1 for any other value, [NaN] included. *)
Definition timeoutDelay (after : number) : number :=
  if num_le (Fin 1) after && num_le after (of_Z TIMEOUT_MAX) then num_floor after
  else Fin 1.

Fixpoint zeros (k : nat) : string :=
  match k with O => "" | S k' => String "0" (zeros k') end.

(** [x.toFixed(4)]. Below 10^21 in magnitude it is the nearest multiple
    of 1/10000, the larger one on a tie, written with four decimals. From
    10^21 on it is the sign and what [toString] makes of the magnitude,
    which is in exponent notation; [toString] is the rendering of the
    library. *)
Definition toFixed4 (toString : number -> string) (x : number) : string :=
  match x with
  | NaN => "NaN"
  | Inf negative => if negative then "-Infinity" else "Infinity"
  | Fin q =>
      let sign := if Qle_bool 0 q then "" else "-" in
      if Qle_bool (inject_Z (10 ^ 21)) (Qabs q) then sign +:+ toString (Fin (Qabs q))
      else
        let n := Qfloor (Qabs q * 10000 + (1 # 2)) in
        let frac := pretty (n mod 10000) in
        sign +:+ pretty (n / 10000) +:+ "." +:+ zeros (4 - String.length frac) +:+ frac
  end.

(** [Math.floor(r * (15000 - 10000 + 1)) + 10000] *)
Definition delayOf (r : Q) : Z := Qfloor (r * 5001) + 10000.

(** [proxies[accountIndex % proxies.length] || null]; with no proxies the
    index is [NaN] and the element [undefined]. *)
Definition proxyFor (proxies : list string) (accountIndex : Z) : option string :=
  match proxies with
  | [] => None
  | _ =>
      match proxies !! Z.to_nat (accountIndex mod Z.of_nat (length proxies)) with
      | Some EmptyString | None => None
      | Some url => Some url
      end
  end.

(** [for (let i = start; cond(i); i++) body(i)], with the number of passes
    bounded by [fuel]. *)
Fixpoint forLoop (fuel : nat) (i : Z) (cond : Z -> M bool) (body : Z -> M unit)
    : M unit :=
  match fuel with
  | O => mret tt
  | S fuel' =>
      c ← cond i;
      if c : bool then body i;; forLoop fuel' (i + 1) cond body else mret tt
  end.

(** ** Text files and JSON values *)

Definition newline : ascii := ascii_of_nat 10.

(** [data.split("\n")] *)
Fixpoint split_newline (data : string) : list string :=
  match data with
  | EmptyString => [EmptyString]
  | String c rest =>
      if Ascii.eqb c newline then EmptyString :: split_newline rest
      else match split_newline rest with
           | line :: lines => String c line :: lines
           | [] => [String c EmptyString]
           end
  end.

(** What [String.prototype.trim] strips: the white space and the line
    terminators of ECMAScript. The text of a file is its UTF-8 bytes, so
    they appear as their encodings: the six ASCII ones, U+00A0, U+1680,
    U+2000 to U+200A, U+2028, U+2029, U+202F, U+205F, U+3000 and U+FEFF. *)
Definition whiteSpace : list (list ascii) :=
  map (map ascii_of_nat)
    [ [9]; [10]; [11]; [12]; [13]; [32];
      [194; 160];
      [225; 154; 128];
      [226; 128; 128]; [226; 128; 129]; [226; 128; 130]; [226; 128; 131];
      [226; 128; 132]; [226; 128; 133]; [226; 128; 134]; [226; 128; 135];
      [226; 128; 136]; [226; 128; 137]; [226; 128; 138];
      [226; 128; 168]; [226; 128; 169]; [226; 128; 175];
      [226; 129; 159];
      [227; 128; 128];
      [239; 187; 191] ]%nat.

(** What is left of [l] after the prefix [p], when [l] starts with [p]. *)
Fixpoint afterPrefix (p l : list ascii) : option (list ascii) :=
  match p, l with
  | [], _ => Some l
  | a :: p', b :: l' => if Ascii.eqb a b then afterPrefix p' l' else None
  | _ :: _, [] => None
  end.

(** What is left of [l] after the first of the [marks] it starts with. *)
Fixpoint afterAny (marks : list (list ascii)) (l : list ascii) : option (list ascii) :=
  match marks with
  | [] => None
  | p :: marks' =>
      match afterPrefix p l with
      | Some rest => Some rest
      | None => afterAny marks' l
      end
  end.

(** [l] without the [marks] it starts with, at most [fuel] of them. *)
Fixpoint dropMarks (marks : list (list ascii)) (fuel : nat) (l : list ascii)
    : list ascii :=
  match fuel with
  | O => l
  | S fuel' =>
      match afterAny marks l with
      | Some rest => dropMarks marks fuel' rest
      | None => l
      end
  end.

Definition trimStart (l : list ascii) : list ascii :=
  dropMarks whiteSpace (length l) l.

Definition trimEnd (l : list ascii) : list ascii :=
  reverse (dropMarks (reverse <$> whiteSpace) (length l) (reverse l)).

(** [line.trim()] *)
Definition trim (s : string) : string :=
  string_of_list_ascii (trimEnd (trimStart (list_ascii_of_string s))).

Definition nonEmpty (s : string) : bool :=
  match s with EmptyString => false | _ => true end.

(** [data.split("\n").map(line => line.trim()).filter(line => line)] *)
Definition trimmedLines (data : string) : list string :=
  List.filter nonEmpty (List.map trim (split_newline data)).

Fixpoint getField (key : string) (fields : list (string * json)) : option json :=
  match fields with
  | [] => None
  | (k, v) :: rest => if String.eqb k key then Some v else getField key rest
  end.

(** [v.key]: a [TypeError] on [null], [undefined] on the other values that
    are not objects. *)
Definition prop (v : json) (key : string) : string + option json :=
  match v with
  | JNull => inl ("Cannot read properties of null (reading '" +:+ key +:+ "')")
  | JObj fields => inr (getField key fields)
  | _ => inr None
  end.

(** [v?.key] where [v] may be [undefined]. *)
Definition optProp (v : option json) (key : string) : option json :=
  match v with
  | None | Some JNull => None
  | Some (JObj fields) => getField key fields
  | Some _ => None
  end.

Definition set_stakeRepetitions (v : number) (c : Config) : Config :=
  {| stakeRepetitions := v; unstakeRepetitions := unstakeRepetitions c;
     claimRepetitions := claimRepetitions c; wethStakeRange := wethStakeRange c;
     exethUnstakeRange := exethUnstakeRange c; loopHours := loopHours c |}.
Definition set_unstakeRepetitions (v : number) (c : Config) : Config :=
  {| stakeRepetitions := stakeRepetitions c; unstakeRepetitions := v;
     claimRepetitions := claimRepetitions c; wethStakeRange := wethStakeRange c;
     exethUnstakeRange := exethUnstakeRange c; loopHours := loopHours c |}.
Definition set_claimRepetitions (v : number) (c : Config) : Config :=
  {| stakeRepetitions := stakeRepetitions c; unstakeRepetitions := unstakeRepetitions c;
     claimRepetitions := v; wethStakeRange := wethStakeRange c;
     exethUnstakeRange := exethUnstakeRange c; loopHours := loopHours c |}.
Definition set_wethStakeRange (v : range) (c : Config) : Config :=
  {| stakeRepetitions := stakeRepetitions c; unstakeRepetitions := unstakeRepetitions c;
     claimRepetitions := claimRepetitions c; wethStakeRange := v;
     exethUnstakeRange := exethUnstakeRange c; loopHours := loopHours c |}.
Definition set_exethUnstakeRange (v : range) (c : Config) : Config :=
  {| stakeRepetitions := stakeRepetitions c; unstakeRepetitions := unstakeRepetitions c;
     claimRepetitions := claimRepetitions c; wethStakeRange := wethStakeRange c;
     exethUnstakeRange := v; loopHours := loopHours c |}.
Definition set_loopHours (v : number) (c : Config) : Config :=
  {| stakeRepetitions := stakeRepetitions c; unstakeRepetitions := unstakeRepetitions c;
     claimRepetitions := claimRepetitions c; wethStakeRange := wethStakeRange c;
     exethUnstakeRange := exethUnstakeRange c; loopHours := v |}.
Definition set_range_min (v : number) (r : range) : range :=
  {| range_min := v; range_max := range_max r |}.
Definition set_range_max (v : number) (r : range) : range :=
  {| range_min := range_min r; range_max := v |}.

(** An assignment to a field of [dailyActivityConfig]. *)
Definition setConfig (f : Config -> Config) : M unit :=
  modify (λ st, set_dailyActivityConfig (f (dailyActivityConfig st)) st).

Definition CONFIG_FILE : string := "config.json".

Section Engine.

Context (E : Ethers) (W : World).

(** ** Awaited calls *)

(** [await] of a read-only provider or contract call. *)
Definition ask (q : Query) : M Z := λ st,
  (settle (read W (tick st) q), set_trace (trace st ++ [EvRead q]) (set_tick (S (tick st)) st)).

(** [await provider.getFeeData()]. *)
Definition askFeeData : M FeeData := λ st,
  (settle (getFeeData W (tick st)),
   set_trace (trace st ++ [EvRead QFeeData]) (set_tick (S (tick st)) st)).

(** [await wallet.sendTransaction(tx)]. *)
Definition send (from : string) (tx : Transaction) : M string := λ st,
  (settle (sendTransaction W (tick st) from tx),
   set_trace (trace st ++ [EvSend from tx]) (set_tick (S (tick st)) st)).

(** [await tx.wait()]: the receipt status, with no bound on the wait. *)
Definition waitReceipt (hash : string) : M Z := λ st,
  (match wait W (tick st) hash with
   | Settled _ (inr status) => Ok status
   | Settled _ (inl msg) => Err (External msg)
   | Never => Hang
   end,
   set_trace (trace st ++ [EvWait hash]) (set_tick (S (tick st)) st)).

(** [await Promise.race([tx.wait(), timeoutPromise])] with [timeoutMs]. *)
Definition waitReceiptRace (hash : string) (timeoutMs : Z) : M Z := λ st,
  (match wait W (tick st) hash with
   | Settled ms r =>
       if ms <? timeoutMs
       then match r with inr status => Ok status | inl msg => Err (External msg) end
       else Err (Thrown "Transaction confirmation timed out")
   | Never => Err (Thrown "Transaction confirmation timed out")
   end,
   set_trace (trace st ++ [EvWait hash]) (set_tick (S (tick st)) st)).

(** ** NonceTracker *)

(** The key [`${chainId}_${walletAddress}`]. *)
Definition nonceKey (chainId : Z) (walletAddress : string) : string :=
  pretty chainId +:+ "_" +:+ walletAddress.

Definition getNextNonce (walletAddress : string) (chainId : Z) : M Z :=
  stop ← gets shouldStop;
  if stop : bool then
    addLog "Nonce fetch stopped due to stop request." "info";;
    throw (Thrown "Process stopped")
  else if negb (isAddress E walletAddress) then
    addLog ("Invalid wallet address: " +:+ walletAddress) "error";;
    throw (Thrown "Invalid wallet address")
  else
    let nonceKey := nonceKey chainId walletAddress in
    tryCatch
      (pendingNonce ← ask (QTransactionCount walletAddress);
       tracker ← gets nonceTracker;
       let lastUsedNonce := bigint_or (tracker !! nonceKey) (pendingNonce - 1) in
       let nextNonce :=
         if lastUsedNonce + 1 <? pendingNonce then pendingNonce
         else lastUsedNonce + 1 in
       modify (λ st, set_nonceTracker (<[nonceKey := nextNonce]> (nonceTracker st)) st);;
       addLog ("Debug: Fetched nonce " +:+ pretty nextNonce +:+ " for " +:+
               getShortAddress walletAddress +:+ " on chain " +:+ pretty chainId)
              "debug";;
       mret nextNonce)
      (λ error,
         addLog ("Failed to fetch nonce for " +:+ getShortAddress walletAddress +:+
                 " on chain " +:+ pretty chainId +:+ ": " +:+ message error)
                "error";;
         throw error).

(** ** FeeEstimator *)

Definition getFeeParams : M FeeParams :=
  tryCatch
    (feeData ← askFeeData;
     let legacy := FeeLegacy (bigint_or (fd_gasPrice feeData) one_gwei) in
     mret (match fd_maxFeePerGas feeData, fd_maxPriorityFeePerGas feeData with
           | Some maxFee, Some maxPriority =>
               if (negb (maxFee =? 0) && negb (maxPriority =? 0))%bool
               then FeeDynamic maxFee maxPriority
               else legacy
           | _, _ => legacy
           end))
    (λ error,
       addLog ("Failed to get fee data: " +:+ message error +:+ ". Using default.") "debug";;
       mret (FeeLegacy one_gwei)).

(** [feeParams.gasPrice || feeParams.maxFeePerGas]; [None] is [undefined]. *)
Definition gasFeeOf (feeParams : FeeParams) : option Z :=
  match feeParams with
  | FeeLegacy gasPrice => if gasPrice =? 0 then None else Some gasPrice
  | FeeDynamic maxFee _ => Some maxFee
  end.

(** [gasFee * gasLimit]; multiplying [undefined] by a [BigInt] is a
    [TypeError]. *)
Definition estimateGasCost (feeParams : FeeParams) (gasLimit : Z) : M Z :=
  match gasFeeOf feeParams with
  | Some gasFee => mret (gasFee * gasLimit)
  | None => throw (External "Cannot mix BigInt and other types, use explicit conversions")
  end.


(** ** TokenApprover *)

Record Wallet : Type := { privateKey : string; address : string }.

Definition approveToken (wallet : Wallet) (tokenAddress spender : string)
    (amountWei : Z) : M unit :=
  allowance ← ask (QAllowance tokenAddress (address wallet) spender);
  if allowance >=? amountWei then
    addLog ("Token " +:+ getShortAddress tokenAddress +:+ " already approved for " +:+
            formatEther E amountWei) "info"
  else
    let approveData := CallApprove spender amountWei in
    feeParams ← getFeeParams;
    let gasLimit := 100000 in
    addLog ("Using fixed gas limit for approve: " +:+ pretty gasLimit) "debug";;
    nonce ← getNextNonce (address wallet) HOLESKY_CHAIN_ID;
    hash ← send (address wallet)
             {| tx_to := tokenAddress; tx_data := approveData; tx_value := 0;
                tx_fee := feeParams; tx_gasLimit := gasLimit; tx_nonce := nonce |};
    addLog ("Approve Transaction sent: " +:+ getShortHash hash) "warn";;
    status ← waitReceipt hash;
    if status =? 0 then throw (Thrown "Approve transaction reverted")
    else addLog ("Token approved successfully, Hash: " +:+ getShortHash hash) "success".

(** ** Provider set-up and sleeping *)

(** [createAgent(proxyUrl)]; [None] is [null]. *)
Definition createAgent (proxyUrl : option string) : string + unit :=
  match proxyUrl with
  | None => inr tt
  | Some url => newProxyAgent E url
  end.

(** [sleep(ms)]. The promise resolves when the timer fires; the 100 ms
    poll of [shouldStop] inside it only matters when a menu handler runs
    in between, which is outside this development. *)
Definition sleep (ms : Z) : M unit :=
  stop ← gets shouldStop;
  if stop : bool then
    logged ← gets hasLoggedSleepInterrupt;
    when (negb logged)
      (addLog "Process stopped successfully." "info";;
       modify (set_hasLoggedSleepInterrupt true))
  else
    modify (λ st, set_activeProcesses (activeProcesses st + 1) st);;
    tryFinally
      (emit (EvSleep ms);; _ ← suspend; mret tt)
      (modify (λ st, set_activeProcesses (Z.max 0 (activeProcesses st - 1)) st)).

(** [sleep(ms)] called without [await]: only the part before its first
    suspension runs here. The timer it starts, and the decrement of
    [activeProcesses] when that fires, are left out. *)
Definition sleepDetached (ms : Z) : M unit :=
  stop ← gets shouldStop;
  if stop : bool then
    logged ← gets hasLoggedSleepInterrupt;
    when (negb logged)
      (addLog "Process stopped successfully." "info";;
       modify (set_hasLoggedSleepInterrupt true))
  else
    modify (λ st, set_activeProcesses (activeProcesses st + 1) st).

(** The retry loop of [getProvider]; [remaining] counts the attempts left
    out of [maxRetries]. Constructing the provider itself performs no I/O. *)
Fixpoint getProviderFrom (remaining : nat) (attempt maxRetries : Z)
    (chainId : Z) (proxyUrl : option string) : M unit :=
  match remaining with
  | O => throw (Thrown ("Failed to initialize provider for chain " +:+ pretty chainId))
  | S remaining' =>
      match createAgent proxyUrl with
      | inr _ => mret tt
      | inl msg =>
          addLog ("Attempt " +:+ pretty attempt +:+ "/" +:+ pretty maxRetries +:+
                  " failed to initialize provider: " +:+ msg) "error";;
          when (attempt <? maxRetries) (sleepDetached 1000);;
          getProviderFrom remaining' (attempt + 1) maxRetries chainId proxyUrl
      end
  end.

Definition getProvider (rpcUrl : string) (chainId : Z) (proxyUrl : option string)
    : M unit :=
  getProviderFrom 3 1 3 chainId proxyUrl.

(** The [catch] block shared, text for text, by the five operations around
    [getNextNonce] and [sendTransaction]. *)
Definition onSendError {A} (chainId : Z) (address : string) (error : error) : M A :=
  addLog ("Transaction failed: " +:+ message error) "error";;
  when (includes "nonce" (message error))
    (let nonceKey := nonceKey chainId address in
     modify (λ st, set_nonceTracker (delete nonceKey (nonceTracker st)) st);;
     addLog "Nonce error detected, resetting nonce for next attempt." "warn");;
  throw error.

Definition timeoutMs : Z := 300000.

(** ** OperationRunner

    Stake, Unstake and Unwrap build their call data with
    [encodeFunctionData] right after the amount is parsed, and that is
    where the library refuses an amount that is no [uint256]: a negative
    one, or one above [MAX_UINT256]. The encoding is not part of the
    embedding. What is stated below about an operation that reaches its
    broadcast is stated for amounts within that range, assumed where the
    balances read do not force it. *)

Definition performStake (wallet : Wallet) (direction : direction) (amount : string) 
    (proxyUrl : option string) : M unit :=
  emit (EvPerform Stake (address wallet) (Some amount));;
  let chainId := chainId direction in
  getProvider (rpc direction) chainId proxyUrl;;
  amountWei ← call (parseEther E amount);
  let addr := toLowerCase (address wallet) in
  let txData := CallStakeDeposit WETH_ADDRESS amountWei in
  wethBalance ← ask (QBalanceOf WETH_ADDRESS addr);
  if wethBalance <? amountWei then
    throw (Thrown ("Insufficient WETH balance: " +:+ formatEther E wethBalance +:+ " < " +:+
                   amount))
  else
  approveToken wallet WETH_ADDRESS STAKE_CONTRACT_ADDRESS amountWei;;
  feeParams ← getFeeParams;
  let gasLimit := 650000 in
  addLog ("Using fixed gas limit: " +:+ pretty gasLimit +:+ " for stake on Holesky") "debug";;
  estimatedGasCost ← estimateGasCost feeParams gasLimit;
  ethBalance ← ask (QGetBalance addr);
  if ethBalance <? estimatedGasCost then
    throw (Thrown ("Insufficient ETH for gas: " +:+ formatEther E ethBalance +:+ " < " +:+
                   formatEther E estimatedGasCost))
  else
  hash ← tryCatch
    (nonce ← getNextNonce addr chainId;
     hash ← send (address wallet)
              {| tx_to := STAKE_CONTRACT_ADDRESS; tx_data := txData; tx_value := 0;
                 tx_fee := feeParams; tx_gasLimit := gasLimit; tx_nonce := nonce |};
     addLog ("Stake Transaction sent: " +:+ getShortHash hash) "warn";;
     mret hash)
    (onSendError chainId addr);
  tryCatch
    (status ← waitReceiptRace hash timeoutMs;
     if status =? 0 then throw (Thrown "Transaction reverted")
     else addLog ("Stake " +:+ amount +:+ " WETH for eXETH Successfully, Hash: " +:+ getShortHash hash) "success")
    (λ error,
       addLog ("Transaction failed: " +:+ message error) "error";;
       throw error).

Definition performUnstake (wallet : Wallet) (direction : direction) (amount : string) 
    (proxyUrl : option string) : M unit :=
  emit (EvPerform Unstake (address wallet) (Some amount));;
  let chainId := chainId direction in
  getProvider (rpc direction) chainId proxyUrl;;
  amountWei ← call (parseEther E amount);
  let addr := toLowerCase (address wallet) in
  let txData := CallUnstakeWithdraw amountWei WETH_ADDRESS in
  exethBalance ← ask (QBalanceOf EXETH_ADDRESS addr);
  if exethBalance <? amountWei then
    throw (Thrown ("Insufficient eXETH balance: " +:+ formatEther E exethBalance +:+ " < " +:+
                   amount))
  else
  approveToken wallet EXETH_ADDRESS UNSTAKE_CONTRACT_ADDRESS amountWei;;
  feeParams ← getFeeParams;
  let gasLimit := 650000 in
  addLog ("Using fixed gas limit: " +:+ pretty gasLimit +:+ " for unstake on Holesky") "debug";;
  estimatedGasCost ← estimateGasCost feeParams gasLimit;
  ethBalance ← ask (QGetBalance addr);
  if ethBalance <? estimatedGasCost then
    throw (Thrown ("Insufficient ETH for gas: " +:+ formatEther E ethBalance +:+ " < " +:+
                   formatEther E estimatedGasCost))
  else
  hash ← tryCatch
    (nonce ← getNextNonce addr chainId;
     hash ← send (address wallet)
              {| tx_to := UNSTAKE_CONTRACT_ADDRESS; tx_data := txData; tx_value := 0;
                 tx_fee := feeParams; tx_gasLimit := gasLimit; tx_nonce := nonce |};
     addLog ("Unstake Transaction sent: " +:+ getShortHash hash) "warn";;
     mret hash)
    (onSendError chainId addr);
  tryCatch
    (status ← waitReceiptRace hash timeoutMs;
     if status =? 0 then throw (Thrown "Transaction reverted")
     else addLog ("Unstake " +:+ amount +:+ " eXETH for WETH Successfully, Hash: " +:+ getShortHash hash) "success")
    (λ error,
       addLog ("Transaction failed: " +:+ message error) "error";;
       throw error).

Definition performClaim (wallet : Wallet) (direction : direction) 
    (proxyUrl : option string) : M unit :=
  emit (EvPerform Claim (address wallet) None);;
  let chainId := chainId direction in
  getProvider (rpc direction) chainId proxyUrl;;
  let addr := toLowerCase (address wallet) in
  count ← ask (QOutstandingWithdrawRequests addr);
  if count =? 0 then throw (Thrown "No outstanding withdraw requests") else
  createdAt ← ask (QWithdrawRequestCreatedAt addr 0);
  coolDown ← ask QCoolDownPeriod;
  now ← ask QLatestBlockTimestamp;
  if createdAt + coolDown >? now then throw (Thrown "Not ready to claim yet") else
  feeParams ← getFeeParams;
  let txData := CallClaim 0 addr in
  let gasLimit := 650000 in
  addLog ("Using fixed gas limit: " +:+ pretty gasLimit +:+ " for claim on Holesky") "debug";;
  estimatedGasCost ← estimateGasCost feeParams gasLimit;
  ethBalance ← ask (QGetBalance addr);
  if ethBalance <? estimatedGasCost then
    throw (Thrown ("Insufficient ETH for gas: " +:+ formatEther E ethBalance +:+ " < " +:+
                   formatEther E estimatedGasCost))
  else
  hash ← tryCatch
    (nonce ← getNextNonce addr chainId;
     hash ← send (address wallet)
              {| tx_to := CLAIM_CONTRACT_ADDRESS; tx_data := txData; tx_value := 0;
                 tx_fee := feeParams; tx_gasLimit := gasLimit; tx_nonce := nonce |};
     addLog ("Claim Transaction sent: " +:+ getShortHash hash) "warn";;
     mret hash)
    (onSendError chainId addr);
  tryCatch
    (status ← waitReceiptRace hash timeoutMs;
     if status =? 0 then throw (Thrown "Transaction reverted")
     else addLog ("Claim Successfully, Hash: " +:+ getShortHash hash) "success")
    (λ error,
       addLog ("Transaction failed: " +:+ message error) "error";;
       throw error).

Definition performWrap (wallet : Wallet) (direction : direction) (amount : string) 
    (proxyUrl : option string) : M unit :=
  emit (EvPerform Wrap (address wallet) (Some amount));;
  let chainId := chainId direction in
  getProvider (rpc direction) chainId proxyUrl;;
  amountWei ← call (parseEther E amount);
  let addr := toLowerCase (address wallet) in
  let txData := CallWethDeposit in
  ethBalance ← ask (QGetBalance addr);
  if ethBalance <? amountWei then
    throw (Thrown ("Insufficient ETH balance: " +:+ formatEther E ethBalance +:+ " < " +:+
                   amount))
  else
  feeParams ← getFeeParams;
  let gasLimit := 100000 in
  addLog ("Using fixed gas limit: " +:+ pretty gasLimit +:+ " for wrap on Holesky") "debug";;
  estimatedGasCost ← estimateGasCost feeParams gasLimit;
  if ethBalance <? amountWei + estimatedGasCost then
    throw (Thrown ("Insufficient ETH for amount + gas: " +:+ formatEther E ethBalance +:+
                   " < " +:+ formatEther E (amountWei + estimatedGasCost)))
  else
  hash ← tryCatch
    (nonce ← getNextNonce addr chainId;
     hash ← send (address wallet)
              {| tx_to := WETH_ADDRESS; tx_data := txData; tx_value := amountWei;
                 tx_fee := feeParams; tx_gasLimit := gasLimit; tx_nonce := nonce |};
     addLog ("Wrap Transaction sent: " +:+ getShortHash hash) "warn";;
     mret hash)
    (onSendError chainId addr);
  tryCatch
    (status ← waitReceiptRace hash timeoutMs;
     if status =? 0 then throw (Thrown "Transaction reverted")
     else addLog ("Wrap " +:+ amount +:+ " ETH to WETH Successfully, Hash: " +:+ getShortHash hash) "success")
    (λ error,
       addLog ("Transaction failed: " +:+ message error) "error";;
       throw error).

Definition performUnwrap (wallet : Wallet) (direction : direction) (amount : string) 
    (proxyUrl : option string) : M unit :=
  emit (EvPerform Unwrap (address wallet) (Some amount));;
  let chainId := chainId direction in
  getProvider (rpc direction) chainId proxyUrl;;
  amountWei ← call (parseEther E amount);
  let addr := toLowerCase (address wallet) in
  let txData := CallWethWithdraw amountWei in
  wethBalance ← ask (QBalanceOf WETH_ADDRESS addr);
  if wethBalance <? amountWei then
    throw (Thrown ("Insufficient WETH balance: " +:+ formatEther E wethBalance +:+ " < " +:+
                   amount))
  else
  feeParams ← getFeeParams;
  let gasLimit := 100000 in
  addLog ("Using fixed gas limit: " +:+ pretty gasLimit +:+ " for unwrap on Holesky") "debug";;
  estimatedGasCost ← estimateGasCost feeParams gasLimit;
  ethBalance ← ask (QGetBalance addr);
  if ethBalance <? estimatedGasCost then
    throw (Thrown ("Insufficient ETH for gas: " +:+ formatEther E ethBalance +:+ " < " +:+
                   formatEther E estimatedGasCost))
  else
  hash ← tryCatch
    (nonce ← getNextNonce addr chainId;
     hash ← send (address wallet)
              {| tx_to := WETH_ADDRESS; tx_data := txData; tx_value := 0;
                 tx_fee := feeParams; tx_gasLimit := gasLimit; tx_nonce := nonce |};
     addLog ("Unwrap Transaction sent: " +:+ getShortHash hash) "warn";;
     mret hash)
    (onSendError chainId addr);
  tryCatch
    (status ← waitReceiptRace hash timeoutMs;
     if status =? 0 then throw (Thrown "Transaction reverted")
     else addLog ("Unwrap " +:+ amount +:+ " WETH to ETH Successfully, Hash: " +:+ getShortHash hash) "success")
    (λ error,
       addLog ("Transaction failed: " +:+ message error) "error";;
       throw error).

(** ** CycleScheduler *)

(** A run that does not return. *)
Definition never {A} : M A := λ st, (Hang, st).

(** [Math.random()] *)
Definition mathRandom : M Q := λ st,
  (Ok (random W (draws st)), set_draws (S (draws st)) st).

(** [(Math.random() * (range.max - range.min) + range.min).toFixed(4)] *)
Definition randomAmount (r : range) : M string :=
  x ← mathRandom;
  mret (toFixed4 (numberToString E)
          (num_add (num_mul (Fin x) (num_sub (range_max r) (range_min r)))
                   (range_min r))).

Definition randomDelay : M Z := x ← mathRandom; mret (delayOf x).

(** [updateWallets()]: the refresh of the balance table. It reads balances
    only for display and catches every error, its own and those of
    [updateWalletData]; here it is one suspension. The reads, the set-up of
    their providers and the lines it logs ("Wallet data updated." or the
    failure) are left out: what is stated below about a log after a refresh
    is membership, not the whole log. *)
Definition updateWallets : M unit :=
  emit EvRefresh;; _ ← suspend; mret tt.

Definition config {A} (f : Config -> A) : M A := gets (λ st, f (dailyActivityConfig st)).

(** One pass of the stake loop. *)
Definition stakeStep (accountIndex : Z) (wallet : Wallet) (direction : direction)
    (proxyUrl : option string) (stakeCount : Z) : M unit :=
  range ← config wethStakeRange;
  amount ← randomAmount range;
  addLog ("Account " +:+ pretty (accountIndex + 1) +:+ " - Stake " +:+
          pretty (stakeCount + 1) +:+ ": " +:+ amount +:+ " WETH for eXETH") "warn";;
  tryFinally
    (tryCatch (performStake wallet direction amount proxyUrl)
       (λ error,
          addLog ("Account " +:+ pretty (accountIndex + 1) +:+ " - Stake " +:+
                  pretty (stakeCount + 1) +:+ ": Failed: " +:+ message error +:+
                  ". Skipping to next.") "error"))
    updateWallets;;
  reps ← config stakeRepetitions;
  stop ← gets shouldStop;
  when (num_lt (of_Z stakeCount) (num_sub reps (Fin 1)) && negb stop)
    (delay ← randomDelay;
     addLog ("Account " +:+ pretty (accountIndex + 1) +:+ " - Waiting " +:+
             pretty (delay / 1000) +:+ " seconds before next stake...") "delay";;
     sleep delay).

(** One pass of the unstake loop. *)
Definition unstakeStep (accountIndex : Z) (wallet : Wallet) (direction : direction)
    (proxyUrl : option string) (unstakeCount : Z) : M unit :=
  range ← config exethUnstakeRange;
  amount ← randomAmount range;
  addLog ("Account " +:+ pretty (accountIndex + 1) +:+ " - Unstake " +:+
          pretty (unstakeCount + 1) +:+ ": " +:+ amount +:+ " eXETH for WETH") "warn";;
  tryFinally
    (tryCatch (performUnstake wallet direction amount proxyUrl)
       (λ error,
          addLog ("Account " +:+ pretty (accountIndex + 1) +:+ " - Unstake " +:+
                  pretty (unstakeCount + 1) +:+ ": Failed: " +:+ message error +:+
                  ". Skipping to next.") "error"))
    updateWallets;;
  reps ← config unstakeRepetitions;
  stop ← gets shouldStop;
  when (num_lt (of_Z unstakeCount) (num_sub reps (Fin 1)) && negb stop)
    (delay ← randomDelay;
     addLog ("Account " +:+ pretty (accountIndex + 1) +:+ " - Waiting " +:+
             pretty (delay / 1000) +:+ " seconds before next unstake...") "delay";;
     sleep delay).

(** One pass of the claim loop. *)
Definition claimStep (accountIndex : Z) (wallet : Wallet) (direction : direction)
    (proxyUrl : option string) (claimCount : Z) : M unit :=
  addLog ("Account " +:+ pretty (accountIndex + 1) +:+ " - Claim " +:+
          pretty (claimCount + 1)) "warn";;
  tryFinally
    (tryCatch (performClaim wallet direction proxyUrl)
       (λ error,
          addLog ("Account " +:+ pretty (accountIndex + 1) +:+ " - Claim " +:+
                  pretty (claimCount + 1) +:+ ": Failed: " +:+ message error +:+
                  ". Skipping to next.") "error"))
    updateWallets;;
  reps ← config claimRepetitions;
  stop ← gets shouldStop;
  when (num_lt (of_Z claimCount) (num_sub reps (Fin 1)) && negb stop)
    (delay ← randomDelay;
     addLog ("Account " +:+ pretty (accountIndex + 1) +:+ " - Waiting " +:+
             pretty (delay / 1000) +:+ " seconds before next claim...") "delay";;
     sleep delay).

(** The condition [count < repetitions && !shouldStop] of the inner loops. *)
Definition repeatWhile (repetitions : Config -> number) (count : Z) : M bool :=
  reps ← config repetitions;
  stop ← gets shouldStop;
  mret (num_lt (of_Z count) reps && negb stop).

(** [for (let count = 0; count < dailyActivityConfig.repetitions &&
    !shouldStop; count++) body(count)]. With a count above 2^53 and no
    stop requested the loop has no last pass; the run is then not followed
    any further. *)
Definition repeatLoop (repetitions : Config -> number) (body : Z -> M unit) : M unit :=
  n ← config repetitions;
  match passes n with
  | Some fuel => forLoop fuel 0 (repeatWhile repetitions) body
  | None =>
      again ← repeatWhile repetitions 0;
      if again : bool then never else mret tt
  end.

(** The pause between two kinds of operation: taken when both repetition
    counts are positive and no stop is requested. *)
Definition pauseBetween (accountIndex : Z) (before after : Config -> number)
    (what : string) : M unit :=
  a ← config before;
  b ← config after;
  stop ← gets shouldStop;
  when (num_lt (Fin 0) a && num_lt (Fin 0) b && negb stop)
    (delay ← randomDelay;
     addLog ("Account " +:+ pretty (accountIndex + 1) +:+ " - Waiting " +:+
             pretty (delay / 1000) +:+ " seconds before starting " +:+ what +:+ "...")
            "delay";;
     sleep delay).

(** The body of the loop over the accounts. *)
Definition processAccount (accountIndex : Z) : M unit :=
  addLog ("Starting processing for account " +:+ pretty (accountIndex + 1)) "info";;
  modify (set_selectedWalletIndex accountIndex);;
  proxyUrl ← gets (λ st, proxyFor (proxies st) accountIndex);
  addLog ("Account " +:+ pretty (accountIndex + 1) +:+ ": Using Proxy " +:+
          default "none" proxyUrl) "info";;
  accs ← gets accounts;
  key ← match accs !! Z.to_nat accountIndex with
        | Some key => mret key
        | None => throw (External "Cannot read properties of undefined (reading 'privateKey')")
        end;
  walletAddress ← call (walletAddress E key);
  let wallet := {| privateKey := key; address := walletAddress |} in
  if negb (isAddress E walletAddress) then
    addLog ("Invalid wallet address for account " +:+ pretty (accountIndex + 1) +:+
            ": " +:+ walletAddress) "error"
  else
    addLog ("Processing account " +:+ pretty (accountIndex + 1) +:+ ": " +:+
            getShortAddress walletAddress) "wait";;
    match directions with
    | [] => throw (External "Cannot destructure property 'rpc' of 'direction'")
    | direction :: _ =>
        repeatLoop stakeRepetitions (stakeStep accountIndex wallet direction proxyUrl);;
        pauseBetween accountIndex stakeRepetitions unstakeRepetitions "unstake";;
        repeatLoop unstakeRepetitions
          (unstakeStep accountIndex wallet direction proxyUrl);;
        pauseBetween accountIndex unstakeRepetitions claimRepetitions "claim";;
        repeatLoop claimRepetitions (claimStep accountIndex wallet direction proxyUrl);;
        count ← gets (λ st, Z.of_nat (length (accounts st)));
        stop ← gets shouldStop;
        when ((accountIndex <? count - 1) && negb stop)
          (addLog "Waiting 10 seconds before next account..." "delay";;
           sleep 10000)
    end.

(** What both stop paths do once [activeProcesses] is back to zero. *)
Definition finishStop : M unit :=
  timer ← gets dailyActivityInterval;
  when (bool_decide (timer ≠ None))
    (modify (set_dailyActivityInterval None);;
     addLog "Cleared daily activity interval." "info");;
  modify (set_activityRunning false);;
  modify (set_isCycleRunning false);;
  modify (set_shouldStop false);;
  modify (set_hasLoggedSleepInterrupt false);;
  modify (set_activeProcesses 0);;
  addLog "Daily activity stopped successfully." "success".

Definition runDailyActivity : M unit :=
  count ← gets (λ st, Z.of_nat (length (accounts st)));
  if count =? 0 then addLog "No valid accounts found." "error"
  else
    cfg ← gets dailyActivityConfig;
    addLog ("Starting daily activity for all accounts. Auto Stake: " +:+
            numberToString E (stakeRepetitions cfg) +:+ "x, Auto Unstake: " +:+
            numberToString E (unstakeRepetitions cfg) +:+ "x, Auto Claim: " +:+
            numberToString E (claimRepetitions cfg) +:+ "x") "info";;
    modify (set_activityRunning true);;
    modify (set_isCycleRunning true);;
    modify (set_shouldStop false);;
    modify (set_hasLoggedSleepInterrupt false);;
    modify (λ st, set_activeProcesses (Z.max 0 (activeProcesses st)) st);;
    tryFinally
      (tryCatch
         (forLoop (Z.to_nat count) 0
            (λ accountIndex,
               n ← gets (λ st, Z.of_nat (length (accounts st)));
               stop ← gets shouldStop;
               mret ((accountIndex <? n) && negb stop))
            processAccount;;
          stop ← gets shouldStop;
          active ← gets activeProcesses;
          when (negb stop && (active <=? 0))
            (hours ← config loopHours;
             addLog ("All accounts processed. Waiting " +:+ numberToString E hours +:+
                     " hours for next cycle.") "success";;
             modify (set_dailyActivityInterval
                       (Some (timeoutDelay
                                (num_mul (num_mul (num_mul hours (Fin 60)) (Fin 60))
                                         (Fin 1000)))))))
         (λ error, addLog ("Daily activity failed: " +:+ message error) "error"))
      (stop ← gets shouldStop;
       (if stop : bool then
          active ← gets activeProcesses;
          (* otherwise a one-second poll is armed, which runs later *)
          when (active <=? 0) finishStop
        else
          modify (set_activityRunning false);;
          modify (λ st, set_isCycleRunning
                          ((0 <? activeProcesses st) ||
                           bool_decide (dailyActivityInterval st ≠ None)) st));;
       modify (set_nonceTracker ∅)).

(** ** Loading the configuration, the accounts and the proxies *)

(** [Number(v)]; [None] is [undefined]. *)
Definition Number (v : option json) : number :=
  match v with
  | None => NaN
  | Some JNull => Fin 0
  | Some (JBool b) => Fin (if b then 1 else 0)
  | Some (JNum q) => Fin q
  | Some (JInf negative) => Inf negative
  | Some other => toNumberOther E other
  end.

Definition loadConfig : M unit :=
  tryCatch
    (if existsSync W CONFIG_FILE then
       data ← call (readFileSync W CONFIG_FILE);
       config ← call (JSON_parse E data);
       stake ← call (prop config "stakeRepetitions");
       setConfig (set_stakeRepetitions (num_or (Number stake) (Fin 1)));;
       unstake ← call (prop config "unstakeRepetitions");
       setConfig (set_unstakeRepetitions (num_or (Number unstake) (Fin 1)));;
       claim ← call (prop config "claimRepetitions");
       setConfig (set_claimRepetitions (num_or (Number claim) (Fin 1)));;
       weth ← call (prop config "wethStakeRange");
       setConfig (λ c, set_wethStakeRange
         (set_range_min (num_or (Number (optProp weth "min")) (Fin (1 # 100)))
            (wethStakeRange c)) c);;
       weth ← call (prop config "wethStakeRange");
       setConfig (λ c, set_wethStakeRange
         (set_range_max (num_or (Number (optProp weth "max")) (Fin (2 # 100)))
            (wethStakeRange c)) c);;
       exeth ← call (prop config "exethUnstakeRange");
       setConfig (λ c, set_exethUnstakeRange
         (set_range_min (num_or (Number (optProp exeth "min")) (Fin (1 # 100)))
            (exethUnstakeRange c)) c);;
       exeth ← call (prop config "exethUnstakeRange");
       setConfig (λ c, set_exethUnstakeRange
         (set_range_max (num_or (Number (optProp exeth "max")) (Fin (2 # 100)))
            (exethUnstakeRange c)) c);;
       hours ← call (prop config "loopHours");
       setConfig (set_loopHours (num_or (Number hours) (Fin 24)))
     else addLog "No config file found, using default settings." "info")
    (λ error, addLog ("Failed to load config: " +:+ message error) "error").

Definition loadAccounts : M unit :=
  tryCatch
    (data ← call (readFileSync W "pk.txt");
     modify (set_accounts (trimmedLines data));;
     n ← gets (λ st, length (accounts st));
     if Nat.eqb n 0 then throw (Thrown "No private keys found in pk.txt")
     else addLog ("Loaded " +:+ pretty n +:+ " accounts from pk.txt") "success")
    (λ error,
       addLog ("Failed to load accounts: " +:+ message error) "error";;
       modify (set_accounts [])).

Definition loadProxies : M unit :=
  tryCatch
    (if existsSync W "proxy.txt" then
       data ← call (readFileSync W "proxy.txt");
       modify (set_proxies (trimmedLines data));;
       n ← gets (λ st, length (proxies st));
       if Nat.eqb n 0 then throw (Thrown "No proxy found in proxy.txt")
       else addLog ("Loaded " +:+ pretty n +:+ " proxies from proxy.txt") "success"
     else addLog "No proxy.txt found, running without proxy." "info")
    (λ error,
       addLog ("Failed to load proxy: " +:+ message error) "info";;
       modify (set_proxies [])).

(** [initialize()]; the calls that only draw the screen are left out. *)
Definition initialize : M unit :=
  tryCatch
    (loadConfig;; loadAccounts;; loadProxies;; updateWallets)
    (λ error, addLog ("Initialization error: " +:+ message error) "error").

(** [process.on("unhandledRejection", ..)]: a rejected promise nobody
    awaits is logged. *)
Definition onUnhandledRejection (reason : error) : M unit :=
  addLog ("Unhandled Rejection: " +:+ message reason) "error".

(** [process.on("uncaughtException", ..)]: an error nobody caught is
    logged and ends the process with code 1. The logged text also carries
    the stack, left out. *)
Definition onUncaughtException (error : error) : M unit :=
  addLog ("Uncaught Exception: " +:+ message error) "error";;
  modify (set_process (Exited 1)).

(** The last statement of the script, [initialize();]: the promise is not
    awaited, so a rejection would reach the [unhandledRejection] handler. *)
Definition main : M unit := tryCatch initialize onUnhandledRejection.

End Engine.

(** The value [getNextNonce] hands out, from the tracker entry it finds and
    the chain's pending count. *)
Definition nextNonceOf (entry : option Z) (pendingNonce : Z) : Z :=
  let lastUsedNonce := bigint_or entry (pendingNonce - 1) in
  if lastUsedNonce + 1 <? pendingNonce then pendingNonce else lastUsedNonce + 1.

(** The parameters [getFeeParams] derives from a fee-data answer. *)
Definition feeParamsOf (fd : FeeData) : FeeParams :=
  if bigint_truthy (fd_maxFeePerGas fd) && bigint_truthy (fd_maxPriorityFeePerGas fd)
  then FeeDynamic (default 0 (fd_maxFeePerGas fd)) (default 0 (fd_maxPriorityFeePerGas fd))
  else FeeLegacy (bigint_or (fd_gasPrice fd) one_gwei).

(** ** Views of a trace *)

(** The transactions handed to [sendTransaction], with their senders. *)
Definition sentTxs (evs : list Event) : list (string * Transaction) :=
  omap (λ e, match e with EvSend from tx => Some (from, tx) | _ => None end) evs.

(** The operations entered and the sleeps taken, in order. *)
Definition schedule (evs : list Event) : list Event :=
  List.filter (λ e, match e with EvPerform _ _ _ | EvSleep _ => true | _ => false end) evs.

(** Every awaited call settles. *)
Definition responsive (W : World) : Prop :=
  (∀ t q, read W t q ≠ Pending)
  ∧ (∀ t, getFeeData W t ≠ Pending)
  ∧ (∀ t from tx, sendTransaction W t from tx ≠ Pending)
  ∧ (∀ t hash, wait W t hash ≠ Never).

(** ** Weakest preconditions

    [wp m st Q]: running [m] from [st] ends in an outcome and a state
    related by [Q]. *)
Definition wp {A} (m : M A) (st : State) (Q : res A -> State -> Prop) : Prop :=
  Q (m st).1 (m st).2.

(** ** What a stretch of a run leaves alone *)

(** The variables that the operations never assign. *)
Definition unchanged (st st' : State) : Prop :=
  shouldStop st' = shouldStop st ∧ accounts st' = accounts st
  ∧ proxies st' = proxies st ∧ dailyActivityConfig st' = dailyActivityConfig st
  ∧ process st' = process st.

(** From [st] to [st'] the run left those variables alone and added
    events whose operations and sleeps are [sched]. *)
Definition steps (st st' : State) (sched : list Event) : Prop :=
  unchanged st st' ∧ ∃ evs, trace st' = trace st ++ evs ∧ schedule evs = sched.

(** A computation that always settles, enters no operation and takes no
    sleep. *)
Definition Tame {A} (m : M A) : Prop :=
  ∀ st, (m st).1 ≠ Hang ∧ steps st (m st).2 [].

(** What [Number(stored) || 1] makes of a stored value: the number itself
    unless it is zero, and 1 when it is zero or absent. *)
Definition storedOr1 (stored : option json) (value : number) : Prop :=
  (∀ q, stored = Some (JNum q) -> ¬ (q == 0)%Q -> value = Fin q)
  ∧ (∀ q, stored = Some (JNum q) -> (q == 0)%Q -> value = Fin 1)
  ∧ (stored = None -> value = Fin 1).

(** ** Sample worlds *)

(** A chain on which every read answers [v]. *)
Definition constWorld (v : Z) : World := {|
  read := λ _ _, Resolved v;
  getFeeData := λ _, Resolved {| fd_gasPrice := Some 7; fd_maxFeePerGas := None;
                                 fd_maxPriorityFeePerGas := None |};
  sendTransaction := λ _ _ _, Resolved "0xhash00000000";
  wait := λ _ _, Settled 1000 (inr 1);
  random := λ _, 0%Q;
  existsSync := λ _, false;
  readFileSync := λ _, inl "ENOENT: no such file or directory"
|}.

(** A library that takes any text for an address and any key for a
    wallet, and reads every amount as 0.01 ether. *)
Definition laxEthers : Ethers := {|
  isAddress := λ _, true;
  parseEther := λ _, inr 10000000000000000;
  formatEther := λ _, "0.0";
  walletAddress := λ key, inr key;
  newProxyAgent := λ _, inr tt;
  JSON_parse := λ _, inl "Unexpected token";
  toNumberOther := λ _, NaN;
  numberToString := λ _, "1"
|}.

(** A chain whose fee data carries a base fee but a priority fee of zero. *)
Definition zeroTipFeeData : FeeData :=
  {| fd_gasPrice := Some 7; fd_maxFeePerGas := Some 1000;
     fd_maxPriorityFeePerGas := Some 0 |}.

Definition zeroTipWorld : World := {|
  read := λ _ _, Resolved 0;
  getFeeData := λ _, Resolved zeroTipFeeData;
  sendTransaction := λ _ _ _, Resolved "0xhash00000000";
  wait := λ _ _, Settled 1000 (inr 1);
  random := λ _, 0%Q;
  existsSync := λ _, false;
  readFileSync := λ _, inl "ENOENT: no such file or directory"
|}.

Definition sampleFeeData : FeeData :=
  {| fd_gasPrice := Some 7; fd_maxFeePerGas := None; fd_maxPriorityFeePerGas := None |}.

(** A chain with one withdraw request created at 100, a cool-down of 50
    and the latest block at 150; pending count 5. *)
Definition sampleRead (allowance tokenBalance nativeBalance : Z) (q : Query) : Z :=
  match q with
  | QTransactionCount _ => 5
  | QFeeData => 0
  | QAllowance _ _ _ => allowance
  | QBalanceOf _ _ => tokenBalance
  | QGetBalance _ => nativeBalance
  | QOutstandingWithdrawRequests _ => 1
  | QWithdrawRequestCreatedAt _ _ => 100
  | QCoolDownPeriod => 50
  | QLatestBlockTimestamp => 150
  end.

Definition sampleWorld (allowance tokenBalance nativeBalance : Z) (sent : answer string)
    : World := {|
  read := λ _ q, Resolved (sampleRead allowance tokenBalance nativeBalance q);
  getFeeData := λ _, Resolved sampleFeeData;
  sendTransaction := λ _ _ _, sent;
  wait := λ _ _, Settled 1000 (inr 1);
  random := λ _, (1 # 3)%Q;
  existsSync := λ _, true;
  readFileSync := λ _, inr ""
|}.

Definition sampleWallet : Wallet := {| privateKey := "key"; address := "0xAb" |}.

(** The state of the end-to-end scenario: two keys, one stake each of
    exactly 0.01, no unstake and no claim. *)
Definition scenarioState : State :=
  set_accounts ["key1"; "key2"]
    (set_dailyActivityConfig
       {| stakeRepetitions := Fin 1; unstakeRepetitions := Fin 0;
          claimRepetitions := Fin 0;
          wethStakeRange := {| range_min := Fin (1 # 100); range_max := Fin (1 # 100) |};
          exethUnstakeRange := {| range_min := Fin (1 # 100); range_max := Fin (2 # 100) |};
          loopHours := Fin 24 |}
       initialState).

(** A stored configuration with zero stake repetitions, three unstake
    repetitions and no entry for the claim repetitions. *)
Definition storedFields : list (string * json) :=
  [("stakeRepetitions", JNum 0); ("unstakeRepetitions", JNum 3)].

Definition configEthers : Ethers := {|
  isAddress := λ _, true;
  parseEther := λ _, inr 10000000000000000;
  formatEther := λ _, "0.0";
  walletAddress := λ key, inr key;
  newProxyAgent := λ _, inr tt;
  JSON_parse := λ _, inr (JObj storedFields);
  toNumberOther := λ _, NaN;
  numberToString := λ _, "1"
|}.

(** ** The menu *)

(** [clearTransactionLogs()] *)
Definition clearTransactionLogs : M unit :=
  modify (set_transactionLogs []);;
  addLog "Transaction logs cleared." "success".

(** The "Stop Activity" entry of the menu. With sleeps still pending it
    arms a one-second poll that finishes the stop later; that timer is
    left out. *)
Definition stopActivity : M unit :=
  modify (set_shouldStop true);;
  timer ← gets dailyActivityInterval;
  when (bool_decide (timer ≠ None))
    (modify (set_dailyActivityInterval None);;
     addLog "Cleared daily activity interval." "info");;
  addLog "Stopping daily activity. Please wait for ongoing process to complete." "info";;
  active ← gets activeProcesses;
  when (active <=? 0)
    (modify (set_activityRunning false);;
     modify (set_isCycleRunning false);;
     modify (set_shouldStop false);;
     modify (set_hasLoggedSleepInterrupt false);;
     addLog "Daily activity stopped successfully." "success").

(** [menuBox.on("select", ..)], by the text of the entry; the entries that
    only switch to another list of the screen do nothing here. *)
Definition menuSelect (E : Ethers) (W : World) (action : string) : M unit :=
  if String.eqb action "Start Auto Daily Activity" then
    running ← gets isCycleRunning;
    if running : bool
    then addLog "Cycle is still running. Stop the current cycle first." "error"
    else runDailyActivity E W
  else if String.eqb action "Stop Activity" then stopActivity
  else if String.eqb action "Clear Logs" then clearTransactionLogs
  else if String.eqb action "Refresh" then
    updateWallets;; addLog "Data refreshed." "success"
  else if String.eqb action "Exit" then modify (set_process (Exited 0))
  else mret tt.

(** [screen.key(["escape", "q", "C-c"], ..)] *)
Definition screenKeyExit : M unit :=
  addLog "Exiting application" "info";;
  modify (set_process (Exited 0)).

(** ** Relations a run keeps *)

(** The loop over the repetition count [n] has a last pass. *)
Definition hasLastPass (n : number) : bool :=
  match passes n with Some _ => true | None => false end.

(** Each of the three loops over a repetition count has a last pass: no
    count is above 2^53. *)
Definition countsBounded (cfg : Config) : bool :=
  hasLastPass (stakeRepetitions cfg) && hasLastPass (unstakeRepetitions cfg)
  && hasLastPass (claimRepetitions cfg).

(** Started with repetition counts that are bounded, [m] always settles,
    and relates the state it ends in to the state it started from by [R]. *)
Definition Keeps (R : State -> State -> Prop) {A} (m : M A) : Prop :=
  ∀ st, countsBounded (dailyActivityConfig st) = true ->
    (m st).1 ≠ Hang ∧ R st (m st).2.

(** Started with repetition counts that are bounded, [m] always returns,
    and relates the two states by [R]. *)
Definition Sure (R : State -> State -> Prop) {A} (m : M A) : Prop :=
  ∀ st, countsBounded (dailyActivityConfig st) = true ->
    (∃ a, (m st).1 = Ok a) ∧ R st (m st).2.

(** A relation that is a preorder, keeps the configuration, and does not
    look at the log, the clocks, the trace, the nonce tracker, the selected
    wallet and the flag of the sleep message. *)
Record Frame (R : State -> State -> Prop) : Prop := {
  frame_refl : ∀ st, R st st;
  frame_trans : ∀ st1 st2 st3, R st1 st2 -> R st2 st3 -> R st1 st3;
  frame_config : ∀ st st', R st st' -> dailyActivityConfig st' = dailyActivityConfig st;
  frame_transactionLogs : ∀ v st, R st (set_transactionLogs v st);
  frame_tick : ∀ v st, R st (set_tick v st);
  frame_draws : ∀ v st, R st (set_draws v st);
  frame_trace : ∀ v st, R st (set_trace v st);
  frame_nonceTracker : ∀ v st, R st (set_nonceTracker v st);
  frame_selectedWalletIndex : ∀ v st, R st (set_selectedWalletIndex v st)
}.

(** Besides what [unchanged] lists, the flags of the cycle and its timer
    are as before, and so is the count of pending sleeps unless it was
    negative. *)
Definition calm (st st' : State) : Prop :=
  unchanged st st'
  ∧ activityRunning st' = activityRunning st
  ∧ isCycleRunning st' = isCycleRunning st
  ∧ dailyActivityInterval st' = dailyActivityInterval st
  ∧ (0 <= activeProcesses st -> activeProcesses st' = activeProcesses st).

(** ** Saving the configuration *)

(** The files on disk, by path. *)
Abbreviation Files := (gmap string string).

(** [JSON.stringify], [fs.writeFileSync] (which may throw), [parseInt] and
    [parseFloat]. *)
Record Node : Type := {
  JSON_stringify : json -> string;
  writeFileSync : Files -> string -> string -> string + Files;
  parseInt : string -> number;
  parseFloat : string -> number
}.

(** A number as [JSON.stringify] sees it: [NaN] and the infinities become
    [null]. *)
Definition numberJson (n : number) : json :=
  match n with Fin q => JNum q | _ => JNull end.

Definition rangeJson (r : range) : json :=
  JObj [("min", numberJson (range_min r)); ("max", numberJson (range_max r))].

(** What comes back of a setting that went through [JSON.stringify] and
    then through [Number(..) || d]: the setting itself when it is finite
    and not zero, and the default [d] otherwise. *)
Definition reloaded (n d : number) : number :=
  match n with Fin _ => num_or n d | _ => d end.

(** A number that is finite and not zero. *)
Definition storable (n : number) : bool :=
  match n with Fin q => negb (Qeq_bool q 0) | _ => false end.

(** [dailyActivityConfig] as a JSON document. *)
Definition configJson (c : Config) : json :=
  JObj [("stakeRepetitions", numberJson (stakeRepetitions c));
        ("unstakeRepetitions", numberJson (unstakeRepetitions c));
        ("claimRepetitions", numberJson (claimRepetitions c));
        ("wethStakeRange", rangeJson (wethStakeRange c));
        ("exethUnstakeRange", rangeJson (exethUnstakeRange c));
        ("loopHours", numberJson (loopHours c))].

(** [saveConfig()], with the files passed along. *)
Definition saveConfig (N : Node) (files : Files) : M Files :=
  tryCatch
    (cfg ← gets dailyActivityConfig;
     files' ← call (writeFileSync N files CONFIG_FILE (JSON_stringify N (configJson cfg)));
     addLog "Configuration saved successfully." "success";;
     mret files')
    (λ error,
       addLog ("Failed to save config: " +:+ message error) "error";;
       mret files).

(** The world in which [fs] reads [files]. *)
Definition filesWorld (files : Files) (base : World) : World := {|
  read := read base;
  getFeeData := getFeeData base;
  sendTransaction := sendTransaction base;
  wait := wait base;
  random := random base;
  existsSync := λ path, bool_decide (is_Some (files !! path));
  readFileSync := λ path,
    match files !! path with
    | Some data => inr data
    | None => inl ("ENOENT: no such file or directory, open '" +:+ path +:+ "'")
    end
|}.

(** ** The forms *)

(** The four settings read with [parseInt]. *)
Definition isCountType (configType : string) : bool :=
  String.eqb configType "loopHours" || String.eqb configType "stakeRepetitions"
  || String.eqb configType "unstakeRepetitions"
  || String.eqb configType "claimRepetitions".

(** [["wethStakeRange", "exethUnstakeRange"].includes(configType)] *)
Definition isRangeType (configType : string) : bool :=
  String.eqb configType "wethStakeRange" || String.eqb configType "exethUnstakeRange".

(** The assignment that the configuration form makes once the input has
    passed the checks; it answers whether the form goes on to save. *)
Definition assignSetting (E : Ethers) (configType : string) (value maxValue : number)
    : M bool :=
  if String.eqb configType "stakeRepetitions" then
    setConfig (set_stakeRepetitions (num_floor value));;
    v ← config stakeRepetitions;
    addLog ("Stake Repetitions set to " +:+ numberToString E v) "success";;
    mret true
  else if String.eqb configType "unstakeRepetitions" then
    setConfig (set_unstakeRepetitions (num_floor value));;
    v ← config unstakeRepetitions;
    addLog ("Unstake Repetitions set to " +:+ numberToString E v) "success";;
    mret true
  else if String.eqb configType "claimRepetitions" then
    setConfig (set_claimRepetitions (num_floor value));;
    v ← config claimRepetitions;
    addLog ("Claim Repetitions set to " +:+ numberToString E v) "success";;
    mret true
  else if String.eqb configType "wethStakeRange" then
    if num_lt maxValue value then
      addLog "Min value cannot be greater than Max value." "error";;
      mret false
    else
      setConfig (λ c, set_wethStakeRange (set_range_min value (wethStakeRange c)) c);;
      setConfig (λ c, set_wethStakeRange (set_range_max maxValue (wethStakeRange c)) c);;
      addLog ("WETH Stake Range set to " +:+ numberToString E value +:+ " - " +:+
              numberToString E maxValue) "success";;
      mret true
  else if String.eqb configType "exethUnstakeRange" then
    if num_lt maxValue value then
      addLog "Min value cannot be greater than Max value." "error";;
      mret false
    else
      setConfig (λ c, set_exethUnstakeRange (set_range_min value (exethUnstakeRange c)) c);;
      setConfig (λ c, set_exethUnstakeRange (set_range_max maxValue (exethUnstakeRange c)) c);;
      addLog ("eXETH Unstake Range set to " +:+ numberToString E value +:+ " - " +:+
              numberToString E maxValue) "success";;
      mret true
  else if String.eqb configType "loopHours" then
    setConfig (set_loopHours value);;
    addLog ("Loop Daily set to " +:+ numberToString E value +:+ " hours") "success";;
    mret true
  else mret true.

(** [configForm.on("submit", ..)]. The flag [isSubmitting] and the files
    are passed along; the answer is the flag and the files afterwards. After
    a save the flag stays set until a timer clears it 100 ms later. The
    [catch] of the handler is left out: nothing in its [try] block throws. *)
Definition configFormSubmit (E : Ethers) (N : Node) (configType : string)
    (input inputMax : string) (isSubmitting : bool) (files : Files)
    : M (bool * Files) :=
  if isSubmitting then mret (true, files)
  else
    let inputValue := trim input in
    let value :=
      if isCountType configType then parseInt N inputValue
      else parseFloat N inputValue in
    let maxValue := parseFloat N (trim inputMax) in
    if isRangeType configType && (isNaN maxValue || num_le maxValue (Fin 0)) then
      addLog "Invalid Max value. Please enter a positive number." "error";;
      mret (false, files)
    else if isNaN value || num_le value (Fin 0) then
      addLog "Invalid input. Please enter a positive number." "error";;
      mret (false, files)
    else if String.eqb configType "loopHours" && num_lt value (Fin 1) then
      addLog "Invalid input. Minimum is 1 hour." "error";;
      mret (false, files)
    else
      go ← assignSetting E configType value maxValue;
      if go : bool then
        files' ← saveConfig N files;
        mret (true, files')
      else mret (false, files).

(** [amountForm.on("submit", ..)] for the swap named by [swapType]; the
    flag [isSubmitting] is passed along and answered. *)
Definition amountFormSubmit (E : Ethers) (W : World) (N : Node) (swapType : string)
    (input : string) (isSubmitting : bool) : M bool :=
  if isSubmitting then mret true
  else
    let amount := parseFloat N (trim input) in
    if isNaN amount || num_le amount (Fin 0) then
      addLog "Invalid amount. Please enter a positive number." "error";;
      mret false
    else
      index ← gets selectedWalletIndex;
      proxyUrl ← gets (λ st, if index <? 0 then None else proxyFor (proxies st) index);
      accs ← gets accounts;
      key ← match (if index <? 0 then None else accs !! Z.to_nat index) with
            | Some key => mret key
            | None =>
                throw (External "Cannot read properties of undefined (reading 'privateKey')")
            end;
      walletAddress ← call (walletAddress E key);
      let wallet := {| privateKey := key; address := walletAddress |} in
      tryCatch
        (match directions with
         | [] => throw (External "Cannot destructure property 'rpc' of 'direction'")
         | direction :: _ =>
             (if String.eqb swapType "wrap" then
                addLog ("Swapping " +:+ numberToString E amount +:+
                        " ETH to WETH for account " +:+ pretty (index + 1)) "warn";;
                performWrap E W wallet direction (toFixed4 (numberToString E) amount)
                  proxyUrl
              else
                addLog ("Swapping " +:+ numberToString E amount +:+
                        " WETH to ETH for account " +:+ pretty (index + 1)) "warn";;
                performUnwrap E W wallet direction (toFixed4 (numberToString E) amount)
                  proxyUrl);;
             updateWallets
         end)
        (λ error, addLog ("Swap failed: " +:+ message error) "error");;
      mret false.

(** What [parseInt] and [parseFloat] make of a few inputs. *)
Definition sampleNode : Node := {|
  JSON_stringify := λ _, "{}";
  writeFileSync := λ files path data, inr (<[path := data]> files);
  parseInt := λ s, if String.eqb s "3" then Fin 3 else if String.eqb s "0" then Fin 0 else NaN;
  parseFloat := λ s,
    if String.eqb s "0.00001" then Fin (1 # 100000)
    else if String.eqb s "0.5" then Fin (1 # 2)
    else if String.eqb s "-1" then Fin (-1)
    else if String.eqb s "Infinity" then Inf false
    else NaN
|}.

(** A library whose [JSON.parse] answers the default configuration. *)
Definition defaultsEthers : Ethers := {|
  isAddress := λ _, true;
  parseEther := λ _, inr 10000000000000000;
  formatEther := λ _, "0.0";
  walletAddress := λ key, inr key;
  newProxyAgent := λ _, inr tt;
  JSON_parse := λ _, inr (configJson defaultConfig);
  toNumberOther := λ _, NaN;
  numberToString := λ _, "1"
|}.

(** ** Configurations the form accepts *)

(** A whole number above zero, or [Infinity]. *)
Definition positiveCount (n : number) : Prop :=
  n = Inf false ∨ ∃ z, 0 < z ∧ n = of_Z z.

(** The lower end is above zero and does not exceed the upper end; either
    may be [Infinity], neither is [NaN]. *)
Definition positiveRange (r : range) : Prop :=
  num_lt (Fin 0) (range_min r) = true ∧ num_le (range_min r) (range_max r) = true.

(** Counts and hours are whole numbers above zero or [Infinity]; each
    range has a lower end above zero that does not exceed the upper end. *)
Definition validConfig (c : Config) : Prop :=
  positiveCount (stakeRepetitions c) ∧ positiveCount (unstakeRepetitions c)
  ∧ positiveCount (claimRepetitions c)
  ∧ positiveRange (wethStakeRange c) ∧ positiveRange (exethUnstakeRange c)
  ∧ positiveCount (loopHours c).

(** ** Further sample worlds and libraries *)

(** [k] reservations in a row for one wallet on one chain, as a loop of
    [await getNextNonce(provider, walletAddress, chainId)]. *)
Fixpoint reservations (E : Ethers) (W : World) (k : nat) (walletAddress : string)
    (chainId : Z) : M (list Z) :=
  match k with
  | O => mret []
  | S k' =>
      n ← getNextNonce E W walletAddress chainId;
      rest ← reservations E W k' walletAddress chainId;
      mret (n :: rest)
  end.

(** A library whose proxy agents cannot be constructed. *)
Definition noAgentEthers : Ethers := {|
  isAddress := λ _, true;
  parseEther := λ _, inr 10000000000000000;
  formatEther := λ _, "0.0";
  walletAddress := λ key, inr key;
  newProxyAgent := λ _, inl "Invalid URL";
  JSON_parse := λ _, inl "Unexpected token";
  toNumberOther := λ _, NaN;
  numberToString := λ _, "1"
|}.

(** [base] with every wait for a receipt ending as [w] says. *)
Definition settlingWorld (base : World) (w : Settle) : World := {|
  read := read base;
  getFeeData := getFeeData base;
  sendTransaction := sendTransaction base;
  wait := λ _ _, w;
  random := random base;
  existsSync := existsSync base;
  readFileSync := readFileSync base
|}.

(** Every setting of a configuration is finite and not zero. *)
Definition storableConfig (c : Config) : bool :=
  storable (stakeRepetitions c) && storable (unstakeRepetitions c)
  && storable (claimRepetitions c)
  && storable (range_min (wethStakeRange c)) && storable (range_max (wethStakeRange c))
  && storable (range_min (exethUnstakeRange c)) && storable (range_max (exethUnstakeRange c))
  && storable (loopHours c).

(** Every setting of a configuration is a number other than zero and [NaN]. *)
Definition truthyConfig (c : Config) : bool :=
  truthy (stakeRepetitions c) && truthy (unstakeRepetitions c)
  && truthy (claimRepetitions c)
  && truthy (range_min (wethStakeRange c)) && truthy (range_max (wethStakeRange c))
  && truthy (range_min (exethUnstakeRange c)) && truthy (range_max (exethUnstakeRange c))
  && truthy (loopHours c).

(** A file system holding a [pk.txt] of three lines, two of them keys, with
    Windows line ends and stray blanks. *)
Definition keysWorld : World := {|
  read := λ _ _, Resolved 0;
  getFeeData := λ _, Resolved sampleFeeData;
  sendTransaction := λ _ _ _, Resolved "0xhash00000000";
  wait := λ _ _, Settled 1000 (inr 1);
  random := λ _, 0%Q;
  existsSync := λ _, false;
  readFileSync := λ path,
    if String.eqb path "pk.txt"
    then inr (" key1" +:+ String (ascii_of_nat 13) (String newline
              (String newline ("key2  " +:+ String newline EmptyString))))
    else inl "ENOENT: no such file or directory"
|}.

(** A library that rejects the key "bad" and takes any other key for a
    wallet. *)
Definition strictEthers : Ethers := {|
  isAddress := λ _, true;
  parseEther := λ _, inr 10000000000000000;
  formatEther := λ _, "0.0";
  walletAddress := λ key,
    if String.eqb key "bad" then inl "invalid private key" else inr key;
  newProxyAgent := λ _, inr tt;
  JSON_parse := λ _, inl "Unexpected token";
  toNumberOther := λ _, NaN;
  numberToString := λ _, "1"
|}.

(** A chain whose node rejects every read. *)
Definition deafWorld : World := {|
  read := λ _ _, Rejected "request timeout";
  getFeeData := λ _, Rejected "request timeout";
  sendTransaction := λ _ _ _, Rejected "request timeout";
  wait := λ _ _, Never;
  random := λ _, 0%Q;
  existsSync := λ _, false;
  readFileSync := λ _, inl "ENOENT: no such file or directory"
|}.

(** ** The operations of a cycle *)

(** The operations entered, in order: the kind and the wallet of each. *)
Definition operations (evs : list Event) : list (OpKind * string) :=
  omap (λ e, match e with
             | EvPerform kind wallet _ => Some (kind, wallet)
             | _ => None
             end) evs.

(** The passes of the loop over the count [n], when it has a last one. *)
Definition passCount (n : number) : nat := default O (passes n).

(** The operations of one account in a cycle that is not stopped: the
    stakes, then the unstakes, then the claims, as many passes of each as
    its loop makes; none for an address the library does not accept. *)
Definition accountPlan (E : Ethers) (cfg : Config) (addr : string) : list (OpKind * string) :=
  if isAddress E addr then
    replicate (passCount (stakeRepetitions cfg)) (Stake, addr)
    ++ replicate (passCount (unstakeRepetitions cfg)) (Unstake, addr)
    ++ replicate (passCount (claimRepetitions cfg)) (Claim, addr)
  else [].

(** From [st] to [st'] the run left the variables of [unchanged] alone and
    entered the operations [ops]. *)
Definition went (st st' : State) (ops : list (OpKind * string)) : Prop :=
  unchanged st st' ∧ ∃ evs, trace st' = trace st ++ evs ∧ operations evs = ops.

(** A state with one key and a configuration of one and a half stake
    repetitions, one unstake repetition and no claim repetition. *)
Definition planState : State :=
  set_accounts ["key1"]
    (set_dailyActivityConfig
       {| stakeRepetitions := Fin (3 # 2); unstakeRepetitions := Fin 1;
          claimRepetitions := Fin 0;
          wethStakeRange := {| range_min := Fin (1 # 100); range_max := Fin (2 # 100) |};
          exethUnstakeRange := {| range_min := Fin (1 # 100); range_max := Fin (2 # 100) |};
          loopHours := Fin 24 |}
       initialState).

(** * Properties *)

(** ** Rules for running the monad *)

Lemma bind_run {A B} (m : M A) (f : A -> M B) st :
  (m ≫= f) st =
  match m st with
  | (Ok a, st') => f a st'
  | (Err e, st') => (Err e, st')
  | (Hang, st') => (Hang, st')
  end.
Proof. reflexivity. Qed.

Section Rules.

Context {A : Type}.
Implicit Types (Q : res A -> State -> Prop) (st : State).

Lemma wp_run (m : M A) st Q r st' : m st = (r, st') -> Q r st' -> wp m st Q.
Proof. unfold wp. intros ->. done. Qed.

Lemma wp_conseq (m : M A) st (Q Q' : res A -> State -> Prop) :
  wp m st Q -> (∀ r st', Q r st' -> Q' r st') -> wp m st Q'.
Proof. unfold wp. auto. Qed.

Lemma wp_ret (a : A) st Q : Q (Ok a) st -> wp (mret a) st Q.
Proof. done. Qed.

Lemma wp_throw e st Q : Q (Err e) st -> wp (throw e) st Q.
Proof. done. Qed.

Lemma wp_gets (f : State -> A) st Q : Q (Ok (f st)) st -> wp (gets f) st Q.
Proof. done. Qed.

Lemma wp_call (r : string + A) st Q :
  Q (match r with inl msg => Err (External msg) | inr a => Ok a end) st ->
  wp (call r) st Q.
Proof. done. Qed.

Lemma wp_bind {B} (m : M B) (f : B -> M A) st Q :
  wp m st (λ r st', match r with
                    | Ok b => wp (f b) st' Q
                    | Err e => Q (Err e) st'
                    | Hang => Q Hang st'
                    end) ->
  wp (m ≫= f) st Q.
Proof.
  unfold wp. rewrite bind_run. destruct (m st) as [[b|e|] st']; done.
Qed.

Lemma wp_tryCatch (body : M A) (handler : error -> M A) st Q :
  wp body st (λ r st', match r with
                       | Err e => wp (handler e) st' Q
                       | other => Q other st'
                       end) ->
  wp (tryCatch body handler) st Q.
Proof.
  unfold wp, tryCatch. destruct (body st) as [[a|e|] st']; done.
Qed.

Lemma wp_tryFinally (body : M A) (fin : M unit) st Q :
  wp body st (λ r st', match r with
                       | Hang => Q Hang st'
                       | other =>
                           wp fin st' (λ r' st'', match r' with
                                                  | Ok _ => Q other st''
                                                  | Err e => Q (Err e) st''
                                                  | Hang => Q Hang st''
                                                  end)
                       end) ->
  wp (tryFinally body fin) st Q.
Proof.
  unfold wp, tryFinally. destruct (body st) as [[a|e|] st']; simpl; [| |done].
  - destruct (fin st') as [[[]|e'|] st'']; done.
  - destruct (fin st') as [[[]|e'|] st'']; done.
Qed.

End Rules.

Section UnitRules.

Implicit Types (Q : res unit -> State -> Prop) (st : State).

Lemma wp_modify (f : State -> State) st Q : Q (Ok tt) (f st) -> wp (modify f) st Q.
Proof. done. Qed.

Lemma wp_emit e st Q : Q (Ok tt) (set_trace (trace st ++ [e]) st) -> wp (emit e) st Q.
Proof. done. Qed.

Lemma wp_addLog msg type st Q :
  Q (Ok tt) (if (String.eqb type "debug" && negb isDebug)%bool then st
             else set_transactionLogs (transactionLogs st ++ [(type, msg)]) st) ->
  wp (addLog msg type) st Q.
Proof. unfold wp, addLog. destruct (String.eqb type "debug" && negb isDebug)%bool; done. Qed.

End UnitRules.

Lemma wp_suspend st (Q : res nat -> State -> Prop) :
  Q (Ok (tick st)) (set_tick (S (tick st)) st) -> wp suspend st Q.
Proof. done. Qed.

Lemma wp_mathRandom W st (Q : res Q -> State -> Prop) :
  Q (Ok (random W (draws st))) (set_draws (S (draws st)) st) -> wp (mathRandom W) st Q.
Proof. done. Qed.

Section AwaitRules.

Context (W : World).

Lemma wp_ask q st (Q : res Z -> State -> Prop) :
  Q (settle (read W (tick st) q))
    (set_trace (trace st ++ [EvRead q]) (set_tick (S (tick st)) st)) ->
  wp (ask W q) st Q.
Proof. done. Qed.

Lemma wp_askFeeData st (Q : res FeeData -> State -> Prop) :
  Q (settle (getFeeData W (tick st)))
    (set_trace (trace st ++ [EvRead QFeeData]) (set_tick (S (tick st)) st)) ->
  wp (askFeeData W) st Q.
Proof. done. Qed.

Lemma wp_send from tx st (Q : res string -> State -> Prop) :
  Q (settle (sendTransaction W (tick st) from tx))
    (set_trace (trace st ++ [EvSend from tx]) (set_tick (S (tick st)) st)) ->
  wp (send W from tx) st Q.
Proof. done. Qed.

Lemma wp_waitReceipt hash st (Q : res Z -> State -> Prop) :
  Q (match wait W (tick st) hash with
     | Settled _ (inr status) => Ok status
     | Settled _ (inl msg) => Err (External msg)
     | Never => Hang
     end)
    (set_trace (trace st ++ [EvWait hash]) (set_tick (S (tick st)) st)) ->
  wp (waitReceipt W hash) st Q.
Proof. done. Qed.

Lemma wp_waitReceiptRace hash limit st (Q : res Z -> State -> Prop) :
  Q (match wait W (tick st) hash with
     | Settled ms r =>
         if ms <? limit
         then match r with inr status => Ok status | inl msg => Err (External msg) end
         else Err (Thrown "Transaction confirmation timed out")
     | Never => Err (Thrown "Transaction confirmation timed out")
     end)
    (set_trace (trace st ++ [EvWait hash]) (set_tick (S (tick st)) st)) ->
  wp (waitReceiptRace W hash limit) st Q.
Proof. done. Qed.

End AwaitRules.

(** ** NonceTracker *)

Section NonceTracker.

Context (E : Ethers) (W : World).

(** The run of [getNextNonce] when it is let through and the chain answers. *)
Lemma getNextNonce_ok walletAddress chainId st pendingNonce :
  shouldStop st = false ->
  isAddress E walletAddress = true ->
  read W (tick st) (QTransactionCount walletAddress) = Resolved pendingNonce ->
  getNextNonce E W walletAddress chainId st =
    (Ok (nextNonceOf (nonceTracker st !! nonceKey chainId walletAddress) pendingNonce),
     set_nonceTracker
       (<[nonceKey chainId walletAddress :=
            nextNonceOf (nonceTracker st !! nonceKey chainId walletAddress) pendingNonce]>
          (nonceTracker st))
       (set_trace (trace st ++ [EvRead (QTransactionCount walletAddress)])
          (set_tick (S (tick st)) st))).
Proof.
  intros Hstop Haddr Hread.
  unfold getNextNonce, mbind, M_bind, gets, tryCatch, ask, modify, addLog, mret, M_ret.
  rewrite Hstop, Haddr. simpl. rewrite Hread. reflexivity.
Qed.

(** What a successful call tells about the state it started from. *)
Lemma getNextNonce_Ok_inv walletAddress chainId st n st' :
  getNextNonce E W walletAddress chainId st = (Ok n, st') ->
  shouldStop st = false ∧ isAddress E walletAddress = true
  ∧ ∃ pendingNonce,
      read W (tick st) (QTransactionCount walletAddress) = Resolved pendingNonce.
Proof.
  unfold getNextNonce, mbind, M_bind, gets, tryCatch, ask, modify, addLog, throw, mret, M_ret.
  destruct (shouldStop st); simpl; [discriminate|].
  destruct (isAddress E walletAddress); simpl; [|discriminate].
  destruct (read W (tick st) (QTransactionCount walletAddress)); simpl;
    [eauto|discriminate|discriminate].
Qed.

(** With a recorded entry other than [0n], the value handed out is the
    larger of the pending count and the entry plus one. *)
Lemma nextNonceOf_max last pendingNonce :
  last ≠ 0 -> nextNonceOf (Some last) pendingNonce = Z.max pendingNonce (last + 1).
Proof.
  intros Hne. unfold nextNonceOf, bigint_or.
  destruct (Z.eqb_spec last 0) as [|_]; [contradiction|].
  destruct (Z.ltb_spec (last + 1) pendingNonce); lia.
Qed.

(** Without an entry the pending count itself is handed out. *)
Lemma nextNonceOf_fresh pendingNonce : nextNonceOf None pendingNonce = pendingNonce.
Proof.
  unfold nextNonceOf, bigint_or.
  destruct (Z.ltb_spec (pendingNonce - 1 + 1) pendingNonce); lia.
Qed.

(** Two calls in a row, the first handing out a nonce other than zero: the
    second hands out the next one, unless the chain has moved further. *)
Lemma getNextNonce_sequential walletAddress chainId st n1 st1 pending2 :
  getNextNonce E W walletAddress chainId st = (Ok n1, st1) ->
  read W (tick st1) (QTransactionCount walletAddress) = Resolved pending2 ->
  n1 ≠ 0 -> pending2 <= n1 + 1 ->
  ∃ st2, getNextNonce E W walletAddress chainId st1 = (Ok (n1 + 1), st2)
         ∧ nonceTracker st2 !! nonceKey chainId walletAddress = Some (n1 + 1).
Proof.
  intros H1 Hread Hne Hle.
  destruct (getNextNonce_Ok_inv _ _ _ _ _ H1) as (Hstop & Haddr & p1 & Hr1).
  rewrite (getNextNonce_ok _ chainId _ _ Hstop Haddr Hr1) in H1.
  injection H1 as Hn Hst. subst st1. simpl in Hread.
  rewrite (getNextNonce_ok _ chainId _ pending2); [|done|done|done].
  simpl nonceTracker. rewrite Hn, lookup_insert_eq.
  rewrite nextNonceOf_max by done. rewrite Z.max_r by lia.
  eexists. split; [reflexivity|]. simpl. apply lookup_insert_eq.
Qed.

(** C1. Two calls in a row on a fresh wallet whose pending count stays 0:
    the first hands out nonce 0 and records it, and the second hands out
    nonce 0 again, because the recorded [0n] is falsy in
    [nonceTracker[nonceKey] || (pendingNonce - 1n)]. *)
Theorem getNextNonce_repeats_nonce_zero walletAddress chainId st :
  shouldStop st = false ->
  isAddress E walletAddress = true ->
  nonceTracker st !! nonceKey chainId walletAddress = None ->
  read W (tick st) (QTransactionCount walletAddress) = Resolved 0 ->
  read W (S (tick st)) (QTransactionCount walletAddress) = Resolved 0 ->
  ∃ st1 st2,
    getNextNonce E W walletAddress chainId st = (Ok 0, st1)
    ∧ nonceTracker st1 !! nonceKey chainId walletAddress = Some 0
    ∧ getNextNonce E W walletAddress chainId st1 = (Ok 0, st2).
Proof.
  intros Hstop Haddr Hnone Hr1 Hr2.
  do 2 eexists. split; [|split].
  - rewrite (getNextNonce_ok _ chainId _ 0 Hstop Haddr Hr1).
    rewrite Hnone. reflexivity.
  - simpl. apply lookup_insert_eq.
  - rewrite (getNextNonce_ok _ chainId _ 0); [|done|done|done].
    simpl. rewrite lookup_insert_eq. reflexivity.
Qed.

End NonceTracker.

Lemma getNextNonce_repeats_nonce_zero_witness :
  ∃ st1 st2,
    getNextNonce laxEthers (constWorld 0) "0xab" 17000 initialState = (Ok 0, st1)
    ∧ nonceTracker st1 !! nonceKey 17000 "0xab" = Some 0
    ∧ getNextNonce laxEthers (constWorld 0) "0xab" 17000 st1 = (Ok 0, st2).
Proof.
  apply (getNextNonce_repeats_nonce_zero laxEthers (constWorld 0) "0xab" 17000 initialState);
    reflexivity.
Defined.

(** ** FeeEstimator *)

(** What [getFeeParams] makes of a fee-data answer. *)
Lemma getFeeParams_run W st :
  getFeeParams W st =
  (match getFeeData W (tick st) with
   | Resolved fd => Ok (feeParamsOf fd)
   | Rejected _ => Ok (FeeLegacy one_gwei)
   | Pending => Hang
   end,
   set_trace (trace st ++ [EvRead QFeeData]) (set_tick (S (tick st)) st)).
Proof.
  unfold getFeeParams, feeParamsOf, tryCatch, askFeeData, mbind, M_bind, mret, M_ret.
  destruct (getFeeData W (tick st)) as [fd|e|]; try reflexivity.
  destruct fd as [gp [mf|] [mp|]]; simpl; try reflexivity.
  all: repeat match goal with |- context [?x =? 0] => destruct (x =? 0) end; reflexivity.
Qed.

(** The parameters derived always carry a fee to multiply with. *)
Lemma gasFeeOf_feeParamsOf fd : ∃ fee, gasFeeOf (feeParamsOf fd) = Some fee.
Proof.
  unfold feeParamsOf.
  destruct (bigint_truthy (fd_maxFeePerGas fd) && bigint_truthy (fd_maxPriorityFeePerGas fd));
    simpl; [eauto|].
  unfold bigint_or. destruct (fd_gasPrice fd) as [g|]; [|simpl; eauto].
  destruct (Z.eqb_spec g 0) as [|Hg]; [simpl; eauto|].
  apply Z.eqb_neq in Hg. rewrite Hg. eauto.
Qed.

(** C5, as stated, fails: fee data that reports both a maximum fee and a
    maximum priority fee, the latter being [0n], yields legacy (type 0)
    parameters with the reported gas price, not dynamic ones. *)
Lemma getFeeParams_zero_priority_fee_is_legacy :
  getFeeData zeroTipWorld (tick initialState) = Resolved zeroTipFeeData
  ∧ fd_maxFeePerGas zeroTipFeeData = Some 1000
  ∧ fd_maxPriorityFeePerGas zeroTipFeeData = Some 0
  ∧ (getFeeParams zeroTipWorld initialState).1 = Ok (FeeLegacy 7)
  ∧ fee_type (FeeLegacy 7) = 0.
Proof. repeat split. Qed.

(** C5, amended. [getFeeParams] never rejects. When the query succeeds
    with a maximum fee and a maximum priority fee that are both present and
    not zero, the result is the dynamic (type 2) pair; when it succeeds
    otherwise, the result is legacy (type 0) with the reported gas price if
    that is present and not zero, and 1 gwei if not; when the query fails,
    the result is legacy with 1 gwei. *)
Theorem getFeeParams_never_rejects W st :
  (∀ e, (getFeeParams W st).1 ≠ Err e)
  ∧ (getFeeParams W st).1 =
      match getFeeData W (tick st) with
      | Resolved fd =>
          match fd_maxFeePerGas fd, fd_maxPriorityFeePerGas fd with
          | Some maxFee, Some maxPriority =>
              if decide (maxFee ≠ 0 ∧ maxPriority ≠ 0)
              then Ok (FeeDynamic maxFee maxPriority)
              else Ok (FeeLegacy (match fd_gasPrice fd with
                                  | Some price => if decide (price = 0) then one_gwei else price
                                  | None => one_gwei
                                  end))
          | _, _ => Ok (FeeLegacy (match fd_gasPrice fd with
                                   | Some price => if decide (price = 0) then one_gwei else price
                                   | None => one_gwei
                                   end))
          end
      | Rejected _ => Ok (FeeLegacy one_gwei)
      | Pending => Hang
      end.
Proof.
  rewrite getFeeParams_run. unfold feeParamsOf. simpl. split.
  - intros e. destruct (getFeeData W (tick st)); discriminate.
  - destruct (getFeeData W (tick st)) as [fd|e|]; try reflexivity.
    assert (Hgp : bigint_or (fd_gasPrice fd) one_gwei =
                  match fd_gasPrice fd with
                  | Some price => if decide (price = 0) then one_gwei else price
                  | None => one_gwei
                  end).
    { unfold bigint_or. destruct (fd_gasPrice fd) as [g|]; [|reflexivity].
      destruct (Z.eqb_spec g 0); destruct (decide (g = 0)); congruence. }
    rewrite <- Hgp.
    destruct (fd_maxFeePerGas fd) as [mf|], (fd_maxPriorityFeePerGas fd) as [mp|];
      simpl; try reflexivity.
    + destruct (Z.eqb_spec mf 0), (Z.eqb_spec mp 0);
        destruct (decide (mf ≠ 0 ∧ mp ≠ 0)) as [[? ?]|Hn]; simpl;
        try reflexivity; try congruence.
      exfalso. apply Hn. split; assumption.
    + destruct (mf =? 0); reflexivity.
Qed.

(** ** Tactics *)

(** Projections out of updated states. *)
Ltac st_simpl :=
  cbn [transactionLogs activityRunning isCycleRunning shouldStop dailyActivityInterval
       accounts proxies selectedWalletIndex nonceTracker hasLoggedSleepInterrupt
       activeProcesses dailyActivityConfig process tick draws trace
       set_transactionLogs set_activityRunning set_isCycleRunning set_shouldStop
       set_dailyActivityInterval set_accounts set_proxies set_selectedWalletIndex
       set_nonceTracker set_hasLoggedSleepInterrupt set_activeProcesses
       set_dailyActivityConfig set_process set_tick set_draws set_trace
       settle message fst snd negb andb orb isDebug String.eqb Ascii.eqb Bool.eqb].

(** Use what is known about [x], compute it when it is closed, or split
    on it. *)
Ltac know x :=
  match goal with
  | H : x = _ |- _ => rewrite H
  | H : ?l = _ |- _ => match x with context [l] => rewrite H end
  | H : ∀ _, _ |- _ => rewrite H by assumption
  | _ => assert_fails (idtac; match x with context [?v] => is_var v end);
         let v := eval vm_compute in x in change x with v
  | _ => lazymatch x with context [length _] => idtac end;
         let v := eval cbv in x in
         lazymatch v with true => idtac | false => idtac end;
         change x with v
  | _ => destruct x eqn:?
  end.

(** The innermost term a nest of matches waits for. *)
Ltac scrutinee x k :=
  lazymatch x with
  | match ?y with _ => _ end => scrutinee y k
  | settle ?y => scrutinee y k
  | negb ?y => scrutinee y k
  | andb ?y _ => scrutinee y k
  | orb ?y _ => scrutinee y k
  | _ => k x
  end.

(** Turn the recorded outcomes of comparisons into inequalities. *)
Ltac z_facts :=
  repeat match goal with
  | H : (_ <? _) = true |- _ => apply Z.ltb_lt in H
  | H : (_ <? _) = false |- _ => apply Z.ltb_ge in H
  | H : (_ <=? _) = true |- _ => apply Z.leb_le in H
  | H : (_ <=? _) = false |- _ => apply Z.leb_gt in H
  | H : (_ >? _) = true |- _ => rewrite Z.gtb_ltb in H; apply Z.ltb_lt in H
  | H : (_ >? _) = false |- _ => rewrite Z.gtb_ltb in H; apply Z.ltb_ge in H
  | H : (_ >=? _) = true |- _ => rewrite Z.geb_leb in H; apply Z.leb_le in H
  | H : (_ >=? _) = false |- _ => rewrite Z.geb_leb in H; apply Z.leb_gt in H
  | H : (_ =? _) = true |- _ => apply Z.eqb_eq in H
  | H : (_ =? _) = false |- _ => apply Z.eqb_neq in H
  end.

(** One step of a run. *)
Ltac wp_step :=
  lazymatch goal with
  | |- wp (_ ≫= _) _ _ => apply wp_bind
  | |- wp (mret _) _ _ => apply wp_ret
  | |- wp (throw _) _ _ => apply wp_throw
  | |- wp (gets _) _ _ => apply wp_gets
  | |- wp (config _) _ _ => apply wp_gets
  | |- wp (modify _) _ _ => apply wp_modify
  | |- wp (setConfig _) _ _ => apply wp_modify
  | |- wp (emit _) _ _ => apply wp_emit
  | |- wp (addLog _ _) _ _ => apply wp_addLog
  | |- wp (call _) _ _ => apply wp_call
  | |- wp suspend _ _ => apply wp_suspend
  | |- wp (mathRandom _) _ _ => apply wp_mathRandom
  | |- wp (ask _ _) _ _ => apply wp_ask
  | |- wp (askFeeData _) _ _ => apply wp_askFeeData
  | |- wp (send _ _ _) _ _ => apply wp_send
  | |- wp (waitReceipt _ _) _ _ => apply wp_waitReceipt
  | |- wp (waitReceiptRace _ _ _) _ _ => apply wp_waitReceiptRace
  | |- wp (getFeeParams _) _ _ => eapply wp_run; [apply getFeeParams_run|]
  | |- wp (tryCatch _ _) _ _ => apply wp_tryCatch
  | |- wp (tryFinally _ _) _ _ => apply wp_tryFinally
  | |- wp (when _ _) _ _ => unfold when
  | |- wp (if ?b then _ else _) _ _ => scrutinee b ltac:(fun y => know y)
  | |- wp (match ?x with _ => _ end) _ _ => scrutinee x ltac:(fun y => know y)
  | |- match ?x with _ => _ end =>
      lazymatch type of x with
      | res _ => idtac
      | answer _ => idtac
      | Settle => idtac
      | sum _ _ => idtac
      | bool => idtac
      end; scrutinee x ltac:(fun y => know y)
  end.

Ltac wp_go := repeat (st_simpl; wp_step); st_simpl.

(** ** TokenApprover *)

(** C4. With the allowance read answering [allowance]: when it covers the
    amount, [approveToken] returns at once and sends nothing; when it does
    not, at most one transaction is sent, any transaction sent is an
    [approve(spender, amountWei)] on the token with gas limit 100000 and
    value 0, and exactly one is sent once the nonce is reserved (no stop
    requested, a valid address, the fee query settling and the pending
    count answered). *)
Theorem approveToken_submissions E W wallet token spender amountWei st allowance :
  read W (tick st) (QAllowance token (address wallet) spender) = Resolved allowance ->
  wp (approveToken E W wallet token spender amountWei) st (λ r st',
    ∃ evs, trace st' = trace st ++ evs
    ∧ (amountWei <= allowance -> r = Ok tt ∧ sentTxs evs = [])
    ∧ (allowance < amountWei ->
         (length (sentTxs evs) <= 1)%nat
         ∧ (∀ sender tx, (sender, tx) ∈ sentTxs evs ->
              sender = address wallet ∧ tx_to tx = token
              ∧ tx_data tx = CallApprove spender amountWei
              ∧ tx_value tx = 0 ∧ tx_gasLimit tx = 100000)
         ∧ (shouldStop st = false ->
            isAddress E (address wallet) = true ->
            getFeeData W (S (tick st)) ≠ Pending ->
            (∃ pending, read W (S (S (tick st))) (QTransactionCount (address wallet))
                        = Resolved pending) ->
            length (sentTxs evs) = 1%nat))).
Proof.
  intros Hallow.
  unfold approveToken, getNextNonce.
  wp_go.
  all: destruct (Z.geb_spec allowance amountWei); try discriminate.
  all: rewrite <- ?app_assoc; eexists; (split; [reflexivity|]).
  all: simpl.
  all: split; [first [done | lia]|]; intros Hlt; try lia.
  all: split; [lia|].
  all: split; [intros sender tx Hin;
               first [ by apply elem_of_nil in Hin
                     | apply list_elem_of_singleton in Hin; injection Hin as -> ->; done ]|].
  all: try (intros _ _ _ _; reflexivity).
  all: intros H1 H2 H3 [p H4].
  all: try discriminate; try congruence.
  all: rewrite H2 in *; discriminate.
Qed.

Lemma approveToken_submissions_witness :
  wp (approveToken laxEthers (constWorld 0) {| privateKey := "k"; address := "0xAb" |}
        WETH_ADDRESS STAKE_CONTRACT_ADDRESS 5) initialState (λ r st',
    ∃ evs, trace st' = trace initialState ++ evs
    ∧ (5 <= 0 -> r = Ok tt ∧ sentTxs evs = [])
    ∧ (0 < 5 ->
         (length (sentTxs evs) <= 1)%nat
         ∧ (∀ sender tx, (sender, tx) ∈ sentTxs evs ->
              sender = "0xAb" ∧ tx_to tx = WETH_ADDRESS
              ∧ tx_data tx = CallApprove STAKE_CONTRACT_ADDRESS 5
              ∧ tx_value tx = 0 ∧ tx_gasLimit tx = 100000)
         ∧ (shouldStop initialState = false ->
            isAddress laxEthers "0xAb" = true ->
            getFeeData (constWorld 0) 1 ≠ Pending ->
            (∃ pending, read (constWorld 0) 2 (QTransactionCount "0xAb") = Resolved pending) ->
            length (sentTxs evs) = 1%nat))).
Proof.
  apply (approveToken_submissions laxEthers (constWorld 0)
           {| privateKey := "k"; address := "0xAb" |} WETH_ADDRESS STAKE_CONTRACT_ADDRESS
           5 initialState 0).
  reflexivity.
Defined.

(** ** TransactionExecutor: a rejected broadcast *)

(** The [catch] block around the reservation and the broadcast, the same
    in the five operations: it drops the tracker entry of the key when the
    message contains "nonce", leaves the tracker alone when it does not,
    and throws the same error again. *)
Lemma onSendError_run {A} chainId addr e st :
  wp (onSendError (A := A) chainId addr e) st (λ r st',
    r = Err e
    ∧ nonceTracker st' =
        (if includes "nonce" (message e)
         then delete (nonceKey chainId addr) (nonceTracker st)
         else nonceTracker st)
    ∧ trace st' = trace st).
Proof. unfold onSendError. wp_go; done. Qed.

Section StakeBroadcast.

Context (E : Ethers) (W : World).
Context (wallet : Wallet) (direction : direction) (amount : string)
        (proxyUrl : option string) (st : State).
Context (amountWei wethBalance allowance ethBalance pending gasFee : Z)
        (fd : FeeData) (msg : string).

Let addr := toLowerCase (address wallet).
Let key := nonceKey (chainId direction) addr.

(** The operation gets as far as the broadcast ... *)
Hypothesis Hagent : createAgent E proxyUrl = inr tt.
Hypothesis Hparse : parseEther E amount = inr amountWei.
Hypothesis Hweth : ∀ t, read W t (QBalanceOf WETH_ADDRESS addr) = Resolved wethBalance.
Hypothesis Hallow :
  ∀ t, read W t (QAllowance WETH_ADDRESS (address wallet) STAKE_CONTRACT_ADDRESS)
       = Resolved allowance.
Hypothesis Hfee : ∀ t, getFeeData W t = Resolved fd.
Hypothesis HgasFee : gasFeeOf (feeParamsOf fd) = Some gasFee.
Hypothesis Heth : ∀ t, read W t (QGetBalance addr) = Resolved ethBalance.
Hypothesis Hpending : ∀ t, read W t (QTransactionCount addr) = Resolved pending.
Hypothesis Hstop : shouldStop st = false.
Hypothesis Haddr : isAddress E addr = true.
Hypothesis Hbal : amountWei <= wethBalance.
Hypothesis Hall : amountWei <= allowance.
Hypothesis Hgas : gasFee * 650000 <= ethBalance.
(** ... and the broadcast is rejected with [msg]. *)
Hypothesis Hsend : ∀ t tx, sendTransaction W t (address wallet) tx = Rejected msg.

(** The broadcast of the stake itself. The error of the rejected
    broadcast reaches the caller of [performStake]. When its text contains
    "nonce", the tracker entry of the wallet's key is gone afterwards; when
    it does not, the entry is left as the reservation made it. Entries
    under other keys are as before. *)
Lemma performStake_broadcast_failure :
  0 <= amountWei <= MAX_UINT256 ->
  wp (performStake E W wallet direction amount proxyUrl) st (λ r st',
    r = Err (External msg)
    ∧ nonceTracker st' !! key =
        (if includes "nonce" msg then None
         else Some (nextNonceOf (nonceTracker st !! key) pending))
    ∧ ∀ other, other ≠ key -> nonceTracker st' !! other = nonceTracker st !! other).
Proof.
  intros Hrange.
  unfold performStake, getProvider, getProviderFrom, approveToken, estimateGasCost,
    getNextNonce, onSendError.
  fold addr. fold key.
  wp_go.
  all: try (exfalso; z_facts; lia).
  - split; [done|]. split; [apply lookup_delete_eq|].
    intros other Hne. by rewrite lookup_delete_ne, lookup_insert_ne.
  - split; [done|]. split; [apply lookup_insert_eq|].
    intros other Hne. by rewrite lookup_insert_ne.
Qed.

End StakeBroadcast.

(** A broadcast rejected with "nonce too low" leaves no entry behind. *)
Lemma performStake_broadcast_failure_witness :
  wp (performStake laxEthers
        (sampleWorld 20000000000000000 20000000000000000 20000000000000000
           (Rejected "nonce too low"))
        sampleWallet holesky "0.0100" None) initialState (λ r st',
    r = Err (External "nonce too low")
    ∧ nonceTracker st' !! nonceKey 17000 "0xab" = None).
Proof.
  eapply wp_conseq.
  - apply (performStake_broadcast_failure laxEthers
             (sampleWorld 20000000000000000 20000000000000000 20000000000000000
                (Rejected "nonce too low"))
             sampleWallet holesky "0.0100" None initialState
             10000000000000000 20000000000000000 20000000000000000 20000000000000000
             5 7 sampleFeeData "nonce too low");
      first [reflexivity | lia | intros; reflexivity | by vm_compute].
  - intros r st' (Hr & Hkey & _). split; [exact Hr|exact Hkey].
Defined.

(** ** TransactionExecutor: a rejected broadcast of the approval *)

Section ApprovalBroadcast.

Context (E : Ethers) (W : World).
Context (wallet : Wallet) (direction : direction) (amount : string)
        (proxyUrl : option string) (st : State).
Context (amountWei wethBalance allowance pending : Z) (msg : string).

Let addr := toLowerCase (address wallet).
Let approvalKey := nonceKey HOLESKY_CHAIN_ID (address wallet).

(** The stake needs an approval and gets as far as its broadcast ... *)
Hypothesis Hagent : createAgent E proxyUrl = inr tt.
Hypothesis Hparse : parseEther E amount = inr amountWei.
Hypothesis Hweth : ∀ t, read W t (QBalanceOf WETH_ADDRESS addr) = Resolved wethBalance.
Hypothesis Hallow :
  ∀ t, read W t (QAllowance WETH_ADDRESS (address wallet) STAKE_CONTRACT_ADDRESS)
       = Resolved allowance.
Hypothesis Hfee : ∀ t, getFeeData W t ≠ Pending.
Hypothesis Hpending :
  ∀ t, read W t (QTransactionCount (address wallet)) = Resolved pending.
Hypothesis Hstop : shouldStop st = false.
Hypothesis Haddr : isAddress E (address wallet) = true.
Hypothesis Hbal : amountWei <= wethBalance.
Hypothesis Hshort : allowance < amountWei.
(** ... which is rejected with [msg]. *)
Hypothesis Hsend : ∀ t tx, sendTransaction W t (address wallet) tx = Rejected msg.

(** C2, where the code departs from it. When the broadcast that fails is
    the one of the approval inside a stake, the error reaches the caller of
    [performStake], but the tracker entry reserved for the approval stays
    as the reservation made it, whatever the text of the error says, also
    when it mentions a nonce; the entries under other keys are as before,
    nothing is logged, and the approval is the only broadcast attempted. *)
Theorem performStake_approval_broadcast_failure :
  0 <= amountWei <= MAX_UINT256 ->
  wp (performStake E W wallet direction amount proxyUrl) st (λ r st',
    r = Err (External msg)
    ∧ nonceTracker st' !! approvalKey
        = Some (nextNonceOf (nonceTracker st !! approvalKey) pending)
    ∧ (∀ other, other ≠ approvalKey ->
         nonceTracker st' !! other = nonceTracker st !! other)
    ∧ transactionLogs st' = transactionLogs st
    ∧ ∃ evs tx, trace st' = trace st ++ evs
        ∧ sentTxs evs = [(address wallet, tx)]
        ∧ tx_data tx = CallApprove STAKE_CONTRACT_ADDRESS amountWei).
Proof.
  intros Hrange.
  unfold performStake, getProvider, getProviderFrom, approveToken, getNextNonce.
  fold addr. fold approvalKey.
  wp_go.
  all: try (exfalso; z_facts; lia).
  all: try (exfalso; by eapply Hfee).
  all: split; [done|]; split; [apply lookup_insert_eq|].
  all: split; [intros other Hne; by rewrite lookup_insert_ne|].
  all: split; [done|].
  all: rewrite <- ?app_assoc; do 2 eexists; split; [reflexivity|]; simpl; done.
Qed.

End ApprovalBroadcast.

(** A stake of 0.01 WETH with no allowance yet, on a chain that rejects
    the approval with "nonce too low": the nonce 5 reserved for the
    approval stays in the tracker and nothing is logged. *)
Lemma performStake_approval_broadcast_failure_witness :
  wp (performStake laxEthers
        (sampleWorld 0 20000000000000000 20000000000000000 (Rejected "nonce too low"))
        sampleWallet holesky "0.0100" None) initialState (λ r st',
    r = Err (External "nonce too low")
    ∧ includes "nonce" "nonce too low" = true
    ∧ nonceTracker st' !! nonceKey 17000 "0xAb" = Some 5
    ∧ transactionLogs st' = []).
Proof.
  eapply wp_conseq.
  - apply (performStake_approval_broadcast_failure laxEthers
             (sampleWorld 0 20000000000000000 20000000000000000 (Rejected "nonce too low"))
             sampleWallet holesky "0.0100" None initialState
             10000000000000000 20000000000000000 0 5 "nonce too low");
      first [reflexivity | lia | discriminate | intros; reflexivity | by vm_compute].
  - intros r st' (Hr & Hkey & _ & Hlog & _).
    split; [exact Hr|]. split; [reflexivity|]. split; [exact Hkey|exact Hlog].
Defined.

(** ** PreconditionChecker: the balance checks of the five operations *)

Section Checks.

Context (E : Ethers) (W : World).
Context (wallet : Wallet) (direction : direction) (amount : string)
        (proxyUrl : option string) (st : State).
Context (amountWei allowance nativeBalance pending gasFee : Z)
        (tokenBalance : string -> Z) (fd : FeeData).
Context (count createdAt coolDown now : Z).

Let addr := toLowerCase (address wallet).

(** Everything but the balances lets the operation through: the provider
    is set up, the amount parses, the allowance covers it, the fee data and
    the pending count are answered, no stop is requested, and for the claim
    a request is outstanding and past its cool-down. *)
Hypothesis Hagent : createAgent E proxyUrl = inr tt.
Hypothesis Hparse : parseEther E amount = inr amountWei.
Hypothesis Htoken : ∀ t token, read W t (QBalanceOf token addr) = Resolved (tokenBalance token).
Hypothesis Hnative : ∀ t, read W t (QGetBalance addr) = Resolved nativeBalance.
Hypothesis Hallow :
  ∀ t token spender, read W t (QAllowance token (address wallet) spender) = Resolved allowance.
Hypothesis Hall : amountWei <= allowance.
Hypothesis Hfee : ∀ t, getFeeData W t = Resolved fd.
Hypothesis HgasFee : gasFeeOf (feeParamsOf fd) = Some gasFee.
Hypothesis Hpending : ∀ t, read W t (QTransactionCount addr) = Resolved pending.
Hypothesis Hstop : shouldStop st = false.
Hypothesis Haddr : isAddress E addr = true.
Hypothesis Hcount : ∀ t, read W t (QOutstandingWithdrawRequests addr) = Resolved count.
Hypothesis HcreatedAt : ∀ t, read W t (QWithdrawRequestCreatedAt addr 0) = Resolved createdAt.
Hypothesis HcoolDown : ∀ t, read W t QCoolDownPeriod = Resolved coolDown.
Hypothesis Hnow : ∀ t, read W t QLatestBlockTimestamp = Resolved now.
Hypothesis Hsome : count ≠ 0.
Hypothesis Hready : createdAt + coolDown <= now.

Ltac leaf :=
  rewrite <- ?app_assoc; eexists; (split; [reflexivity|]); simpl;
  z_facts;
  repeat match goal with
  | |- context [decide ?P] => destruct (decide P); try lia
  end;
  first [ done | eexists; done ].

Ltac checks :=
  unfold getProvider, getProviderFrom, approveToken, estimateGasCost,
    getNextNonce, onSendError;
  fold addr; wp_go; try (exfalso; z_facts; lia); leaf.

(** C6. For an amount that fits a [uint256], as the call data of the
    operations require, each balance check rejects when the balance is
    strictly below what is required and lets the operation through to its
    broadcast when the balance equals or exceeds it. The token balance is
    required to reach the amount (Stake, Unstake, Unwrap); the native
    balance is required to reach the gas fee times the fixed gas limit, and
    for Wrap first the amount and then the amount plus that gas cost. *)
Theorem balance_checks_inclusive :
  0 <= amountWei <= MAX_UINT256 ->
  wp (performStake E W wallet direction amount proxyUrl) st (λ r st',
    ∃ evs, trace st' = trace st ++ evs ∧
    if decide (tokenBalance WETH_ADDRESS < amountWei) then
      r = Err (Thrown ("Insufficient WETH balance: " +:+
                       formatEther E (tokenBalance WETH_ADDRESS) +:+ " < " +:+ amount))
      ∧ sentTxs evs = []
    else if decide (nativeBalance < gasFee * 650000) then
      r = Err (Thrown ("Insufficient ETH for gas: " +:+ formatEther E nativeBalance +:+
                       " < " +:+ formatEther E (gasFee * 650000)))
      ∧ sentTxs evs = []
    else
      ∃ tx, sentTxs evs = [(address wallet, tx)]
            ∧ tx_value tx = 0 ∧ tx_gasLimit tx = 650000)
  ∧ wp (performUnstake E W wallet direction amount proxyUrl) st (λ r st',
    ∃ evs, trace st' = trace st ++ evs ∧
    if decide (tokenBalance EXETH_ADDRESS < amountWei) then
      r = Err (Thrown ("Insufficient eXETH balance: " +:+
                       formatEther E (tokenBalance EXETH_ADDRESS) +:+ " < " +:+ amount))
      ∧ sentTxs evs = []
    else if decide (nativeBalance < gasFee * 650000) then
      r = Err (Thrown ("Insufficient ETH for gas: " +:+ formatEther E nativeBalance +:+
                       " < " +:+ formatEther E (gasFee * 650000)))
      ∧ sentTxs evs = []
    else
      ∃ tx, sentTxs evs = [(address wallet, tx)]
            ∧ tx_value tx = 0 ∧ tx_gasLimit tx = 650000)
  ∧ wp (performClaim E W wallet direction proxyUrl) st (λ r st',
    ∃ evs, trace st' = trace st ++ evs ∧
    if decide (nativeBalance < gasFee * 650000) then
      r = Err (Thrown ("Insufficient ETH for gas: " +:+ formatEther E nativeBalance +:+
                       " < " +:+ formatEther E (gasFee * 650000)))
      ∧ sentTxs evs = []
    else
      ∃ tx, sentTxs evs = [(address wallet, tx)]
            ∧ tx_value tx = 0 ∧ tx_gasLimit tx = 650000)
  ∧ wp (performWrap E W wallet direction amount proxyUrl) st (λ r st',
    ∃ evs, trace st' = trace st ++ evs ∧
    if decide (nativeBalance < amountWei) then
      r = Err (Thrown ("Insufficient ETH balance: " +:+
                       formatEther E nativeBalance +:+ " < " +:+ amount))
      ∧ sentTxs evs = []
    else if decide (nativeBalance < amountWei + gasFee * 100000) then
      r = Err (Thrown ("Insufficient ETH for amount + gas: " +:+
                       formatEther E nativeBalance +:+ " < " +:+
                       formatEther E (amountWei + gasFee * 100000)))
      ∧ sentTxs evs = []
    else
      ∃ tx, sentTxs evs = [(address wallet, tx)]
            ∧ tx_value tx = amountWei ∧ tx_gasLimit tx = 100000)
  ∧ wp (performUnwrap E W wallet direction amount proxyUrl) st (λ r st',
    ∃ evs, trace st' = trace st ++ evs ∧
    if decide (tokenBalance WETH_ADDRESS < amountWei) then
      r = Err (Thrown ("Insufficient WETH balance: " +:+
                       formatEther E (tokenBalance WETH_ADDRESS) +:+ " < " +:+ amount))
      ∧ sentTxs evs = []
    else if decide (nativeBalance < gasFee * 100000) then
      r = Err (Thrown ("Insufficient ETH for gas: " +:+ formatEther E nativeBalance +:+
                       " < " +:+ formatEther E (gasFee * 100000)))
      ∧ sentTxs evs = []
    else
      ∃ tx, sentTxs evs = [(address wallet, tx)]
            ∧ tx_value tx = 0 ∧ tx_gasLimit tx = 100000).
Proof.
  intros Hrange. split; [|split; [|split; [|split]]].
  - unfold performStake. checks.
  - unfold performUnstake. checks.
  - unfold performClaim. checks.
  - unfold performWrap. checks.
  - unfold performUnwrap. checks.
Qed.

End Checks.

(** At the boundary: a WETH balance equal to the amount lets the stake
    through, and a native balance equal to the amount plus the gas cost
    (7 wei times 100000) lets the wrap through. *)
Lemma balance_checks_inclusive_witness :
  wp (performStake laxEthers
        (sampleWorld 10000000000000000 10000000000000000 10000000000700000
           (Resolved "0xhash00000000"))
        sampleWallet holesky "0.0100" None) initialState (λ r st',
    ∃ evs tx, trace st' = evs ∧ sentTxs evs = [("0xAb", tx)])
  ∧ wp (performWrap laxEthers
        (sampleWorld 10000000000000000 10000000000000000 10000000000700000
           (Resolved "0xhash00000000"))
        sampleWallet holesky "0.0100" None) initialState (λ r st',
    ∃ evs tx, trace st' = evs ∧ sentTxs evs = [("0xAb", tx)]
              ∧ tx_value tx = 10000000000000000).
Proof.
  edestruct (balance_checks_inclusive laxEthers
               (sampleWorld 10000000000000000 10000000000000000 10000000000700000
                  (Resolved "0xhash00000000"))
               sampleWallet holesky "0.0100" None initialState
               10000000000000000 10000000000000000 10000000000700000 5 7
               (λ _, 10000000000000000) sampleFeeData 1 100 50 150)
    as (Hstake & _ & _ & Hwrap & _).
  1-18: first [reflexivity | lia | intros; reflexivity | by vm_compute].
  split.
  - eapply wp_conseq; [exact Hstake|]. intros r st' (evs & Ht & Hd).
    destruct (decide _) as [?|_] in Hd; [lia|].
    destruct (decide _) as [?|_] in Hd; [lia|].
    destruct Hd as (tx & Hsent & _). exists evs, tx. split; [exact Ht|exact Hsent].
  - eapply wp_conseq; [exact Hwrap|]. intros r st' (evs & Ht & Hd).
    destruct (decide _) as [?|_] in Hd; [lia|].
    destruct (decide _) as [?|_] in Hd; [lia|].
    destruct Hd as (tx & Hsent & Hvalue & _). exists evs, tx.
    split; [exact Ht|]. split; [exact Hsent|exact Hvalue].
Defined.

(** ** OperationRunner: the preconditions of Claim *)

Section ClaimPreconditions.

Context (E : Ethers) (W : World).
Context (wallet : Wallet) (direction : direction) (proxyUrl : option string) (st : State).
Context (count createdAt coolDown now : Z).

Let addr := toLowerCase (address wallet).

(** The provider is set up and the four reads are answered. *)
Hypothesis Hagent : createAgent E proxyUrl = inr tt.
Hypothesis Hcount : read W (tick st) (QOutstandingWithdrawRequests addr) = Resolved count.
Hypothesis HcreatedAt :
  read W (1 + tick st) (QWithdrawRequestCreatedAt addr 0) = Resolved createdAt.
Hypothesis HcoolDown : read W (2 + tick st) QCoolDownPeriod = Resolved coolDown.
Hypothesis Hnow : read W (3 + tick st) QLatestBlockTimestamp = Resolved now.

(** C3. [performClaim] throws "No outstanding withdraw requests" exactly
    when the count is zero, and "Not ready to claim yet" exactly when the
    count is not zero and [createdAt + coolDown] is strictly above the
    latest block's time stamp. In both cases nothing is sent and the fee
    data is not even asked for. Otherwise, also at equality, the fee data
    is asked for, and the claim transaction is sent once the gas is covered
    and the nonce reserved. *)
Theorem performClaim_preconditions :
  wp (performClaim E W wallet direction proxyUrl) st (λ r st',
    ∃ evs, trace st' = trace st ++ evs
    ∧ (r = Err (Thrown "No outstanding withdraw requests") ↔ count = 0)
    ∧ (r = Err (Thrown "Not ready to claim yet") ↔ count ≠ 0 ∧ createdAt + coolDown > now)
    ∧ (count = 0 ∨ createdAt + coolDown > now ->
         sentTxs evs = [] ∧ EvRead QFeeData ∉ evs)
    ∧ (count ≠ 0 -> createdAt + coolDown <= now ->
         EvRead QFeeData ∈ evs
         ∧ ∀ fd gasFee nativeBalance pending,
             getFeeData W (4 + tick st) = Resolved fd ->
             gasFeeOf (feeParamsOf fd) = Some gasFee ->
             read W (5 + tick st) (QGetBalance addr) = Resolved nativeBalance ->
             gasFee * 650000 <= nativeBalance ->
             shouldStop st = false ->
             isAddress E addr = true ->
             read W (6 + tick st) (QTransactionCount addr) = Resolved pending ->
             ∃ tx, sentTxs evs = [(address wallet, tx)]
                   ∧ tx_to tx = CLAIM_CONTRACT_ADDRESS
                   ∧ tx_data tx = CallClaim 0 addr
                   ∧ tx_gasLimit tx = 650000)).
Proof.
  simpl in HcreatedAt, HcoolDown, Hnow.
  unfold performClaim, getProvider, getProviderFrom, estimateGasCost,
    getNextNonce, onSendError.
  fold addr.
  wp_go.
  all: rewrite <- ?app_assoc; eexists; (split; [reflexivity|]); z_facts.
  all: simpl.
  all: split; [split; intros Hx;
               first [done | lia | discriminate Hx
                     | cbv [String.append] in Hx; discriminate Hx]|].
  all: split; [split; [intros Hx | intros [? ?]];
               first [done | lia | discriminate Hx
                     | cbv [String.append] in Hx; discriminate Hx]|].
  all: split; [intros [?|?]; try lia; (split; [done|]); intros Hin;
               repeat (apply elem_of_cons in Hin as [Hin|Hin]; [discriminate Hin|]);
               by apply elem_of_nil in Hin|].
  all: intros ? ?; try lia.
  all: split; [repeat first [apply list_elem_of_here | apply list_elem_of_further]|].
  all: intros fd gasFee nativeBalance pending Hfd Hgf Hnb Hgas Hstop Haddr Hpend.
  all: repeat match goal with
       | H1 : ?x = _, H2 : ?x = _ |- _ =>
           rewrite H1 in H2; first [discriminate H2 | injection H2 as ?; subst]
       end.
  all: try discriminate; try lia.
  all: try (eexists; done).
Qed.

End ClaimPreconditions.

(** The example of the specification at its boundary: created at 100,
    cool-down 50, latest block at 150; the claim goes on to the fee data. *)
Lemma performClaim_preconditions_witness :
  wp (performClaim laxEthers
        (sampleWorld 0 0 20000000000000000 (Resolved "0xhash00000000"))
        sampleWallet holesky None) initialState (λ r st',
    ∃ evs, trace st' = evs ∧ EvRead QFeeData ∈ evs
           ∧ r ≠ Err (Thrown "Not ready to claim yet")).
Proof.
  eapply wp_conseq.
  - apply (performClaim_preconditions laxEthers
             (sampleWorld 0 0 20000000000000000 (Resolved "0xhash00000000"))
             sampleWallet holesky None initialState 1 100 50 150); reflexivity.
  - intros r st' (evs & Ht & _ & Hnot & _ & Hgo). exists evs.
    split; [exact Ht|]. split.
    + apply Hgo; lia.
    + intros Hr. apply Hnot in Hr. lia.
Defined.

(** ** NonceTracker: one wallet under two keys *)

Lemma append_inj_r (p a b : string) : p +:+ a = p +:+ b -> a = b.
Proof.
  induction p as [|c p IH]; [done|].
  intros H. injection H as H. by apply IH.
Qed.

(** Keys of one chain differ as soon as the spellings of the address do. *)
Lemma nonceKey_inj chainId a b : nonceKey chainId a = nonceKey chainId b -> a = b.
Proof.
  unfold nonceKey. intros H. apply append_inj_r in H. by apply (append_inj_r "_") in H.
Qed.

Section SplitKeys.

Context (E : Ethers) (W : World).
Context (wallet : Wallet) (direction : direction) (amount : string)
        (proxyUrl : option string) (st : State).
Context (amountWei allowance tokenBalance nativeBalance gasFee status ms : Z)
        (pendingAtApproval pendingAtMain : Z) (fd : FeeData) (hash : string).

Let addr := toLowerCase (address wallet).
Let approvalKey := nonceKey HOLESKY_CHAIN_ID (address wallet).
Let mainKey := nonceKey (chainId direction) addr.

(** The address of the wallet has a capital letter in it, as check-summed
    addresses do, and the operation runs on the Holesky chain. *)
Hypothesis Hmixed : addr ≠ address wallet.
Hypothesis Hchain : chainId direction = HOLESKY_CHAIN_ID.
(** The approval is needed and goes through, and so does the operation. *)
Hypothesis Hagent : createAgent E proxyUrl = inr tt.
Hypothesis Hparse : parseEther E amount = inr amountWei.
Hypothesis Htoken : ∀ t token, read W t (QBalanceOf token addr) = Resolved tokenBalance.
Hypothesis Hallow :
  ∀ t token spender, read W t (QAllowance token (address wallet) spender) = Resolved allowance.
Hypothesis Hfee : ∀ t, getFeeData W t = Resolved fd.
Hypothesis HgasFee : gasFeeOf (feeParamsOf fd) = Some gasFee.
Hypothesis Hnative : ∀ t, read W t (QGetBalance addr) = Resolved nativeBalance.
Hypothesis HpendingA :
  ∀ t, read W t (QTransactionCount (address wallet)) = Resolved pendingAtApproval.
Hypothesis HpendingM : ∀ t, read W t (QTransactionCount addr) = Resolved pendingAtMain.
Hypothesis Hstop : shouldStop st = false.
Hypothesis HvalidA : isAddress E (address wallet) = true.
Hypothesis HvalidM : isAddress E addr = true.
Hypothesis Hbalance : amountWei <= tokenBalance.
Hypothesis Hshort : allowance < amountWei.
Hypothesis Hgas : gasFee * 650000 <= nativeBalance.
Hypothesis Hsend : ∀ t tx, sendTransaction W t (address wallet) tx = Resolved hash.
Hypothesis Hwait : ∀ t, wait W t hash = Settled ms (inr status).
Hypothesis Hmined : status ≠ 0.

Ltac two_entries :=
  unfold getProvider, getProviderFrom, approveToken, estimateGasCost,
    getNextNonce, onSendError;
  fold addr; fold approvalKey; fold mainKey;
  wp_go;
  try (exfalso; z_facts; lia);
  (split; [done|]);
  rewrite ?lookup_insert_eq, ?(lookup_insert_ne _ mainKey approvalKey) by done;
  rewrite ?lookup_insert_eq, ?(lookup_insert_ne _ approvalKey mainKey) by done;
  (split; [done|]); (split; [done|]);
  rewrite <- ?app_assoc; do 3 eexists; (split; [reflexivity|]); simpl; done.

(** C10. After a Stake, and after an Unstake, that needed an approval,
    the tracker holds two entries for the wallet on the one chain: one
    under the address as the wallet spells it, left by the approval, and
    one under the lower-cased address, left by the operation itself. Each
    is computed from the earlier entry under its own key and the pending
    count alone, so the nonce of the operation takes no account of the
    nonce just reserved for the approval. *)
Theorem two_tracker_entries :
  wp (performStake E W wallet direction amount proxyUrl) st (λ r st',
    approvalKey ≠ mainKey
    ∧ nonceTracker st' !! approvalKey
        = Some (nextNonceOf (nonceTracker st !! approvalKey) pendingAtApproval)
    ∧ nonceTracker st' !! mainKey
        = Some (nextNonceOf (nonceTracker st !! mainKey) pendingAtMain)
    ∧ ∃ evs approveTx mainTx,
        trace st' = trace st ++ evs
        ∧ sentTxs evs = [(address wallet, approveTx); (address wallet, mainTx)]
        ∧ tx_nonce approveTx = nextNonceOf (nonceTracker st !! approvalKey) pendingAtApproval
        ∧ tx_nonce mainTx = nextNonceOf (nonceTracker st !! mainKey) pendingAtMain)
  ∧ wp (performUnstake E W wallet direction amount proxyUrl) st (λ r st',
    approvalKey ≠ mainKey
    ∧ nonceTracker st' !! approvalKey
        = Some (nextNonceOf (nonceTracker st !! approvalKey) pendingAtApproval)
    ∧ nonceTracker st' !! mainKey
        = Some (nextNonceOf (nonceTracker st !! mainKey) pendingAtMain)
    ∧ ∃ evs approveTx mainTx,
        trace st' = trace st ++ evs
        ∧ sentTxs evs = [(address wallet, approveTx); (address wallet, mainTx)]
        ∧ tx_nonce approveTx = nextNonceOf (nonceTracker st !! approvalKey) pendingAtApproval
        ∧ tx_nonce mainTx = nextNonceOf (nonceTracker st !! mainKey) pendingAtMain).
Proof.
  assert (Hkeys : approvalKey ≠ mainKey).
  { unfold approvalKey, mainKey. rewrite Hchain. intros Heq.
    apply nonceKey_inj in Heq. by apply Hmixed. }
  split.
  - unfold performStake. two_entries.
  - unfold performUnstake. two_entries.
Qed.

End SplitKeys.

(** A wallet spelt "0xAb" on a chain that reports 5 pending transactions
    both times: the approval and the stake are both sent with nonce 5, and
    the tracker ends with 5 under each of the two keys. *)
Lemma two_tracker_entries_witness :
  wp (performStake laxEthers
        (sampleWorld 0 20000000000000000 20000000000000000 (Resolved "0xhash00000000"))
        sampleWallet holesky "0.0100" None) initialState (λ r st',
    nonceTracker st' !! nonceKey 17000 "0xAb" = Some 5
    ∧ nonceTracker st' !! nonceKey 17000 "0xab" = Some 5
    ∧ ∃ evs approveTx mainTx,
        trace st' = evs
        ∧ sentTxs evs = [("0xAb", approveTx); ("0xAb", mainTx)]
        ∧ tx_nonce approveTx = 5 ∧ tx_nonce mainTx = 5).
Proof.
  edestruct (two_tracker_entries laxEthers
               (sampleWorld 0 20000000000000000 20000000000000000
                  (Resolved "0xhash00000000"))
               sampleWallet holesky "0.0100" None initialState
               10000000000000000 0 20000000000000000 20000000000000000 7 1 1000
               5 5 sampleFeeData "0xhash00000000") as (Hstake & _).
  1-20: first [reflexivity | lia | discriminate | intros; reflexivity].
  eapply wp_conseq; [exact Hstake|].
  intros r st' (_ & Ha & Hm & evs & approveTx & mainTx & Ht & Hsent & Hna & Hnm).
  split; [exact Ha|]. split; [exact Hm|].
  exists evs, approveTx, mainTx.
  split; [exact Ht|]. split; [exact Hsent|]. split; [exact Hna|exact Hnm].
Defined.

(** ** Scheduler: what the operations leave alone *)

Create HintDb tame.

Lemma schedule_app evs1 evs2 : schedule (evs1 ++ evs2) = schedule evs1 ++ schedule evs2.
Proof. apply List.filter_app. Qed.

Lemma steps_refl st : steps st st [].
Proof.
  split; [by repeat split|]. exists []. split; [by rewrite app_nil_r|done].
Qed.

Lemma steps_trans st1 st2 st3 s1 s2 :
  steps st1 st2 s1 -> steps st2 st3 s2 -> steps st1 st3 (s1 ++ s2).
Proof.
  intros [(a1 & a2 & a3 & a4 & a5) (evs1 & Ht1 & Hs1)]
         [(b1 & b2 & b3 & b4 & b5) (evs2 & Ht2 & Hs2)].
  split; [repeat split; congruence|].
  exists (evs1 ++ evs2). split.
  - rewrite Ht2, Ht1. by rewrite app_assoc.
  - rewrite schedule_app, Hs1, Hs2. done.
Qed.

Lemma steps_nil_trans st1 st2 st3 :
  steps st1 st2 [] -> steps st2 st3 [] -> steps st1 st3 [].
Proof. apply steps_trans. Qed.

Lemma steps_chain a b c s1 s2 s :
  steps a b s1 -> steps b c s2 -> s = s1 ++ s2 -> steps a c s.
Proof. intros H1 H2 ->. by eapply steps_trans. Qed.

(** The state a chain of assignments started from. *)
Ltac base_of c :=
  lazymatch c with
  | set_transactionLogs _ ?c' => base_of c'
  | set_activityRunning _ ?c' => base_of c'
  | set_isCycleRunning _ ?c' => base_of c'
  | set_shouldStop _ ?c' => base_of c'
  | set_dailyActivityInterval _ ?c' => base_of c'
  | set_accounts _ ?c' => base_of c'
  | set_proxies _ ?c' => base_of c'
  | set_selectedWalletIndex _ ?c' => base_of c'
  | set_nonceTracker _ ?c' => base_of c'
  | set_hasLoggedSleepInterrupt _ ?c' => base_of c'
  | set_activeProcesses _ ?c' => base_of c'
  | set_dailyActivityConfig _ ?c' => base_of c'
  | set_process _ ?c' => base_of c'
  | set_tick _ ?c' => base_of c'
  | set_draws _ ?c' => base_of c'
  | set_trace _ ?c' => base_of c'
  | _ => constr:(c)
  end.

(** A few assignments that leave the watched fields alone. *)
Ltac steps_base :=
  split; [by repeat split
         | cbn [trace set_transactionLogs set_activityRunning set_isCycleRunning
                set_shouldStop set_dailyActivityInterval set_accounts set_proxies
                set_selectedWalletIndex set_nonceTracker set_hasLoggedSleepInterrupt
                set_activeProcesses set_dailyActivityConfig set_process set_tick
                set_draws set_trace];
           rewrite <- ?app_assoc; eexists; split;
           [first [reflexivity | symmetry; apply app_nil_r] | reflexivity]].

(** Chain what is known about the earlier stretches of a run with what
    the assignments after them did. *)
Ltac steps_tac :=
  lazymatch goal with
  | |- steps ?a ?c _ =>
      let b := base_of c in
      let a0 := base_of a in
      first
        [ constr_eq a0 b; steps_base
        | constr_eq b c;
          lazymatch goal with
          | H : steps ?x b _ |- _ =>
              eapply (steps_chain a x b); [steps_tac | exact H | ]
          end
        | eapply (steps_chain a b c); [steps_tac | steps_base | ] ]
  end.

Section Tame.

Context {A : Type}.

Lemma tame_ret (a : A) : Tame (mret a).
Proof. intros st. split; [done|apply steps_refl]. Qed.

Lemma tame_throw e : Tame (throw (A := A) e).
Proof. intros st. split; [done|apply steps_refl]. Qed.

Lemma tame_gets (f : State -> A) : Tame (gets f).
Proof. intros st. split; [done|apply steps_refl]. Qed.

Lemma tame_call (r : string + A) : Tame (call r).
Proof. intros st. split; [by destruct r|apply steps_refl]. Qed.

Lemma tame_bind {B} (m : M B) (f : B -> M A) :
  Tame m -> (∀ b, Tame (f b)) -> Tame (m ≫= f).
Proof.
  intros Hm Hf st. rewrite bind_run. specialize (Hm st).
  destruct (m st) as [[b|e|] st1]; simpl in Hm; destruct Hm as [Hn Hq].
  - specialize (Hf b st1). destruct Hf as [Hn' Hq']. split; [done|].
    by eapply steps_nil_trans.
  - done.
  - done.
Qed.

Lemma tame_tryCatch (body : M A) (handler : error -> M A) :
  Tame body -> (∀ e, Tame (handler e)) -> Tame (tryCatch body handler).
Proof.
  intros Hm Hh st. unfold tryCatch. specialize (Hm st).
  destruct (body st) as [[b|e|] st1]; simpl in Hm; destruct Hm as [Hn Hq]; [done| |done].
  specialize (Hh e st1). destruct Hh as [Hn' Hq']. split; [done|].
  by eapply steps_nil_trans.
Qed.

Lemma tame_tryFinally (body : M A) (fin : M unit) :
  Tame body -> Tame fin -> Tame (tryFinally body fin).
Proof.
  intros Hm Hf st. unfold tryFinally. specialize (Hm st).
  destruct (body st) as [[b|e|] st1]; simpl in Hm; destruct Hm as [Hn Hq]; [| |done].
  all: specialize (Hf st1); destruct (fin st1) as [[[]|e'|] st2]; simpl in Hf;
    destruct Hf as [Hn' Hq']; (split; [done|]); by eapply steps_nil_trans.
Qed.

End Tame.

Lemma tame_modify (f : State -> State) : (∀ st, steps st (f st) []) -> Tame (modify f).
Proof. intros Hf st. split; [done|apply Hf]. Qed.

Lemma tame_addLog msg type : Tame (addLog msg type).
Proof.
  intros st. unfold addLog.
  destruct (String.eqb type "debug" && negb isDebug)%bool; (split; [done|]);
    [apply steps_refl|].
  split; [by repeat split|]. exists []. split; [by rewrite app_nil_r|done].
Qed.

Lemma tame_when b (m : M unit) : Tame m -> Tame (when b m).
Proof. intros Hm. destruct b; [done|apply tame_ret]. Qed.

Section TameWorld.

Context (E : Ethers) (W : World) (HW : responsive W).

Lemma tame_ask q : Tame (ask W q).
Proof.
  destruct HW as (Hread & _). intros st. unfold ask. simpl. split.
  - specialize (Hread (tick st) q). by destruct (read W (tick st) q).
  - split; [by repeat split|]. by eexists.
Qed.

Lemma tame_askFeeData : Tame (askFeeData W).
Proof.
  destruct HW as (_ & Hfee & _). intros st. unfold askFeeData. simpl. split.
  - specialize (Hfee (tick st)). by destruct (getFeeData W (tick st)).
  - split; [by repeat split|]. by eexists.
Qed.

Lemma tame_send from tx : Tame (send W from tx).
Proof.
  destruct HW as (_ & _ & Hsend & _). intros st. unfold send. simpl. split.
  - specialize (Hsend (tick st) from tx). by destruct (sendTransaction W (tick st) from tx).
  - split; [by repeat split|]. by eexists.
Qed.

Lemma tame_waitReceipt hash : Tame (waitReceipt W hash).
Proof.
  destruct HW as (_ & _ & _ & Hwait). intros st. unfold waitReceipt. simpl. split.
  - specialize (Hwait (tick st) hash). by destruct (wait W (tick st) hash) as [? [|]|].
  - split; [by repeat split|]. by eexists.
Qed.

Lemma tame_waitReceiptRace hash limit : Tame (waitReceiptRace W hash limit).
Proof.
  intros st. unfold waitReceiptRace. simpl. split.
  - destruct (wait W (tick st) hash) as [ms [|]|]; [destruct (ms <? limit)..|]; done.
  - split; [by repeat split|]. by eexists.
Qed.

Ltac st_simpl_all :=
  cbn [transactionLogs activityRunning isCycleRunning shouldStop dailyActivityInterval
       accounts proxies selectedWalletIndex nonceTracker hasLoggedSleepInterrupt
       activeProcesses dailyActivityConfig process tick draws trace
       set_transactionLogs set_activityRunning set_isCycleRunning set_shouldStop
       set_dailyActivityInterval set_accounts set_proxies set_selectedWalletIndex
       set_nonceTracker set_hasLoggedSleepInterrupt set_activeProcesses
       set_dailyActivityConfig set_process set_tick set_draws set_trace] in *.

Ltac tame_state :=
  let st := fresh "st" in
  intros st; split; [by repeat split|]; exists []; split; [by rewrite app_nil_r|done].

Ltac tame :=
  repeat first
    [ solve [auto with tame]
    | apply tame_ret | apply tame_throw | apply tame_gets | apply tame_call
    | apply tame_addLog | apply tame_ask | apply tame_askFeeData | apply tame_send
    | apply tame_waitReceipt | apply tame_waitReceiptRace
    | apply tame_modify; tame_state
    | apply tame_when
    | apply tame_bind; [|intros ?]
    | apply tame_tryCatch; [|intros ?]
    | apply tame_tryFinally
    | match goal with
      | |- Tame (if ?b then _ else _) => destruct b
      | |- Tame (match ?x with _ => _ end) => destruct x
      end
    | progress cbv zeta ].

Lemma tame_getNextNonce a c : Tame (getNextNonce E W a c).
Proof. unfold getNextNonce. tame. Qed.

Lemma tame_getFeeParams : Tame (getFeeParams W).
Proof. unfold getFeeParams. tame. Qed.

#[local] Hint Resolve tame_getNextNonce tame_getFeeParams : tame.

Lemma tame_approveToken w t s a : Tame (approveToken E W w t s a).
Proof. unfold approveToken. tame. Qed.

Lemma tame_sleepDetached ms : Tame (sleepDetached ms).
Proof. unfold sleepDetached. tame. Qed.

#[local] Hint Resolve tame_approveToken tame_sleepDetached : tame.

Lemma tame_getProviderFrom remaining attempt maxRetries c p :
  Tame (getProviderFrom E remaining attempt maxRetries c p).
Proof.
  revert attempt. induction remaining as [|n IH]; intros attempt; simpl.
  - tame.
  - destruct (createAgent E p); tame.
Qed.

Lemma tame_getProvider rpc c p : Tame (getProvider E rpc c p).
Proof. apply tame_getProviderFrom. Qed.

Lemma tame_onSendError {A} c a e : Tame (onSendError (A := A) c a e).
Proof. unfold onSendError. tame. Qed.

Lemma tame_estimateGasCost p g : Tame (estimateGasCost p g).
Proof. unfold estimateGasCost. tame. Qed.

#[local] Hint Resolve tame_getProvider tame_onSendError tame_estimateGasCost : tame.

Lemma wp_tame {A} (m : M A) st (Q : res A -> State -> Prop) :
  Tame m -> (∀ r st', r ≠ Hang -> steps st st' [] -> Q r st') -> wp m st Q.
Proof. intros Hm HQ. apply HQ; apply Hm. Qed.

(** Each operation announces itself and enters nothing else. *)
Lemma performStake_schedule wallet direction amount proxyUrl st :
  wp (performStake E W wallet direction amount proxyUrl) st (λ r st',
    r ≠ Hang ∧ steps st st' [EvPerform Stake (address wallet) (Some amount)]).
Proof.
  unfold performStake. apply wp_bind, wp_emit. cbv beta iota.
  apply wp_tame; [tame|]. intros r st' Hn Hq. split; [done|].
  steps_tac; reflexivity.
Qed.

Lemma performUnstake_schedule wallet direction amount proxyUrl st :
  wp (performUnstake E W wallet direction amount proxyUrl) st (λ r st',
    r ≠ Hang ∧ steps st st' [EvPerform Unstake (address wallet) (Some amount)]).
Proof.
  unfold performUnstake. apply wp_bind, wp_emit. cbv beta iota.
  apply wp_tame; [tame|]. intros r st' Hn Hq. split; [done|].
  steps_tac; reflexivity.
Qed.

Lemma performClaim_schedule wallet direction proxyUrl st :
  wp (performClaim E W wallet direction proxyUrl) st (λ r st',
    r ≠ Hang ∧ steps st st' [EvPerform Claim (address wallet) None]).
Proof.
  unfold performClaim. apply wp_bind, wp_emit. cbv beta iota.
  apply wp_tame; [tame|]. intros r st' Hn Hq. split; [done|].
  steps_tac; reflexivity.
Qed.

(** With the range reduced to the single value 0.01, every draw is
    rendered as "0.0100". *)
Lemma toFixed4_fixed toString (x : Q) :
  toFixed4 toString
    (num_add (num_mul (Fin x) (num_sub (Fin (1 # 100)) (Fin (1 # 100))))
             (Fin (1 # 100))) = "0.0100".
Proof.
  unfold num_add, num_mul, num_sub, toFixed4.
  assert (Heq : (x * ((1 # 100) - (1 # 100)) + (1 # 100) == 1 # 100)%Q) by ring.
  assert (Hle : Qle_bool 0 (x * ((1 # 100) - (1 # 100)) + (1 # 100)) = true).
  { apply Qle_bool_iff. rewrite Heq. discriminate. }
  rewrite Hle.
  assert (Hsmall : Qle_bool (inject_Z (10 ^ 21))
                     (Qabs (x * ((1 # 100) - (1 # 100)) + (1 # 100))) = false).
  { destruct (Qle_bool (inject_Z (10 ^ 21)) _) eqn:Hb; [|done].
    apply Qle_bool_iff in Hb. rewrite Heq in Hb. unfold Qle in Hb. simpl in Hb. lia. }
  rewrite Hsmall.
  assert (Hfl : Qfloor (Qabs (x * ((1 # 100) - (1 # 100)) + (1 # 100)) * 10000 + (1 # 2)) = 100).
  { rewrite Heq. reflexivity. }
  rewrite Hfl. reflexivity.
Qed.

(** From what a stretch left unchanged to facts about the state after it. *)
Ltac carry H :=
  let Hu := fresh "Hu" in
  pose proof H as [Hu _];
  destruct Hu as (? & ? & ? & ? & ?); st_simpl_all.

(** One pass of the stake loop when the scenario's configuration is in
    force: one stake of 0.0100, no pause after it, and no failure. *)
Lemma stakeStep_scenario accountIndex wallet direction proxyUrl st :
  shouldStop st = false ->
  stakeRepetitions (dailyActivityConfig st) = Fin 1 ->
  wethStakeRange (dailyActivityConfig st)
    = {| range_min := Fin (1 # 100); range_max := Fin (1 # 100) |} ->
  wp (stakeStep E W accountIndex wallet direction proxyUrl 0) st (λ r st',
    r = Ok tt ∧ steps st st' [EvPerform Stake (address wallet) (Some "0.0100")]).
Proof.
  intros Hstop Hreps Hrange.
  unfold stakeStep, randomAmount.
  wp_go.
  rewrite Hrange. cbn [range_min range_max]. rewrite toFixed4_fixed.
  wp_go.
  eapply wp_conseq; [apply performStake_schedule|].
  intros r st1 [Hn Hs]. carry Hs. unfold updateWallets.
  destruct r as [[]|e|]; [| |done].
  - wp_go. split; [done|]. steps_tac; reflexivity.
  - wp_go. split; [done|]. steps_tac; reflexivity.
Qed.

Lemma sleep_steps ms st :
  shouldStop st = false ->
  wp (sleep ms) st (λ r st', r = Ok tt ∧ steps st st' [EvSleep ms]).
Proof.
  intros Hstop. unfold sleep. wp_go. split; [done|]. steps_tac; reflexivity.
Qed.

(** The body of the account loop in the scenario: one stake of 0.0100,
    nothing else, and the ten-second pause unless the account is the last. *)
Lemma processAccount_scenario accountIndex key addr st :
  0 <= accountIndex ->
  accounts st !! Z.to_nat accountIndex = Some key ->
  walletAddress E key = inr addr ->
  isAddress E addr = true ->
  shouldStop st = false ->
  stakeRepetitions (dailyActivityConfig st) = Fin 1 ->
  unstakeRepetitions (dailyActivityConfig st) = Fin 0 ->
  claimRepetitions (dailyActivityConfig st) = Fin 0 ->
  wethStakeRange (dailyActivityConfig st)
    = {| range_min := Fin (1 # 100); range_max := Fin (1 # 100) |} ->
  wp (processAccount E W accountIndex) st (λ r st',
    r = Ok tt
    ∧ steps st st'
        (EvPerform Stake addr (Some "0.0100") ::
         if accountIndex <? Z.of_nat (length (accounts st)) - 1
         then [EvSleep 10000] else [])).
Proof.
  intros Hidx Hkey Haddr Hvalid Hstop Hstake Hunstake Hclaim Hrange.
  unfold processAccount.
  wp_go.
  unfold repeatLoop at 1. wp_go.
  cbn [forLoop]. unfold repeatWhile at 1. wp_go.
  eapply wp_conseq; [apply stakeStep_scenario; st_simpl; assumption|].
  intros r st1 [-> Hs1]. carry Hs1. cbn [address] in *.
  unfold pauseBetween. wp_go.
  unfold repeatLoop at 1. wp_go. cbn [forLoop]. wp_go.
  unfold repeatLoop at 1. wp_go. cbn [forLoop]. wp_go.
  - eapply wp_conseq; [apply sleep_steps; st_simpl; congruence|].
    intros r st2 [-> Hs2]. split; [done|]. steps_tac; reflexivity.
  - split; [done|]. steps_tac; reflexivity.
Qed.

(** Reasoning from the outcome of a run, whatever it is. *)
Lemma wp_case {A} (m : M A) st (Q : res A -> State -> Prop) :
  (∀ r st', m st = (r, st') -> Q r st') -> wp m st Q.
Proof. intros H. unfold wp. apply H. by destruct (m st). Qed.

(** A stake that fails does not end the pass: the failure is logged with
    the account and the repetition, and the pass returns normally. *)
Lemma stakeStep_survives accountIndex wallet direction proxyUrl stakeCount st :
  wp (stakeStep E W accountIndex wallet direction proxyUrl stakeCount) st (λ r st',
    r = Ok tt
    ∧ ∃ amount st0,
        ∀ e st1, performStake E W wallet direction amount proxyUrl st0 = (Err e, st1) ->
          ("error", "Account " +:+ pretty (accountIndex + 1) +:+ " - Stake " +:+
                    pretty (stakeCount + 1) +:+ ": Failed: " +:+ message e +:+
                    ". Skipping to next.") ∈ transactionLogs st').
Proof.
  unfold stakeStep, randomAmount, randomDelay, sleep, updateWallets. wp_go.
  apply wp_case. intros r st1 Hrun.
  match type of Hrun with performStake _ _ _ _ ?a _ ?s = _ =>
    pose proof (performStake_schedule wallet direction a proxyUrl s) as Hp
  end.
  unfold wp in Hp. rewrite Hrun in Hp. destruct Hp as [Hn _]. cbn [fst] in Hn.
  destruct r as [[]|e|]; [| |done]; wp_go.
  all: split; [done|]; do 2 eexists; intros e' st' Hrun'.
  all: rewrite Hrun in Hrun'; try discriminate Hrun'.
  all: injection Hrun' as <- <-.
  all: rewrite ?elem_of_app, ?list_elem_of_singleton; auto.
Qed.

Section Scenario.

Context (key1 key2 address1 address2 : string) (st : State).
Hypothesis Haccounts : accounts st = [key1; key2].
Hypothesis Hkey1 : walletAddress E key1 = inr address1.
Hypothesis Hkey2 : walletAddress E key2 = inr address2.
Hypothesis Hvalid1 : isAddress E address1 = true.
Hypothesis Hvalid2 : isAddress E address2 = true.
Hypothesis Hstake : stakeRepetitions (dailyActivityConfig st) = Fin 1.
Hypothesis Hunstake : unstakeRepetitions (dailyActivityConfig st) = Fin 0.
Hypothesis Hclaim : claimRepetitions (dailyActivityConfig st) = Fin 0.
Hypothesis Hrange :
  wethStakeRange (dailyActivityConfig st)
    = {| range_min := Fin (1 # 100); range_max := Fin (1 # 100) |}.

Lemma runDailyActivity_scenario :
  wp (runDailyActivity E W) st (λ r st',
    r = Ok tt
    ∧ ∃ evs, trace st' = trace st ++ evs
             ∧ schedule evs = [EvPerform Stake address1 (Some "0.0100");
                               EvSleep 10000;
                               EvPerform Stake address2 (Some "0.0100")]).
Proof.
  unfold runDailyActivity. wp_go.
  change (Z.to_nat (Z.of_nat (length [key1; key2]))) with 2%nat.
  cbn [forLoop]. wp_go.
  eapply wp_conseq.
  { apply (processAccount_scenario 0 key1 address1); st_simpl;
      first [done | by rewrite Haccounts]. }
  intros r st1 [-> Hs1]. carry Hs1. wp_go.
  rewrite Haccounts in Hs1. change (0 <? Z.of_nat (length [key1; key2]) - 1) with true in Hs1.
  eapply wp_conseq.
  { apply (processAccount_scenario (0 + 1) key2 address2); st_simpl;
      first [done | congruence | by rewrite H0, Haccounts]. }
  intros r st2 [-> Hs2]. carry Hs2.
  rewrite H0, Haccounts in Hs2.
  change (0 + 1 <? Z.of_nat (length [key1; key2]) - 1) with false in Hs2.
  wp_go.
  all: split; [done|].
  all: match goal with
       | |- ∃ evs, trace ?c = _ ∧ _ =>
           assert (Hsteps : steps
             (set_activeProcesses (0 `max` activeProcesses st)
               (set_hasLoggedSleepInterrupt false (set_shouldStop false st))) c
             [EvPerform Stake address1 (Some "0.0100"); EvSleep 10000;
              EvPerform Stake address2 (Some "0.0100")])
             by (steps_tac; reflexivity)
       end.
  all: destruct Hsteps as [_ (evs & Ht & Hsch)]; exists evs; split; [exact Ht|exact Hsch].
Qed.

(** C7. With two keys registered, one stake repetition, no unstake and no
    claim repetition, and the stake range reduced to 0.01, a cycle on a
    chain that answers every call ends normally, whatever the answers are,
    and enters exactly: a stake of 0.0100 for the first wallet, the
    ten-second pause, a stake of 0.0100 for the second wallet. No unstake
    and no claim is entered. A stake that fails is logged as an error with
    the account and the repetition, and the pass returns normally. *)
Theorem runDailyActivity_two_wallets :
  wp (runDailyActivity E W) st (λ r st',
    r = Ok tt
    ∧ ∃ evs, trace st' = trace st ++ evs
             ∧ schedule evs = [EvPerform Stake address1 (Some "0.0100");
                               EvSleep 10000;
                               EvPerform Stake address2 (Some "0.0100")])
  ∧ ∀ accountIndex wallet direction proxyUrl stakeCount st0,
      wp (stakeStep E W accountIndex wallet direction proxyUrl stakeCount) st0 (λ r st',
        r = Ok tt
        ∧ ∃ amount st1,
            ∀ e st2, performStake E W wallet direction amount proxyUrl st1 = (Err e, st2) ->
              ("error", "Account " +:+ pretty (accountIndex + 1) +:+ " - Stake " +:+
                        pretty (stakeCount + 1) +:+ ": Failed: " +:+ message e +:+
                        ". Skipping to next.") ∈ transactionLogs st').
Proof.
  split.
  - apply runDailyActivity_scenario.
  - intros. apply stakeStep_survives.
Qed.

End Scenario.

End TameWorld.

Lemma sampleWorld_responsive allowance tokenBalance nativeBalance hash :
  responsive (sampleWorld allowance tokenBalance nativeBalance (Resolved hash)).
Proof. by repeat split. Qed.

(** The scenario on the sample chain, where both stakes go through. *)
Lemma runDailyActivity_two_wallets_witness :
  wp (runDailyActivity laxEthers
        (sampleWorld 20000000000000000 20000000000000000 20000000000000000
           (Resolved "0xhash00000000")))
     scenarioState (λ r st',
    r = Ok tt
    ∧ schedule (trace st') = [EvPerform Stake "key1" (Some "0.0100");
                              EvSleep 10000;
                              EvPerform Stake "key2" (Some "0.0100")]).
Proof.
  edestruct (runDailyActivity_two_wallets laxEthers
               (sampleWorld 20000000000000000 20000000000000000 20000000000000000
                  (Resolved "0xhash00000000"))
               (sampleWorld_responsive _ _ _ _)
               "key1" "key2" "key1" "key2" scenarioState) as (Hrun & _).
  1-9: reflexivity.
  eapply wp_conseq; [exact Hrun|].
  intros r st' (Hr & evs & Ht & Hsch). split; [exact Hr|].
  rewrite Ht. exact Hsch.
Defined.

(** ** ConfigStore: what loading makes of the repetition counts *)

Lemma num_or_storedOr1 E stored : storedOr1 stored (num_or (Number E stored) (Fin 1)).
Proof.
  unfold storedOr1, num_or. repeat split.
  - intros q -> Hq. simpl. destruct (Qeq_bool q 0) eqn:Hb; [|done].
    apply Qeq_bool_iff in Hb. contradiction.
  - intros q -> Hq. simpl. apply Qeq_bool_iff in Hq. by rewrite Hq.
  - intros ->. done.
Qed.

(** C8, as stated, fails on a stored zero: with [stakeRepetitions] stored
    as 0, [unstakeRepetitions] as 3 and no [claimRepetitions], loading
    yields 1, 3 and 1: the stored 0 is replaced by the default. *)
Lemma loadConfig_stored_zero_becomes_one :
  getField "stakeRepetitions" storedFields = Some (JNum 0)
  ∧ wp (loadConfig configEthers (sampleWorld 0 0 0 Pending)) initialState (λ r st',
      r = Ok tt
      ∧ stakeRepetitions (dailyActivityConfig st') = Fin 1
      ∧ unstakeRepetitions (dailyActivityConfig st') = Fin 3
      ∧ claimRepetitions (dailyActivityConfig st') = Fin 1).
Proof. split; [reflexivity|]. unfold wp. vm_compute. by repeat split. Qed.

Section Config.

Context (E : Ethers) (W : World) (st : State) (data : string)
        (fields : list (string * json)).

(** [config.json] exists and holds an object. *)
Hypothesis Hexists : existsSync W CONFIG_FILE = true.
Hypothesis Hread : readFileSync W CONFIG_FILE = inr data.
Hypothesis Hparse : JSON_parse E data = inr (JObj fields).

(** C8, amended. Loading yields the stored number for every stored number
    other than zero, and the default 1 when the stored number is zero or
    the entry is absent. *)
Theorem loadConfig_repetitions :
  wp (loadConfig E W) st (λ r st',
    r = Ok tt
    ∧ storedOr1 (getField "stakeRepetitions" fields)
        (stakeRepetitions (dailyActivityConfig st'))
    ∧ storedOr1 (getField "unstakeRepetitions" fields)
        (unstakeRepetitions (dailyActivityConfig st'))
    ∧ storedOr1 (getField "claimRepetitions" fields)
        (claimRepetitions (dailyActivityConfig st'))).
Proof.
  pose proof (λ key, eq_refl : prop (JObj fields) key = inr (getField key fields)) as Hprop.
  unfold loadConfig. wp_go.
  split; [done|]. repeat split; apply num_or_storedOr1.
Qed.

End Config.

Lemma loadConfig_repetitions_witness :
  wp (loadConfig configEthers (sampleWorld 0 0 0 Pending)) initialState (λ r st',
    stakeRepetitions (dailyActivityConfig st') = Fin 1
    ∧ unstakeRepetitions (dailyActivityConfig st') = Fin 3
    ∧ claimRepetitions (dailyActivityConfig st') = Fin 1).
Proof.
  eapply wp_conseq.
  - apply (loadConfig_repetitions configEthers (sampleWorld 0 0 0 Pending) initialState
             EmptyString storedFields); reflexivity.
  - intros r st' (_ & (_ & Hzero & _) & (Hstored & _ & _) & (_ & _ & Habsent)).
    split; [|split].
    + apply (Hzero 0%Q); reflexivity.
    + apply (Hstored 3%Q); [reflexivity|discriminate].
    + apply Habsent. reflexivity.
Defined.

(** ** Credential source: starting without a key *)

Section Accounts.

Context (E : Ethers) (W : World) (st : State).

(** Without a key, loading the accounts logs the failure, leaves the list
    empty and returns. *)
Lemma loadAccounts_none :
  (∀ data, readFileSync W "pk.txt" = inr data -> trimmedLines data = []) ->
  wp (loadAccounts W) st (λ r st',
    r = Ok tt ∧ accounts st' = [] ∧ process st' = process st ∧ trace st' = trace st
    ∧ ∃ msg, transactionLogs st'
             = transactionLogs st ++ [("error", "Failed to load accounts: " +:+ msg)]).
Proof.
  intros Hnone. unfold loadAccounts.
  destruct (readFileSync W "pk.txt") as [msg|data] eqn:Hread.
  - wp_go. eauto 10.
  - specialize (Hnone data eq_refl). wp_go. eauto 10.
Qed.

(** Loading the configuration never fails and only touches the
    configuration and the log. *)
Lemma loadConfig_frame :
  wp (loadConfig E W) st (λ r st',
    r = Ok tt ∧ process st' = process st ∧ accounts st' = accounts st
    ∧ trace st' = trace st).
Proof. unfold loadConfig. wp_go; done. Qed.

End Accounts.

(** C9, as stated, fails: with [pk.txt] missing, and with [pk.txt] empty,
    the script starts, ends up with no account, and the process is still
    alive. *)
Lemma no_credentials_not_fatal :
  wp (main laxEthers (constWorld 0)) initialState (λ r st',
    r = Ok tt ∧ accounts st' = [] ∧ process st' = Alive)
  ∧ wp (main laxEthers (sampleWorld 0 0 0 Pending)) initialState (λ r st',
    r = Ok tt ∧ accounts st' = [] ∧ process st' = Alive).
Proof. split; unfold wp; vm_compute; by repeat split. Qed.

Section NoCredentials.

Context (E : Ethers) (W : World) (st : State).

(** [pk.txt] is missing, unreadable, or holds no key. *)
Hypothesis Hnone : ∀ data, readFileSync W "pk.txt" = inr data -> trimmedLines data = [].

Ltac in_log :=
  repeat (apply elem_of_app;
          first [ right; apply list_elem_of_singleton; reflexivity | left ]).

(** C9, amended. Starting without a key is not fatal: it is logged and
    survived. [main] returns, the process is as alive as before, the
    account list is empty and the failure is in the log; a cycle started
    from there logs "No valid accounts found.", touches nothing on the
    chain and returns. *)
Theorem no_credentials_survived :
  wp (main E W) st (λ r st',
    r = Ok tt ∧ process st' = process st ∧ accounts st' = []
    ∧ (∃ msg, ("error", "Failed to load accounts: " +:+ msg) ∈ transactionLogs st')
    ∧ wp (runDailyActivity E W) st' (λ r2 st2,
        r2 = Ok tt ∧ process st2 = process st' ∧ trace st2 = trace st'
        ∧ ("error", "No valid accounts found.") ∈ transactionLogs st2)).
Proof.
  unfold main, initialize. apply wp_tryCatch, wp_tryCatch, wp_bind.
  eapply wp_conseq; [apply loadConfig_frame|].
  intros r st1 (-> & Hp1 & _ & _). cbv beta iota. apply wp_bind.
  eapply wp_conseq; [apply (loadAccounts_none W st1 Hnone)|].
  intros r st2 (-> & Hacc & Hp2 & _ & msg & Hlog). cbv beta iota.
  unfold loadProxies, updateWallets, runDailyActivity.
  wp_go.
  all: split; [done|]; split; [congruence|]; split; [done|].
  all: split; [exists msg; rewrite Hlog; in_log|].
  all: wp_go.
  all: split; [done|]; split; [done|]; split; [done|]; in_log.
Qed.

End NoCredentials.

(** An empty [pk.txt]. *)
Lemma no_credentials_survived_witness :
  wp (main laxEthers (sampleWorld 0 0 0 Pending)) initialState (λ r st',
    r = Ok tt ∧ process st' = Alive ∧ accounts st' = []).
Proof.
  eapply wp_conseq.
  - apply (no_credentials_survived laxEthers (sampleWorld 0 0 0 Pending) initialState).
    intros data Hdata. injection Hdata as <-. reflexivity.
  - intros r st' (Hr & Hp & Ha & _). split; [exact Hr|]. split; [exact Hp|exact Ha].
Defined.


Create HintDb framed.

(** ** NonceTracker: refusals, reservations, failures *)

Section Reservations.

Context (E : Ethers) (W : World).
Context (walletAddress : string) (chainId : Z) (st : State).

Let key := nonceKey chainId walletAddress.

(** X1. [getNextNonce] refuses before it asks the chain anything: with a
    stop requested it throws "Process stopped", and otherwise, for an
    address the library does not accept, "Invalid wallet address". In both
    cases no read is made and the tracker is as before. *)
Theorem getNextNonce_refuses :
  shouldStop st = true ∨ isAddress E walletAddress = false ->
  wp (getNextNonce E W walletAddress chainId) st (λ r st',
    r = Err (Thrown (if shouldStop st then "Process stopped" else "Invalid wallet address"))
    ∧ nonceTracker st' = nonceTracker st
    ∧ trace st' = trace st ∧ tick st' = tick st).
Proof.
  intros Hwhy. unfold getNextNonce.
  destruct (shouldStop st) eqn:Hstop.
  - wp_go. done.
  - destruct Hwhy as [?|Haddr]; [done|]. wp_go. done.
Qed.

(** X2. When [getNextNonce] is let through and the chain answers
    [pending], it returns a nonce that is not below [pending], is above the
    recorded entry whenever that entry is not zero, and is either [pending]
    or the entry plus one; the nonce is recorded under the key of the
    wallet, and the entries under other keys are as before. *)
Theorem getNextNonce_reserves pending :
  shouldStop st = false ->
  isAddress E walletAddress = true ->
  read W (tick st) (QTransactionCount walletAddress) = Resolved pending ->
  ∃ n st',
    getNextNonce E W walletAddress chainId st = (Ok n, st')
    ∧ pending <= n
    ∧ (∀ last, nonceTracker st !! key = Some last -> last ≠ 0 -> last < n)
    ∧ (n = pending ∨ ∃ last, nonceTracker st !! key = Some last ∧ n = last + 1)
    ∧ nonceTracker st' !! key = Some n
    ∧ ∀ other, other ≠ key -> nonceTracker st' !! other = nonceTracker st !! other.
Proof.
  intros Hstop Haddr Hread.
  rewrite (getNextNonce_ok E W _ chainId _ pending Hstop Haddr Hread). fold key.
  do 2 eexists. split; [reflexivity|]. simpl.
  split; [|split; [|split; [|split]]].
  - unfold nextNonceOf, bigint_or.
    destruct (nonceTracker st !! key) as [last|]; [destruct (last =? 0)|];
      match goal with |- context [?a <? ?b] => destruct (Z.ltb_spec a b) end; lia.
  - intros last -> Hne. rewrite nextNonceOf_max by done. lia.
  - unfold nextNonceOf, bigint_or.
    destruct (nonceTracker st !! key) as [last|] eqn:Hl; [destruct (last =? 0)|];
      match goal with |- context [?a <? ?b] => destruct (Z.ltb_spec a b) end;
      first [left; lia | right; eexists; split; [reflexivity|lia]].
  - apply lookup_insert_eq.
  - intros other Hne. by apply lookup_insert_ne.
Qed.

(** X3. When the chain rejects the count of pending transactions,
    [getNextNonce] logs the failure and throws the same error again; the
    tracker is as before. *)
Theorem getNextNonce_chain_failure msg :
  shouldStop st = false ->
  isAddress E walletAddress = true ->
  read W (tick st) (QTransactionCount walletAddress) = Rejected msg ->
  wp (getNextNonce E W walletAddress chainId) st (λ r st',
    r = Err (External msg)
    ∧ nonceTracker st' = nonceTracker st
    ∧ transactionLogs st' = transactionLogs st ++
        [("error", "Failed to fetch nonce for " +:+ getShortAddress walletAddress +:+
                   " on chain " +:+ pretty chainId +:+ ": " +:+ msg)]).
Proof.
  intros Hstop Haddr Hread. unfold getNextNonce. wp_go. done.
Qed.

End Reservations.

Lemma getNextNonce_refuses_witness :
  wp (getNextNonce laxEthers (constWorld 0) "0xab" 17000) (set_shouldStop true initialState)
    (λ r st', r = Err (Thrown "Process stopped") ∧ trace st' = []).
Proof.
  eapply wp_conseq.
  - apply (getNextNonce_refuses laxEthers (constWorld 0) "0xab" 17000
             (set_shouldStop true initialState)).
    left. reflexivity.
  - intros r st' (Hr & _ & Ht & _). split; [exact Hr|exact Ht].
Defined.

Lemma getNextNonce_reserves_witness :
  ∃ st', getNextNonce laxEthers (constWorld 5) "0xab" 17000 initialState = (Ok 5, st')
         ∧ nonceTracker st' !! nonceKey 17000 "0xab" = Some 5.
Proof.
  destruct (getNextNonce_reserves laxEthers (constWorld 5) "0xab" 17000 initialState 5)
    as (n & st' & Hrun & Hle & _ & [Hn|(last & Hlast & _)] & Hkey & _);
    [reflexivity|reflexivity|reflexivity| |discriminate Hlast].
  exists st'. subst n. split; [exact Hrun|exact Hkey].
Defined.

Lemma getNextNonce_chain_failure_witness :
  wp (getNextNonce laxEthers deafWorld "0xab" 17000) initialState (λ r st',
    r = Err (External "request timeout") ∧ nonceTracker st' = ∅).
Proof.
  eapply wp_conseq.
  - apply (getNextNonce_chain_failure laxEthers deafWorld "0xab" 17000 initialState
             "request timeout"); reflexivity.
  - intros r st' (Hr & Hn & _). split; [exact Hr|exact Hn].
Defined.

Section ManyReservations.

Context (E : Ethers) (W : World).
Context (walletAddress : string) (chainId : Z) (pending : Z).

Let key := nonceKey chainId walletAddress.

Hypothesis Haddr : isAddress E walletAddress = true.
(** The pending count does not move while the reservations are made. *)
Hypothesis Hread : ∀ t, read W t (QTransactionCount walletAddress) = Resolved pending.
Hypothesis Hpending : 0 <= pending.

Lemma reservations_from k : ∀ st last,
  shouldStop st = false ->
  nonceTracker st !! key = Some last -> 0 < last -> pending <= last + 1 ->
  wp (reservations E W k walletAddress chainId) st (λ r st',
    r = Ok (seqZ (last + 1) (Z.of_nat k))
    ∧ shouldStop st' = false
    ∧ nonceTracker st' !! key = Some (last + Z.of_nat k)).
Proof.
  induction k as [|k IH]; intros st last Hstop Hlast Hne Hle.
  - simpl. apply wp_ret. rewrite Z.add_0_r. done.
  - cbn [reservations]. apply wp_bind.
    eapply wp_run; [apply (getNextNonce_ok E W _ chainId _ pending); done|].
    fold key. rewrite Hlast, nextNonceOf_max by lia.
    rewrite (Z.max_r pending (last + 1)) by exact Hle.
    apply wp_bind. eapply wp_conseq.
    { apply (IH _ (last + 1)); st_simpl; [done|apply lookup_insert_eq|lia|lia]. }
    intros r st' (-> & Hstop' & Hkey). apply wp_ret.
    split; [|split; [done|]].
    + rewrite (seqZ_cons (last + 1)) by lia. do 3 f_equal; lia.
    + rewrite Hkey. f_equal. lia.
Qed.

(** X4. While the chain keeps reporting the same count of pending
    transactions, reservations made one after the other for one wallet
    hand out consecutive nonces, provided the first of them is not zero;
    the tracker ends with the last nonce handed out. *)
Theorem reservations_consecutive k st :
  shouldStop st = false ->
  nextNonceOf (nonceTracker st !! key) pending ≠ 0 ->
  wp (reservations E W (S k) walletAddress chainId) st (λ r st',
    r = Ok (seqZ (nextNonceOf (nonceTracker st !! key) pending) (Z.of_nat (S k)))
    ∧ nonceTracker st' !! key
        = Some (nextNonceOf (nonceTracker st !! key) pending + Z.of_nat k)).
Proof.
  intros Hstop Hfirst. cbn [reservations]. apply wp_bind.
  eapply wp_run; [apply (getNextNonce_ok E W _ chainId _ pending); done|].
  fold key. set (first := nextNonceOf (nonceTracker st !! key) pending) in *.
  assert (Hle : pending <= first).
  { unfold first, nextNonceOf, bigint_or.
    destruct (nonceTracker st !! key) as [last|]; [destruct (last =? 0)|];
      match goal with |- context [?a <? ?b] => destruct (Z.ltb_spec a b) end; lia. }
  apply wp_bind. eapply wp_conseq.
  { apply (reservations_from k _ first); st_simpl; [done|apply lookup_insert_eq|lia|lia]. }
  intros r st' (-> & _ & Hkey). apply wp_ret. split; [|done].
  rewrite (seqZ_cons first) by lia. do 3 f_equal; lia.
Qed.

End ManyReservations.

Lemma reservations_consecutive_witness :
  wp (reservations laxEthers (constWorld 5) 3 "0xab" 17000) initialState (λ r st',
    r = Ok [5; 6; 7] ∧ nonceTracker st' !! nonceKey 17000 "0xab" = Some 7).
Proof.
  apply (reservations_consecutive laxEthers (constWorld 5) "0xab" 17000 5
           eq_refl (λ _, eq_refl) ltac:(lia) 2 initialState); [reflexivity|].
  vm_compute. discriminate.
Defined.

(** ** FeeEstimator: the gas cost *)

(** X5. The gas cost computed from the parameters of [getFeeParams]
    never throws: whatever the fee data, the parameters carry a fee other
    than zero, so [feeParams.gasPrice || feeParams.maxFeePerGas] is never
    [undefined] and the cost is that fee times the gas limit. *)
Theorem estimateGasCost_of_getFeeParams W gasLimit st :
  wp (feeParams ← getFeeParams W; estimateGasCost feeParams gasLimit) st (λ r st',
    (∀ e, r ≠ Err e)
    ∧ (getFeeData W (tick st) ≠ Pending -> ∃ fee, fee ≠ 0 ∧ r = Ok (fee * gasLimit))).
Proof.
  apply wp_bind. eapply wp_run; [apply getFeeParams_run|].
  assert (Hor : ∀ x, bigint_or x one_gwei ≠ 0).
  { intros [v|]; simpl; [destruct (Z.eqb_spec v 0)|]; done. }
  assert (Hfee : ∀ fd, ∃ fee, fee ≠ 0 ∧ gasFeeOf (feeParamsOf fd) = Some fee).
  { intros fd. unfold feeParamsOf, bigint_truthy.
    destruct (fd_maxFeePerGas fd) as [mf|]; simpl.
    2: { specialize (Hor (fd_gasPrice fd)). apply Z.eqb_neq in Hor as Hb. rewrite Hb. eauto. }
    destruct (Z.eqb_spec mf 0); simpl.
    { specialize (Hor (fd_gasPrice fd)). apply Z.eqb_neq in Hor as Hb. rewrite Hb. eauto. }
    destruct (fd_maxPriorityFeePerGas fd) as [mp|]; simpl.
    2: { specialize (Hor (fd_gasPrice fd)). apply Z.eqb_neq in Hor as Hb. rewrite Hb. eauto. }
    destruct (Z.eqb_spec mp 0); simpl; [|eauto].
    specialize (Hor (fd_gasPrice fd)). apply Z.eqb_neq in Hor as Hb. rewrite Hb. eauto. }
  destruct (getFeeData W (tick st)) as [fd|msg|]; unfold estimateGasCost.
  - destruct (Hfee fd) as (fee & Hne & ->). apply wp_ret. split; [done|]. eauto.
  - simpl. apply wp_ret. split; [done|]. intros _. by exists one_gwei.
  - done.
Qed.

(** ** Provider set-up *)

Section Provider.

Context (E : Ethers) (W : World).


(** X7. Each of the five operations, given a proxy whose agent cannot
    be constructed, throws the error of [getProvider] right after it is
    entered: nothing is read from the chain and nothing is sent. *)
Theorem operations_need_a_provider wallet direction amount url msg st :
  newProxyAgent E url = inl msg ->
  let failure := Err (Thrown ("Failed to initialize provider for chain " +:+
                              pretty (chainId direction))) in
  wp (performStake E W wallet direction amount (Some url)) st (λ r st',
    r = failure ∧ tick st' = tick st
    ∧ trace st' = trace st ++ [EvPerform Stake (address wallet) (Some amount)])
  ∧ wp (performUnstake E W wallet direction amount (Some url)) st (λ r st',
    r = failure ∧ tick st' = tick st
    ∧ trace st' = trace st ++ [EvPerform Unstake (address wallet) (Some amount)])
  ∧ wp (performClaim E W wallet direction (Some url)) st (λ r st',
    r = failure ∧ tick st' = tick st
    ∧ trace st' = trace st ++ [EvPerform Claim (address wallet) None])
  ∧ wp (performWrap E W wallet direction amount (Some url)) st (λ r st',
    r = failure ∧ tick st' = tick st
    ∧ trace st' = trace st ++ [EvPerform Wrap (address wallet) (Some amount)])
  ∧ wp (performUnwrap E W wallet direction amount (Some url)) st (λ r st',
    r = failure ∧ tick st' = tick st
    ∧ trace st' = trace st ++ [EvPerform Unwrap (address wallet) (Some amount)]).
Proof.
  intros Hagent failure. unfold failure.
  split; [|split; [|split; [|split]]].
  all: unfold performStake, performUnstake, performClaim, performWrap, performUnwrap,
         getProvider; cbn [getProviderFrom createAgent]; rewrite Hagent;
       unfold sleepDetached; wp_go; done.
Qed.

End Provider.


Lemma operations_need_a_provider_witness :
  wp (performWrap noAgentEthers (constWorld 0) sampleWallet holesky "0.0100"
        (Some "socks5://proxy")) initialState (λ r st',
    r = Err (Thrown "Failed to initialize provider for chain 17000")
    ∧ trace st' = [EvPerform Wrap "0xAb" (Some "0.0100")]).
Proof.
  edestruct (operations_need_a_provider noAgentEthers (constWorld 0) sampleWallet holesky
               "0.0100" "socks5://proxy" "Invalid URL" initialState)
    as (_ & _ & _ & Hwrap & _); [reflexivity|].
  eapply wp_conseq; [exact Hwrap|].
  intros r st' (Hr & _ & Ht). split; [exact Hr|exact Ht].
Defined.

(** ** TransactionExecutor: after the broadcast *)

Section AfterBroadcast.

Context (E : Ethers) (W : World).
Context (wallet : Wallet) (direction : direction) (amount : string)
        (proxyUrl : option string) (st : State).
Context (amountWei allowance tokenBalance nativeBalance pending gasFee : Z)
        (fd : FeeData) (hash : string).
Context (count createdAt coolDown now : Z).

Let addr := toLowerCase (address wallet).
Let key := nonceKey (chainId direction) addr.

(** The operation needs no approval and gets as far as the broadcast,
    which is accepted ... *)
Hypothesis Hagent : createAgent E proxyUrl = inr tt.
Hypothesis Hparse : parseEther E amount = inr amountWei.
Hypothesis Htoken : ∀ t token, read W t (QBalanceOf token addr) = Resolved tokenBalance.
Hypothesis Hnative : ∀ t, read W t (QGetBalance addr) = Resolved nativeBalance.
Hypothesis Hallow :
  ∀ t token spender, read W t (QAllowance token (address wallet) spender) = Resolved allowance.
Hypothesis Hfee : ∀ t, getFeeData W t = Resolved fd.
Hypothesis HgasFee : gasFeeOf (feeParamsOf fd) = Some gasFee.
Hypothesis Hpending : ∀ t, read W t (QTransactionCount addr) = Resolved pending.
Hypothesis Hstop : shouldStop st = false.
Hypothesis Haddr : isAddress E addr = true.
Hypothesis Hcount : ∀ t, read W t (QOutstandingWithdrawRequests addr) = Resolved count.
Hypothesis HcreatedAt : ∀ t, read W t (QWithdrawRequestCreatedAt addr 0) = Resolved createdAt.
Hypothesis HcoolDown : ∀ t, read W t QCoolDownPeriod = Resolved coolDown.
Hypothesis Hnow : ∀ t, read W t QLatestBlockTimestamp = Resolved now.
Hypothesis Hsome : count ≠ 0.
Hypothesis Hready : createdAt + coolDown <= now.
Hypothesis Hbal : amountWei <= tokenBalance.
Hypothesis Hall : amountWei <= allowance.
Hypothesis Hgas : amountWei + gasFee * 650000 <= nativeBalance.
Hypothesis Hamount : 0 <= amountWei.
Hypothesis HgasPos : 0 <= gasFee.
Hypothesis Hsend : ∀ t tx, sendTransaction W t (address wallet) tx = Resolved hash.
(** How the operation ends, by the way [w] the wait for the receipt ends.
    The library reports a reverted transaction by rejecting the wait, so a
    receipt of status zero is not among the cases. *)
Let ends (w : Settle) (r : res unit) : Prop :=
  (∀ ms status, w = Settled ms (inr status) -> ms < 300000 -> status ≠ 0 -> r = Ok tt)
  ∧ (∀ ms msg, w = Settled ms (inl msg) -> ms < 300000 -> r = Err (External msg))
  ∧ (w = Never ∨ (∃ ms x, w = Settled ms x ∧ 300000 < ms) ->
       r = Err (Thrown "Transaction confirmation timed out")).

Let after (w : Settle) (r : res unit) (st' : State) : Prop :=
  ends w r
  ∧ nonceTracker st' !! key = Some (nextNonceOf (nonceTracker st !! key) pending)
  ∧ ∃ evs tx, trace st' = trace st ++ evs ∧ sentTxs evs = [(address wallet, tx)].

Ltac after_leaf :=
  unfold after, ends; st_simpl;
  split; [|split; [apply lookup_insert_eq|
                   rewrite <- ?app_assoc; do 2 eexists; split; reflexivity]];
  z_facts;
  (split; [|split]); intros;
  repeat match goal with
  | H : _ ∨ _ |- _ => destruct H
  | H : ∃ _, _ |- _ => destruct H
  | H : _ ∧ _ |- _ => destruct H
  end;
  repeat match goal with
  | H : Settled _ _ = Settled _ _ |- _ => injection H as ? ?
  | H : inl _ = inl _ |- _ => injection H as ?
  | H : inr _ = inr _ |- _ => injection H as ?
  end;
  first [done | congruence | lia].

Ltac after_broadcast :=
  unfold getProvider, getProviderFrom, approveToken, estimateGasCost,
    getNextNonce, onSendError, timeoutMs;
  fold addr; fold key; wp_go; try (exfalso; z_facts; lia); after_leaf.

(** X8. For an operation that needs no approval (a claim, a wrap, an
    unwrap, or a stake or unstake whose allowance covers the amount) and
    whose amount fits a [uint256]: once its broadcast is accepted, that
    transaction is the only one sent, and the reserved nonce stays in the
    tracker however the wait for the receipt ends, also when the text of a
    failure mentions a nonce. A receipt within the time limit ends the
    operation normally; a rejected wait throws its own error; a wait that
    outlasts the limit, or never ends, throws "Transaction confirmation
    timed out". *)
Theorem failure_after_broadcast w :
  amountWei <= MAX_UINT256 ->
  (∀ t, wait W t hash = w) ->
  wp (performStake E W wallet direction amount proxyUrl) st (after w)
  ∧ wp (performUnstake E W wallet direction amount proxyUrl) st (after w)
  ∧ wp (performClaim E W wallet direction proxyUrl) st (after w)
  ∧ wp (performWrap E W wallet direction amount proxyUrl) st (after w)
  ∧ wp (performUnwrap E W wallet direction amount proxyUrl) st (after w).
Proof.
  intros Hrange Hwait.
  split; [|split; [|split; [|split]]].
  - unfold performStake. after_broadcast.
  - unfold performUnstake. after_broadcast.
  - unfold performClaim. after_broadcast.
  - unfold performWrap. after_broadcast.
  - unfold performUnwrap. after_broadcast.
Qed.

End AfterBroadcast.

(** A wrap whose wait for the receipt is rejected with a text that
    mentions a nonce: the error reaches the caller and nonce 5 stays
    reserved. *)
Lemma failure_after_broadcast_witness :
  wp (performWrap laxEthers
        (settlingWorld
           (sampleWorld 20000000000000000 20000000000000000 20000000000000000
              (Resolved "0xhash00000000"))
           (Settled 1000 (inl "nonce has already been used")))
        sampleWallet holesky "0.0100" None) initialState (λ r st',
    r = Err (External "nonce has already been used")
    ∧ nonceTracker st' !! nonceKey 17000 "0xab" = Some 5).
Proof.
  edestruct (failure_after_broadcast laxEthers
               (settlingWorld
                  (sampleWorld 20000000000000000 20000000000000000 20000000000000000
                     (Resolved "0xhash00000000"))
                  (Settled 1000 (inl "nonce has already been used")))
               sampleWallet holesky "0.0100" None initialState
               10000000000000000 20000000000000000 20000000000000000 20000000000000000
               5 7 sampleFeeData "0xhash00000000" 1 100 50 150)
    as (_ & _ & _ & Hwrap & _).
  1-24: first [reflexivity | lia | discriminate | intros; reflexivity
              | intros; simpl; reflexivity | by vm_compute].
  eapply wp_conseq; [exact Hwrap|].
  intros r st' ((_ & Hreject & _) & Hkey & _). split; [|exact Hkey].
  apply (Hreject 1000); [reflexivity|lia].
Defined.

(** ** OperationRunner: what a wrap or an unwrap can send *)

Section SwapSends.

Context (E : Ethers) (W : World).
Context (wallet : Wallet) (direction : direction) (amount : string)
        (proxyUrl : option string) (st : State).

Let addr := toLowerCase (address wallet).

Ltac sends_leaf :=
  rewrite <- ?app_assoc; eexists; (split; [reflexivity|]); simpl;
  (split; [lia|]);
  split;
  [ intros sender tx Hin;
    repeat (apply elem_of_cons in Hin as [Hin|Hin];
            [injection Hin as -> ->; simpl; z_facts;
             repeat split;
             first [done | lia | eexists; split; [first [eassumption|reflexivity]|lia]
                   | do 2 eexists; repeat split; first [done | eassumption | lia]]|]);
    by apply elem_of_nil in Hin
  | first [ intros Hok; first [discriminate Hok | reflexivity] ] ].

Ltac sends :=
  unfold getProvider, getProviderFrom, sleepDetached, estimateGasCost, getNextNonce,
    onSendError;
  fold addr; wp_go; sends_leaf.

(** X9. Whatever the chain answers, a wrap or an unwrap sends at most
    one transaction, and exactly one when it returns normally. The
    transaction goes from the wallet to the WETH contract with gas limit
    100000; a wrap carries the parsed amount as its value and an unwrap
    carries it in the call, and either is sent only after the balance read
    at the start covered the amount. *)
Theorem swap_sends_at_most_once :
  wp (performWrap E W wallet direction amount proxyUrl) st (λ r st',
    ∃ evs, trace st' = trace st ++ evs
    ∧ (length (sentTxs evs) <= 1)%nat
    ∧ (∀ sender tx, (sender, tx) ∈ sentTxs evs ->
         sender = address wallet ∧ tx_to tx = WETH_ADDRESS
         ∧ tx_data tx = CallWethDeposit ∧ tx_gasLimit tx = 100000
         ∧ parseEther E amount = inr (tx_value tx)
         ∧ ∃ balance, read W (tick st) (QGetBalance addr) = Resolved balance
                      ∧ tx_value tx <= balance)
    ∧ (r = Ok tt -> length (sentTxs evs) = 1%nat))
  ∧ wp (performUnwrap E W wallet direction amount proxyUrl) st (λ r st',
    ∃ evs, trace st' = trace st ++ evs
    ∧ (length (sentTxs evs) <= 1)%nat
    ∧ (∀ sender tx, (sender, tx) ∈ sentTxs evs ->
         sender = address wallet ∧ tx_to tx = WETH_ADDRESS
         ∧ tx_value tx = 0 ∧ tx_gasLimit tx = 100000
         ∧ ∃ amountWei balance,
             parseEther E amount = inr amountWei
             ∧ tx_data tx = CallWethWithdraw amountWei
             ∧ read W (tick st) (QBalanceOf WETH_ADDRESS addr) = Resolved balance
             ∧ amountWei <= balance)
    ∧ (r = Ok tt -> length (sentTxs evs) = 1%nat)).
Proof.
  split.
  - unfold performWrap. sends.
  - unfold performUnwrap. sends.
Qed.

End SwapSends.

(** ** CycleScheduler: the random draws *)

Section Draws.

Context (W : World) (st : State).

(** [Math.random()] answers in the half-open unit interval. *)
Hypothesis Hunit : (0 <= random W (draws st))%Q ∧ (random W (draws st) < 1)%Q.

(** X10. With [Math.random()] answering in the half-open unit interval,
    the delay drawn between two operations lies between 10000 and 15000
    milliseconds, both included, and takes one draw. *)
Theorem randomDelay_in_bounds :
  wp (randomDelay W) st (λ r st',
    ∃ delay, r = Ok delay ∧ 10000 <= delay <= 15000 ∧ draws st' = S (draws st)).
Proof.
  destruct Hunit as [H0 H1].
  unfold randomDelay. wp_go. eexists. split; [reflexivity|]. split; [|done].
  unfold delayOf.
  assert (0 <= Qfloor (random W (draws st) * 5001) <= 5000); [|lia].
  split.
  - change 0 with (Qfloor 0). apply Qfloor_resp_le.
    apply Qmult_le_0_compat; [done|discriminate].
  - apply Z.lt_succ_r. rewrite Zlt_Qlt.
    eapply Qle_lt_trans; [apply Qfloor_le|].
    change (inject_Z (Z.succ 5000)) with (1 * 5001)%Q.
    apply Qmult_lt_compat_r; [reflexivity|done].
Qed.

End Draws.

Lemma randomDelay_in_bounds_witness :
  wp (randomDelay (sampleWorld 0 0 0 Pending)) initialState (λ r st',
    ∃ delay, r = Ok delay ∧ 10000 <= delay <= 15000 ∧ draws st' = 1%nat).
Proof.
  apply (randomDelay_in_bounds (sampleWorld 0 0 0 Pending) initialState).
  split; [discriminate|reflexivity].
Defined.

(** ** Credential source: the lines of a file *)

Lemma afterPrefix_Some p l rest : afterPrefix p l = Some rest ↔ l = p ++ rest.
Proof.
  revert l. induction p as [|a p IH]; intros l; simpl.
  - split; [by intros [= ->]|by intros ->].
  - destruct l as [|b l]; [done|].
    destruct (Ascii.eqb_spec a b) as [->|Hne].
    + rewrite IH. split; [by intros ->|by intros [= ->]].
    + split; [done|]. intros [= ? ?]. congruence.
Qed.

Lemma afterAny_Some marks l rest :
  afterAny marks l = Some rest -> ∃ p, p ∈ marks ∧ l = p ++ rest.
Proof.
  induction marks as [|p marks IH]; simpl; [done|].
  destruct (afterPrefix p l) as [r|] eqn:Hp.
  - intros [= ->]. exists p. split; [left|]. by apply afterPrefix_Some.
  - intros H. destruct (IH H) as (q & Hq & ->). exists q. split; [by right|done].
Qed.

Lemma afterAny_None marks l p rest :
  afterAny marks l = None -> p ∈ marks -> l ≠ p ++ rest.
Proof.
  induction marks as [|q marks IH]; simpl; [by intros _ ?%elem_of_nil|].
  destruct (afterPrefix q l) as [r|] eqn:Hq; [done|].
  intros Hnone [->|Hin]%elem_of_cons Hl.
  - apply afterPrefix_Some in Hl. congruence.
  - by apply (IH Hnone Hin).
Qed.

Section Marks.

Context (marks : list (list ascii)).
Hypothesis Hmarks : Forall (λ p, p ≠ []) marks.

Lemma afterAny_shorter l rest :
  afterAny marks l = Some rest -> (length rest < length l)%nat.
Proof.
  intros (p & Hp & ->)%afterAny_Some. rewrite length_app.
  rewrite Forall_forall in Hmarks. specialize (Hmarks p Hp).
  destruct p; [done|simpl; lia].
Qed.

(** With fuel for every byte, nothing is left to drop. *)
Lemma dropMarks_clean fuel : ∀ l,
  (length l <= fuel)%nat -> afterAny marks (dropMarks marks fuel l) = None.
Proof.
  induction fuel as [|fuel IH]; intros l Hlen; simpl.
  - destruct l; [|simpl in Hlen; lia].
    destruct (afterAny marks []) as [rest|] eqn:Hr; [|done].
    apply afterAny_shorter in Hr. simpl in Hr. lia.
  - destruct (afterAny marks l) as [rest|] eqn:Hr; [|done].
    apply IH. apply afterAny_shorter in Hr. lia.
Qed.

Lemma dropMarks_id fuel l : afterAny marks l = None -> dropMarks marks fuel l = l.
Proof. intros Hl. destruct fuel; simpl; [done|by rewrite Hl]. Qed.

(** What is dropped is dropped from the front. *)
Lemma dropMarks_suffix fuel : ∀ l, ∃ front, l = front ++ dropMarks marks fuel l.
Proof.
  induction fuel as [|fuel IH]; intros l; simpl; [by exists []|].
  destruct (afterAny marks l) as [rest|] eqn:Hr; [|by exists []].
  apply afterAny_Some in Hr as (p & _ & ->).
  destruct (IH rest) as (front & Hfront). exists (p ++ front).
  by rewrite <- app_assoc, <- Hfront.
Qed.

End Marks.

Lemma whiteSpace_marks : Forall (λ p, p ≠ []) whiteSpace.
Proof. unfold whiteSpace. simpl. repeat constructor; discriminate. Qed.

Lemma whiteSpace_reverse_marks : Forall (λ p, p ≠ []) (reverse <$> whiteSpace).
Proof. unfold whiteSpace. simpl. repeat constructor; discriminate. Qed.

Lemma trimStart_clean l : afterAny whiteSpace (trimStart l) = None.
Proof. apply (dropMarks_clean _ whiteSpace_marks). done. Qed.

Lemma trimEnd_clean l :
  afterAny (reverse <$> whiteSpace) (reverse (trimEnd l)) = None.
Proof.
  unfold trimEnd. rewrite reverse_involutive.
  apply (dropMarks_clean _ whiteSpace_reverse_marks). by rewrite length_reverse.
Qed.

Lemma trimEnd_prefix l : ∃ back, l = trimEnd l ++ back.
Proof.
  unfold trimEnd.
  destruct (dropMarks_suffix (reverse <$> whiteSpace) (length l) (reverse l))
    as (front & Hfront).
  exists (reverse front).
  rewrite <- reverse_app, <- Hfront. by rewrite reverse_involutive.
Qed.

(** Trimming the end leaves the start alone. *)
Lemma trimEnd_keeps_start l :
  afterAny whiteSpace l = None -> afterAny whiteSpace (trimEnd l) = None.
Proof.
  intros Hl. destruct (afterAny whiteSpace (trimEnd l)) as [rest|] eqn:Hr; [|done].
  apply afterAny_Some in Hr as (p & Hp & Hr).
  destruct (trimEnd_prefix l) as (back & Hback).
  exfalso. apply (afterAny_None _ _ p (rest ++ back) Hl Hp).
  rewrite Hback at 1. rewrite Hr. by rewrite app_assoc.
Qed.

Lemma trimEnd_idem l : trimEnd (trimEnd l) = trimEnd l.
Proof.
  pose proof (trimEnd_clean l) as Hc.
  unfold trimEnd at 1. by rewrite (dropMarks_id _ _ _ Hc), reverse_involutive.
Qed.

(** Trimming a trimmed line changes nothing. *)
Lemma trim_idem s : trim (trim s) = trim s.
Proof.
  unfold trim. rewrite list_ascii_of_string_of_list_ascii. f_equal.
  pose proof (trimEnd_keeps_start _ (trimStart_clean (list_ascii_of_string s))) as Hc.
  unfold trimStart at 1. rewrite (dropMarks_id _ _ _ Hc). apply trimEnd_idem.
Qed.

Lemma trimmedLines_spec data k :
  k ∈ trimmedLines data -> k ≠ EmptyString ∧ trim k = k.
Proof.
  unfold trimmedLines. intros Hin. apply list_elem_of_In, List.filter_In in Hin as [Hin Hne].
  apply List.in_map_iff in Hin as (l & <- & _). split.
  - intros Heq. rewrite Heq in Hne. discriminate.
  - apply trim_idem.
Qed.

Section Accounts.

Context (W : World) (st : State) (data : string).

Hypothesis Hread : readFileSync W "pk.txt" = inr data.
Hypothesis Hsome : trimmedLines data ≠ [].

(** X11. From a readable [pk.txt] with at least one key, [loadAccounts]
    takes the lines in their order, trimmed, the empty ones left out: no
    account is empty and none starts or ends with white space. The number
    loaded is logged. *)
Theorem loadAccounts_trimmed_lines :
  wp (loadAccounts W) st (λ r st',
    r = Ok tt
    ∧ accounts st' = trimmedLines data
    ∧ (∀ key, key ∈ accounts st' -> key ≠ EmptyString ∧ trim key = key)
    ∧ transactionLogs st' = transactionLogs st ++
        [("success", "Loaded " +:+ pretty (length (trimmedLines data)) +:+
                     " accounts from pk.txt")]).
Proof.
  unfold loadAccounts. wp_go.
  - apply Nat.eqb_eq in Heqb. by destruct (trimmedLines data).
  - split; [done|]. split; [done|]. split; [|done].
    intros key Hin. by apply (trimmedLines_spec data).
Qed.

End Accounts.

Lemma loadAccounts_trimmed_lines_witness :
  wp (loadAccounts keysWorld) initialState (λ r st',
    r = Ok tt ∧ accounts st' = ["key1"; "key2"]).
Proof.
  eapply wp_conseq.
  - apply (loadAccounts_trimmed_lines keysWorld initialState _ eq_refl). discriminate.
  - intros r st' (Hr & Hacc & _). split; [exact Hr|]. rewrite Hacc. reflexivity.
Defined.

(** ** The proxy of an account *)

(** X12. The proxy of an account is an entry of the proxy list and never
    the empty text; the list is gone through cyclically, so the account
    [length proxies] further on gets the same proxy; an account within the
    list gets the entry at its own index; and without proxies there is
    none. *)
Theorem proxyFor_wraps (proxies : list string) (accountIndex : Z) :
  0 <= accountIndex ->
  (∀ url, proxyFor proxies accountIndex = Some url -> url ∈ proxies ∧ url ≠ EmptyString)
  ∧ proxyFor proxies (accountIndex + Z.of_nat (length proxies)) = proxyFor proxies accountIndex
  ∧ (∀ url, proxies !! Z.to_nat accountIndex = Some url -> url ≠ EmptyString ->
       proxyFor proxies accountIndex = Some url)
  ∧ (proxies = [] -> proxyFor proxies accountIndex = None).
Proof.
  intros Hidx. split; [|split; [|split]].
  - intros url. unfold proxyFor. destruct proxies as [|p ps] eqn:Hp; [done|].
    destruct (_ !! _) as [[|c u]|] eqn:Hl; [done| |done].
    intros [= <-]. split; [|done]. by eapply list_elem_of_lookup_2.
  - unfold proxyFor. destruct proxies as [|p ps] eqn:Hp; [done|]. rewrite <- Hp.
    replace ((accountIndex + Z.of_nat (length proxies)) `mod` Z.of_nat (length proxies))
      with (accountIndex `mod` Z.of_nat (length proxies)); [done|].
    rewrite <- (Z.mul_1_l (Z.of_nat (length proxies))) at 2.
    rewrite Z.mod_add; [done|]. rewrite Hp. simpl. lia.
  - intros url Hl Hne. unfold proxyFor. destruct proxies as [|p ps] eqn:Hp; [done|].
    rewrite <- Hp in *. apply lookup_lt_Some in Hl as Hlt.
    rewrite Z.mod_small by lia. rewrite Hl. by destruct url.
  - intros ->. done.
Qed.

Lemma proxyFor_wraps_witness :
  proxyFor ["http://a"; "http://b"] (1 + 2) = proxyFor ["http://a"; "http://b"] 1
  ∧ proxyFor ["http://a"; "http://b"] 1 = Some "http://b".
Proof.
  destruct (proxyFor_wraps ["http://a"; "http://b"] 1) as (_ & Hwrap & Hsmall & _); [lia|].
  split; [exact Hwrap|]. apply Hsmall; [reflexivity|discriminate].
Defined.


(** ** ConfigStore: all or nothing *)

(** X13. [loadConfig] never throws and loads all or nothing: either the
    configuration is as before and one line was logged (no file, or a file
    that cannot be read or parsed, or holds [null]), or every setting is a
    number other than zero and [NaN] and nothing was logged. The accounts,
    the proxies and the trace are not touched. *)
Theorem loadConfig_all_or_nothing E W st :
  wp (loadConfig E W) st (λ r st',
    r = Ok tt
    ∧ accounts st' = accounts st ∧ proxies st' = proxies st ∧ trace st' = trace st
    ∧ ((dailyActivityConfig st' = dailyActivityConfig st
        ∧ ∃ entry, transactionLogs st' = transactionLogs st ++ [entry])
       ∨ (truthyConfig (dailyActivityConfig st') = true
          ∧ transactionLogs st' = transactionLogs st))).
Proof.
  assert (Hor : ∀ a b, truthy b = true -> truthy (num_or a b) = true).
  { intros a b Hb. unfold num_or. by destruct (truthy a) eqn:Ha. }
  unfold loadConfig. wp_go.
  all: repeat (split; [done|]).
  all: try (exfalso;
            match goal with
            | H1 : prop ?j _ = inr _, H2 : prop ?j _ = inl _ |- _ =>
                by destruct j
            end).
  all: first [ left; split; [done|]; eexists; done | right ].
  all: split; [|done].
  all: unfold truthyConfig; simpl; rewrite !Hor by done; done.
Qed.

(** ** The proxy list *)

(** X14. [loadProxies] never throws and never logs an error: without
    [proxy.txt] the proxy list is as before; with it, the list becomes the
    trimmed lines of the file, or empty when the file cannot be read. *)
Theorem loadProxies_cases W st :
  wp (loadProxies W) st (λ r st',
    r = Ok tt ∧ accounts st' = accounts st ∧ trace st' = trace st
    ∧ (∀ type msg, (type, msg) ∈ transactionLogs st' ->
         (type, msg) ∈ transactionLogs st ∨ type ≠ "error")
    ∧ (existsSync W "proxy.txt" = false -> proxies st' = proxies st)
    ∧ (existsSync W "proxy.txt" = true ->
         match readFileSync W "proxy.txt" with
         | inr data => proxies st' = trimmedLines data
         | inl _ => proxies st' = []
         end)).
Proof.
  unfold loadProxies. wp_go.
  all: repeat (split; [done|]).
  all: split;
    [ intros type msg Hin;
      repeat (apply elem_of_app in Hin as [Hin|Hin];
              [|apply list_elem_of_singleton in Hin; injection Hin as -> ->;
                right; discriminate]);
      by left |].
  all: split; intros Hx; try discriminate Hx; try done.
  apply Nat.eqb_eq in Heqb0. by destruct (trimmedLines s).
Qed.

(** ** Sleeping *)

(** X15. With a stop requested, [sleep] returns at once: it does not
    wait, leaves [activeProcesses] and the stop flag as they are, and logs
    "Process stopped successfully." only if that was not logged before;
    every later [sleep] changes nothing at all. *)
Theorem sleep_when_stopped ms st :
  shouldStop st = true ->
  wp (sleep ms) st (λ r st',
    r = Ok tt
    ∧ tick st' = tick st ∧ trace st' = trace st
    ∧ activeProcesses st' = activeProcesses st
    ∧ shouldStop st' = true
    ∧ hasLoggedSleepInterrupt st' = true
    ∧ transactionLogs st' =
        transactionLogs st ++
        (if hasLoggedSleepInterrupt st then []
         else [("info", "Process stopped successfully.")])
    ∧ ∀ ms', wp (sleep ms') st' (λ r2 st2, r2 = Ok tt ∧ st2 = st')).
Proof.
  intros Hstop. unfold sleep at 1. wp_go.
  all: repeat (split; [first [done | by rewrite app_nil_r]|]).
  all: intros ms'; unfold sleep; wp_go; done.
Qed.

Lemma sleep_when_stopped_witness :
  wp (sleep 10000) (set_shouldStop true initialState) (λ r st',
    r = Ok tt ∧ tick st' = O
    ∧ transactionLogs st' = [("info", "Process stopped successfully.")]).
Proof.
  eapply wp_conseq.
  - apply (sleep_when_stopped 10000 (set_shouldStop true initialState)). reflexivity.
  - intros r st' (Hr & Ht & _ & _ & _ & _ & Hlog & _).
    split; [exact Hr|]. split; [exact Ht|exact Hlog].
Defined.

(** ** CycleScheduler: a key that is no key *)

Section BadKey.

Context (E : Ethers) (W : World) (st : State).
Context (key msg : string) (rest : list string).

Hypothesis Haccounts : accounts st = key :: rest.
Hypothesis Hbad : walletAddress E key = inl msg.

(** X16. When the first key of the list is one the library rejects, the
    cycle ends there: "Daily activity failed: ..." is logged and the cycle
    returns normally, but no operation was entered for any account, the
    chain was not asked anything, and no next cycle was armed. *)
Theorem bad_key_ends_the_cycle :
  wp (runDailyActivity E W) st (λ r st',
    r = Ok tt
    ∧ trace st' = trace st ∧ tick st' = tick st
    ∧ ("error", "Daily activity failed: " +:+ msg) ∈ transactionLogs st'
    ∧ dailyActivityInterval st' = dailyActivityInterval st
    ∧ nonceTracker st' = ∅
    ∧ activityRunning st' = false).
Proof.
  assert (Hkey : accounts st !! Z.to_nat 0 = Some key) by (by rewrite Haccounts).
  unfold runDailyActivity. wp_go.
  rewrite Nat2Z.id. cbn [length forLoop]. wp_go.
  unfold processAccount. wp_go.
  repeat (split; [done|]). split; [|done].
  apply elem_of_app. right. by apply list_elem_of_singleton.
Qed.

End BadKey.

Lemma bad_key_ends_the_cycle_witness :
  wp (runDailyActivity strictEthers (constWorld 0))
     (set_accounts ["bad"; "key2"] initialState) (λ r st',
    r = Ok tt ∧ trace st' = []).
Proof.
  eapply wp_conseq.
  - apply (bad_key_ends_the_cycle strictEthers (constWorld 0)
             (set_accounts ["bad"; "key2"] initialState) "bad" "invalid private key"
             ["key2"]); reflexivity.
  - intros r st' (Hr & Ht & _). split; [exact Hr|exact Ht].
Defined.

(** ** Relations kept by the operations and the passes of the cycle *)

Section Frames.

Context (R : State -> State -> Prop) (HR : Frame R).

(** The bound on the counts goes along with the relation. *)
Lemma frame_bounded st st' :
  R st st' -> countsBounded (dailyActivityConfig st) = true ->
  countsBounded (dailyActivityConfig st') = true.
Proof. intros Hr Hb. by rewrite (frame_config R HR _ _ Hr). Qed.

Lemma sure_keeps {A} (m : M A) : Sure R m -> Keeps R m.
Proof. intros Hm st Hb. destruct (Hm st Hb) as [[a Ha] Hr]. rewrite Ha. done. Qed.

Lemma sure_ret {A} (a : A) : Sure R (mret a).
Proof. intros st _. split; [by eexists|apply HR]. Qed.

Lemma sure_gets {A} (f : State -> A) : Sure R (gets f).
Proof. intros st _. split; [by eexists|apply HR]. Qed.

Lemma keeps_throw {A} e : Keeps R (throw (A := A) e).
Proof. intros st _. split; [done|apply HR]. Qed.

Lemma keeps_call {A} (r : string + A) : Keeps R (call r).
Proof. intros st _. split; [by destruct r|apply HR]. Qed.

Lemma sure_modify (f : State -> State) : (∀ st, R st (f st)) -> Sure R (modify f).
Proof. intros Hf st _. split; [by eexists|apply Hf]. Qed.

Lemma sure_addLog msg type : Sure R (addLog msg type).
Proof.
  intros st _. unfold addLog.
  destruct (String.eqb type "debug" && negb isDebug)%bool;
    (split; [by eexists|]); [apply HR|apply (frame_transactionLogs R HR)].
Qed.

Lemma sure_emit e : Sure R (emit e).
Proof. intros st _. split; [by eexists|apply (frame_trace R HR)]. Qed.

Lemma sure_suspend : Sure R suspend.
Proof. intros st _. split; [by eexists|apply (frame_tick R HR)]. Qed.

Lemma sure_mathRandom W : Sure R (mathRandom W).
Proof. intros st _. split; [by eexists|apply (frame_draws R HR)]. Qed.

Lemma keeps_bind {A B} (m : M B) (f : B -> M A) :
  Keeps R m -> (∀ b, Keeps R (f b)) -> Keeps R (m ≫= f).
Proof.
  intros Hm Hf st Hb. rewrite bind_run. specialize (Hm st Hb).
  destruct (m st) as [[b|e|] st1]; simpl in Hm; destruct Hm as [Hn Hr]; [|done..].
  destruct (Hf b st1 (frame_bounded _ _ Hr Hb)) as [Hn' Hr'].
  split; [done|]. by eapply (frame_trans R HR).
Qed.

Lemma sure_bind {A B} (m : M B) (f : B -> M A) :
  Sure R m -> (∀ b, Sure R (f b)) -> Sure R (m ≫= f).
Proof.
  intros Hm Hf st Hb. rewrite bind_run. specialize (Hm st Hb).
  destruct (m st) as [r st1]; simpl in Hm; destruct Hm as [[b ->] Hr].
  destruct (Hf b st1 (frame_bounded _ _ Hr Hb)) as [Hn' Hr'].
  split; [done|]. by eapply (frame_trans R HR).
Qed.

Lemma keeps_tryCatch {A} (body : M A) (handler : error -> M A) :
  Keeps R body -> (∀ e, Keeps R (handler e)) -> Keeps R (tryCatch body handler).
Proof.
  intros Hm Hh st Hb. unfold tryCatch. specialize (Hm st Hb).
  destruct (body st) as [[b|e|] st1]; simpl in Hm; destruct Hm as [Hn Hr]; [done| |done].
  destruct (Hh e st1 (frame_bounded _ _ Hr Hb)) as [Hn' Hr'].
  split; [done|]. by eapply (frame_trans R HR).
Qed.

Lemma sure_tryCatch {A} (body : M A) (handler : error -> M A) :
  Keeps R body -> (∀ e, Sure R (handler e)) -> Sure R (tryCatch body handler).
Proof.
  intros Hm Hh st Hb. unfold tryCatch. specialize (Hm st Hb).
  destruct (body st) as [[b|e|] st1]; simpl in Hm; destruct Hm as [Hn Hr];
    [by eauto| |done].
  destruct (Hh e st1 (frame_bounded _ _ Hr Hb)) as [Hn' Hr'].
  split; [done|]. by eapply (frame_trans R HR).
Qed.

Lemma keeps_tryFinally {A} (body : M A) (fin : M unit) :
  Keeps R body -> Keeps R fin -> Keeps R (tryFinally body fin).
Proof.
  intros Hm Hf st Hb. unfold tryFinally. specialize (Hm st Hb).
  destruct (body st) as [[b|e|] st1]; simpl in Hm; destruct Hm as [Hn Hr]; [| |done].
  all: specialize (Hf st1 (frame_bounded _ _ Hr Hb));
    destruct (fin st1) as [[[]|e'|] st2]; simpl in Hf;
    destruct Hf as [Hn' Hr']; (split; [done|]); by eapply (frame_trans R HR).
Qed.

Lemma sure_tryFinally {A} (body : M A) (fin : M unit) :
  Sure R body -> Sure R fin -> Sure R (tryFinally body fin).
Proof.
  intros Hm Hf st Hb. unfold tryFinally. specialize (Hm st Hb).
  destruct (body st) as [r st1]; simpl in Hm; destruct Hm as [[b ->] Hr].
  specialize (Hf st1 (frame_bounded _ _ Hr Hb)).
  destruct (fin st1) as [r' st2]; simpl in Hf.
  destruct Hf as [[[] ->] Hr']. split; [by eauto|]. by eapply (frame_trans R HR).
Qed.

Lemma keeps_forLoop fuel (cond : Z -> M bool) (body : Z -> M unit) : ∀ i,
  (∀ j, Keeps R (cond j)) -> (∀ j, Keeps R (body j)) ->
  Keeps R (forLoop fuel i cond body).
Proof.
  induction fuel as [|fuel IH]; intros i Hc Hb; simpl.
  - apply sure_keeps, sure_ret.
  - apply keeps_bind; [apply Hc|]. intros [|]; [|apply sure_keeps, sure_ret].
    apply keeps_bind; [apply Hb|]. intros _. by apply IH.
Qed.

Lemma sure_forLoop fuel (cond : Z -> M bool) (body : Z -> M unit) : ∀ i,
  (∀ j, Sure R (cond j)) -> (∀ j, Sure R (body j)) ->
  Sure R (forLoop fuel i cond body).
Proof.
  induction fuel as [|fuel IH]; intros i Hc Hb; simpl.
  - apply sure_ret.
  - apply sure_bind; [apply Hc|]. intros [|]; [|apply sure_ret].
    apply sure_bind; [apply Hb|]. intros _. by apply IH.
Qed.

Lemma sure_repeatWhile f n : Sure R (repeatWhile f n).
Proof.
  unfold repeatWhile.
  apply sure_bind; [apply sure_gets|]. intros reps.
  apply sure_bind; [apply sure_gets|]. intros stop. apply sure_ret.
Qed.

(** A loop over one of the three repetition counts returns when the
    counts are bounded and every pass returns. *)
Lemma sure_repeatLoop (f : Config -> number) (body : Z -> M unit) :
  (∀ cfg, countsBounded cfg = true -> hasLastPass (f cfg) = true) ->
  (∀ j, Sure R (body j)) -> Sure R (repeatLoop f body).
Proof.
  intros Hf Hbody st Hb.
  pose proof (Hf _ Hb) as Hlast. unfold hasLastPass in Hlast.
  destruct (passes (f (dailyActivityConfig st))) as [fuel|] eqn:Hpasses; [|done].
  assert (Hrun : repeatLoop f body st = forLoop fuel 0 (repeatWhile f) body st).
  { unfold repeatLoop, config, gets. rewrite bind_run. by rewrite Hpasses. }
  rewrite Hrun. apply sure_forLoop; [apply sure_repeatWhile|exact Hbody|exact Hb].
Qed.

Lemma wp_keeps {A} (m : M A) st (Q : res A -> State -> Prop) :
  Keeps R m -> countsBounded (dailyActivityConfig st) = true ->
  (∀ r st', r ≠ Hang -> R st st' -> Q r st') -> wp m st Q.
Proof. intros Hm Hb HQ. apply HQ; by apply Hm. Qed.

Lemma wp_sure {A} (m : M A) st (Q : res A -> State -> Prop) :
  Sure R m -> countsBounded (dailyActivityConfig st) = true ->
  (∀ a st', R st st' -> Q (Ok a) st') -> wp m st Q.
Proof.
  intros Hm Hb HQ. unfold wp. destruct (Hm st Hb) as [[a Ha] Hr]. rewrite Ha. by apply HQ.
Qed.

Section FramedWorld.

Context (E : Ethers) (W : World) (HW : responsive W).
(** What the relation has to be told about: the set-up of the provider,
    which may start a sleep, for the proxies in use, and the sleep itself. *)
Context (usable : option string -> Prop).
Context (Hprovider : ∀ rpcUrl chainId proxyUrl, usable proxyUrl ->
                       Keeps R (getProvider E rpcUrl chainId proxyUrl)).
Context (Hsleep : ∀ ms, Sure R (sleep ms)).

Lemma keeps_ask q : Keeps R (ask W q).
Proof.
  destruct HW as (Hread & _). intros st _. unfold ask. simpl. split.
  - specialize (Hread (tick st) q). by destruct (read W (tick st) q).
  - eapply (frame_trans R HR); [apply (frame_tick R HR)|apply (frame_trace R HR)].
Qed.

Lemma keeps_askFeeData : Keeps R (askFeeData W).
Proof.
  destruct HW as (_ & Hfee & _). intros st _. unfold askFeeData. simpl. split.
  - specialize (Hfee (tick st)). by destruct (getFeeData W (tick st)).
  - eapply (frame_trans R HR); [apply (frame_tick R HR)|apply (frame_trace R HR)].
Qed.

Lemma keeps_send from tx : Keeps R (send W from tx).
Proof.
  destruct HW as (_ & _ & Hsend & _). intros st _. unfold send. simpl. split.
  - specialize (Hsend (tick st) from tx). by destruct (sendTransaction W (tick st) from tx).
  - eapply (frame_trans R HR); [apply (frame_tick R HR)|apply (frame_trace R HR)].
Qed.

Lemma keeps_waitReceipt hash : Keeps R (waitReceipt W hash).
Proof.
  destruct HW as (_ & _ & _ & Hwait). intros st _. unfold waitReceipt. simpl. split.
  - specialize (Hwait (tick st) hash). by destruct (wait W (tick st) hash) as [? [|]|].
  - eapply (frame_trans R HR); [apply (frame_tick R HR)|apply (frame_trace R HR)].
Qed.

Lemma keeps_waitReceiptRace hash limit : Keeps R (waitReceiptRace W hash limit).
Proof.
  intros st _. unfold waitReceiptRace. simpl. split.
  - destruct (wait W (tick st) hash) as [ms [|]|]; [destruct (ms <? limit)..|]; done.
  - eapply (frame_trans R HR); [apply (frame_tick R HR)|apply (frame_trace R HR)].
Qed.

(** Assignments the relation does not look at. *)
Ltac framed_state :=
  intros ?;
  first [ apply (frame_transactionLogs R HR) | apply (frame_tick R HR)
        | apply (frame_draws R HR) | apply (frame_trace R HR)
        | apply (frame_nonceTracker R HR) | apply (frame_selectedWalletIndex R HR) ].

(** One of the three counts is bounded when all of them are. *)
Ltac bounded_count :=
  let cfg := fresh "cfg" in
  let Hb := fresh "Hb" in
  intros cfg Hb; unfold countsBounded in Hb;
  repeat (apply andb_prop in Hb as [Hb ?]); assumption.

Ltac framed :=
  repeat
    lazymatch goal with
    | |- Sure _ (_ ≫= _) => apply sure_bind; [|intros ?]
    | |- Sure _ (mret _) => apply sure_ret
    | |- Sure _ (gets _) => apply sure_gets
    | |- Sure _ (config _) => apply sure_gets
    | |- Sure _ (addLog _ _) => apply sure_addLog
    | |- Sure _ (emit _) => apply sure_emit
    | |- Sure _ suspend => apply sure_suspend
    | |- Sure _ (mathRandom _) => apply sure_mathRandom
    | |- Sure _ (modify _) => apply sure_modify; framed_state
    | |- Sure _ (sleep _) => apply Hsleep
    | |- Sure _ (when _ _) => unfold when
    | |- Sure _ (tryCatch _ _) => apply sure_tryCatch; [|intros ?]
    | |- Sure _ (tryFinally _ _) => apply sure_tryFinally
    | |- Sure _ (forLoop _ _ _ _) => apply sure_forLoop; intros ?
    | |- Sure _ (repeatLoop _ _) => apply sure_repeatLoop; [bounded_count|intros ?]
    | |- Sure _ (if ?b then _ else _) => destruct b
    | |- Sure _ (match ?x with _ => _ end) => destruct x
    | |- Sure _ _ => solve [auto with framed]
    | |- Keeps _ (_ ≫= _) => apply keeps_bind; [|intros ?]
    | |- Keeps _ (throw _) => apply keeps_throw
    | |- Keeps _ (call _) => apply keeps_call
    | |- Keeps _ (ask _ _) => apply keeps_ask
    | |- Keeps _ (askFeeData _) => apply keeps_askFeeData
    | |- Keeps _ (send _ _ _) => apply keeps_send
    | |- Keeps _ (waitReceipt _ _) => apply keeps_waitReceipt
    | |- Keeps _ (waitReceiptRace _ _ _) => apply keeps_waitReceiptRace
    | |- Keeps _ (getProvider _ _ _ _) => apply Hprovider; assumption
    | |- Keeps _ (when _ _) => unfold when
    | |- Keeps _ (tryCatch _ _) => apply keeps_tryCatch; [|intros ?]
    | |- Keeps _ (tryFinally _ _) => apply keeps_tryFinally
    | |- Keeps _ (forLoop _ _ _ _) => apply keeps_forLoop; intros ?
    | |- Keeps _ (if ?b then _ else _) => destruct b
    | |- Keeps _ (match ?x with _ => _ end) => destruct x
    | |- Keeps _ _ => first [ solve [auto with framed] | apply sure_keeps ]
    end.

Lemma keeps_getNextNonce a c : Keeps R (getNextNonce E W a c).
Proof. unfold getNextNonce. framed. Qed.

Lemma sure_getFeeParams : Sure R (getFeeParams W).
Proof.
  intros st _. rewrite getFeeParams_run. simpl. split.
  - destruct HW as (_ & Hfee & _). specialize (Hfee (tick st)).
    destruct (getFeeData W (tick st)); [by eexists..|done].
  - eapply (frame_trans R HR); [apply (frame_tick R HR)|apply (frame_trace R HR)].
Qed.

Lemma keeps_estimateGasCost p g : Keeps R (estimateGasCost p g).
Proof. unfold estimateGasCost. framed. Qed.

Lemma keeps_onSendError {A} c a e : Keeps R (onSendError (A := A) c a e).
Proof. unfold onSendError. framed. Qed.

#[local] Hint Resolve keeps_getNextNonce sure_getFeeParams keeps_estimateGasCost
  keeps_onSendError : framed.

Lemma keeps_approveToken w t s a : Keeps R (approveToken E W w t s a).
Proof. unfold approveToken. framed. Qed.

#[local] Hint Resolve keeps_approveToken : framed.

Lemma keeps_performStake w d a p : usable p -> Keeps R (performStake E W w d a p).
Proof. intros Hp. unfold performStake. framed. Qed.

Lemma keeps_performUnstake w d a p : usable p -> Keeps R (performUnstake E W w d a p).
Proof. intros Hp. unfold performUnstake. framed. Qed.

Lemma keeps_performClaim w d p : usable p -> Keeps R (performClaim E W w d p).
Proof. intros Hp. unfold performClaim. framed. Qed.

Lemma keeps_performWrap w d a p : usable p -> Keeps R (performWrap E W w d a p).
Proof. intros Hp. unfold performWrap. framed. Qed.

Lemma keeps_performUnwrap w d a p : usable p -> Keeps R (performUnwrap E W w d a p).
Proof. intros Hp. unfold performUnwrap. framed. Qed.

Lemma sure_updateWallets : Sure R updateWallets.
Proof. unfold updateWallets. framed. Qed.

#[local] Hint Resolve keeps_performStake keeps_performUnstake keeps_performClaim
  keeps_performWrap keeps_performUnwrap sure_updateWallets : framed.

Lemma sure_stakeStep i w d p n : usable p -> Sure R (stakeStep E W i w d p n).
Proof. intros Hp. unfold stakeStep, randomAmount, randomDelay. framed. Qed.

Lemma sure_unstakeStep i w d p n : usable p -> Sure R (unstakeStep E W i w d p n).
Proof. intros Hp. unfold unstakeStep, randomAmount, randomDelay. framed. Qed.

Lemma sure_claimStep i w d p n : usable p -> Sure R (claimStep E W i w d p n).
Proof. intros Hp. unfold claimStep, randomDelay. framed. Qed.

Lemma sure_pauseBetween i f g what : Sure R (pauseBetween W i f g what).
Proof. unfold pauseBetween, randomDelay. framed. Qed.

#[local] Hint Resolve sure_stakeStep sure_unstakeStep sure_claimStep sure_repeatWhile
  sure_pauseBetween : framed.

(** The pass over an account settles, whatever its key and its proxy
    are, when the provider can be set up for every proxy. *)
Lemma keeps_processAccount i : (∀ p, usable p) -> Keeps R (processAccount E W i).
Proof. intros Hall. unfold processAccount. framed. Qed.

(** With a key the library accepts and a proxy the provider can be set up
    for, the pass over an account returns. *)
Lemma processAccount_sure accountIndex st :
  (∀ key, key ∈ accounts st -> ∃ addr, walletAddress E key = inr addr) ->
  usable (proxyFor (proxies st) accountIndex) ->
  countsBounded (dailyActivityConfig st) = true ->
  (Z.to_nat accountIndex < length (accounts st))%nat ->
  wp (processAccount E W accountIndex) st (λ r st', r = Ok tt ∧ R st st').
Proof.
  intros Hkeys Hproxy Hb Hlt. apply lookup_lt_is_Some in Hlt as [key Hkey].
  destruct (Hkeys key) as [addr Haddr]; [by eapply list_elem_of_lookup_2|].
  unfold processAccount.
  repeat (st_simpl;
          lazymatch goal with
          | |- wp (if _ then _ else _) _ _ => fail
          | _ => wp_step
          end).
  eapply wp_sure; [cbn [directions]; framed|st_simpl; exact Hb|].
  intros [] st' Hr. split; [done|].
  eapply (frame_trans R HR); [|exact Hr].
  eapply (frame_trans R HR); [|apply (frame_transactionLogs R HR)].
  eapply (frame_trans R HR); [|apply (frame_selectedWalletIndex R HR)].
  apply (frame_transactionLogs R HR).
Qed.

(** The loop over the accounts, when the relation keeps the lists of the
    accounts and of the proxies. *)
Lemma accounts_loop_sure fuel : ∀ accountIndex st,
  (∀ key, key ∈ accounts st -> ∃ addr, walletAddress E key = inr addr) ->
  (∀ i, usable (proxyFor (proxies st) i)) ->
  countsBounded (dailyActivityConfig st) = true ->
  (∀ st1 st2, R st1 st2 -> accounts st2 = accounts st1 ∧ proxies st2 = proxies st1) ->
  0 <= accountIndex ->
  wp (forLoop fuel accountIndex
        (λ accountIndex,
           n ← gets (λ st, Z.of_nat (length (accounts st)));
           stop ← gets shouldStop;
           mret ((accountIndex <? n) && negb stop))
        (processAccount E W)) st (λ r st', r = Ok tt ∧ R st st').
Proof.
  induction fuel as [|fuel IH]; intros accountIndex st Hkeys Hproxies Hb Hacc Hidx.
  - apply wp_ret. split; [done|apply HR].
  - cbn [forLoop]. wp_go.
    all: try (split; [done|apply HR]).
    eapply wp_conseq.
    { apply processAccount_sure; [done|done|done|].
      match goal with H : (_ <? _) = true |- _ => apply Z.ltb_lt in H end. lia. }
    intros r st1 [-> Hc1]. destruct (Hacc _ _ Hc1) as [Ha1 Hp1].
    eapply wp_conseq.
    { apply IH; [by rewrite Ha1|by rewrite Hp1|by eapply frame_bounded|done|lia]. }
    intros r st2 [-> Hc2]. split; [done|]. by eapply (frame_trans R HR).
Qed.

End FramedWorld.

End Frames.

(** ** The relations at hand *)

(** Projections out of updated states, in the hypotheses as well. *)
Ltac st_simpl_everywhere :=
  cbn [transactionLogs activityRunning isCycleRunning shouldStop dailyActivityInterval
       accounts proxies selectedWalletIndex nonceTracker hasLoggedSleepInterrupt
       activeProcesses dailyActivityConfig process tick draws trace
       set_transactionLogs set_activityRunning set_isCycleRunning set_shouldStop
       set_dailyActivityInterval set_accounts set_proxies set_selectedWalletIndex
       set_nonceTracker set_hasLoggedSleepInterrupt set_activeProcesses
       set_dailyActivityConfig set_process set_tick set_draws set_trace] in *.

Lemma unchanged_frame : Frame unchanged.
Proof.
  split; try (intros; by repeat split).
  - intros st1 st2 st3 (a1 & a2 & a3 & a4 & a5) (b1 & b2 & b3 & b4 & b5).
    repeat split; congruence.
  - by intros st st' (_ & _ & _ & Hcfg & _).
Qed.

Lemma calm_frame : Frame calm.
Proof.
  split; try (intros; by repeat split).
  - intros st1 st2 st3 ((a1 & a2 & a3 & a4 & a5) & a6 & a7 & a8 & a9)
                       ((b1 & b2 & b3 & b4 & b5) & b6 & b7 & b8 & b9).
    repeat split; try congruence. intros Hpos. rewrite b9; [by apply a9|].
    rewrite a9; done.
  - by intros st st' ((_ & _ & _ & Hcfg & _) & _).
Qed.

Lemma sleep_unchanged ms : Sure unchanged (sleep ms).
Proof.
  intros st _. change (wp (sleep ms) st (λ r st', (∃ a, r = Ok a) ∧ unchanged st st')).
  unfold sleep. wp_go; (split; [by eexists|by repeat split]).
Qed.

Lemma sleep_calm ms : Sure calm (sleep ms).
Proof.
  intros st _. change (wp (sleep ms) st (λ r st', (∃ a, r = Ok a) ∧ calm st st')).
  unfold sleep. wp_go; (split; [by eexists|]); repeat split; try done.
  st_simpl. lia.
Qed.

Lemma getProvider_unchanged E rpcUrl chainId proxyUrl :
  Keeps unchanged (getProvider E rpcUrl chainId proxyUrl).
Proof.
  intros st _.
  change (wp (getProvider E rpcUrl chainId proxyUrl) st
            (λ r st', r ≠ Hang ∧ unchanged st st')).
  unfold getProvider, getProviderFrom, sleepDetached. wp_go; by repeat split.
Qed.

Lemma getProvider_calm E rpcUrl chainId proxyUrl :
  createAgent E proxyUrl = inr tt ->
  Keeps calm (getProvider E rpcUrl chainId proxyUrl).
Proof.
  intros Hagent st _. unfold getProvider. cbn [getProviderFrom].
  rewrite Hagent. split; [done|]. by repeat split.
Qed.

(** The proxy of an account is one of the list. *)
Lemma proxyFor_elem proxies accountIndex url :
  proxyFor proxies accountIndex = Some url -> url ∈ proxies.
Proof.
  unfold proxyFor. destruct proxies as [|p ps] eqn:Hp; [done|].
  destruct (_ !! _) as [[|c u]|] eqn:Hl; [done| |done].
  intros [= <-]. by eapply list_elem_of_lookup_2.
Qed.

(** ** CycleScheduler: a cycle never rejects *)

Section CycleEnds.

Context (E : Ethers) (W : World) (HW : responsive W) (st : State).

Hypothesis Hsome : accounts st ≠ [].
Hypothesis Hbounded : countsBounded (dailyActivityConfig st) = true.

(** X17. On a chain that answers every call, with repetition counts that
    are bounded (none above 2^53) and no other handler running in between,
    a cycle with at least one account never throws and never ends the
    process, whatever goes wrong inside: it returns with the nonce tracker
    empty, the stop flag and [activityRunning] off, and the accounts, the
    proxies and the configuration as they were. *)
Theorem runDailyActivity_never_rejects :
  wp (runDailyActivity E W) st (λ r st',
    r = Ok tt
    ∧ nonceTracker st' = ∅
    ∧ shouldStop st' = false ∧ activityRunning st' = false
    ∧ accounts st' = accounts st ∧ proxies st' = proxies st
    ∧ dailyActivityConfig st' = dailyActivityConfig st
    ∧ process st' = process st).
Proof.
  unfold runDailyActivity. wp_go.
  { apply Z.eqb_eq in Heqb. by destruct (accounts st). }
  eapply (wp_keeps unchanged).
  { apply (keeps_forLoop unchanged unchanged_frame).
    - intros j. apply sure_keeps.
      repeat first [apply (sure_bind unchanged unchanged_frame); [|intros ?]
                   | apply (sure_gets unchanged unchanged_frame)
                   | apply (sure_ret unchanged unchanged_frame)].
    - intros j.
      apply (keeps_processAccount unchanged unchanged_frame E W HW (λ _, True)).
      + intros. apply getProvider_unchanged.
      + apply sleep_unchanged.
      + done. }
  { st_simpl. exact Hbounded. }
  intros r st1 Hn (Hstop & Hacc & Hprox & Hcfg & Hproc). st_simpl_everywhere.
  destruct r as [[]|e|]; [| |done]; wp_go; done.
Qed.

End CycleEnds.

Lemma runDailyActivity_never_rejects_witness :
  wp (runDailyActivity laxEthers
        (sampleWorld 0 0 0 (Rejected "insufficient funds"))) scenarioState (λ r st',
    r = Ok tt ∧ nonceTracker st' = ∅ ∧ accounts st' = ["key1"; "key2"]).
Proof.
  eapply wp_conseq.
  - apply (runDailyActivity_never_rejects laxEthers
             (sampleWorld 0 0 0 (Rejected "insufficient funds"))).
    + by repeat split.
    + discriminate.
    + reflexivity.
  - intros r st' (Hr & Hn & _ & _ & Ha & _). split; [exact Hr|]. split; [exact Hn|exact Ha].
Defined.

(** ** CycleScheduler: the next cycle is armed *)

(** Whole hours in milliseconds, as the timer of Node takes them: up to
    596 hours the delay is the product, and beyond that, where the product
    exceeds [TIMEOUT_MAX], it is one millisecond. *)
Lemma timeoutDelay_hours (h : Z) :
  1 <= h ->
  timeoutDelay (num_mul (num_mul (num_mul (of_Z h) (Fin 60)) (Fin 60)) (Fin 1000))
  = if h <=? 596 then of_Z (h * 3600000) else Fin 1.
Proof.
  intros Hh. unfold timeoutDelay, of_Z, num_mul, num_le, num_floor.
  assert (Heq : (inject_Z h * 60 * 60 * 1000 == inject_Z (h * 3600000))%Q).
  { rewrite inject_Z_mult. change (inject_Z 3600000) with 3600000%Q. ring. }
  assert (Hone : Qle_bool 1 (inject_Z h * 60 * 60 * 1000) = true).
  { apply Qle_bool_iff. rewrite Heq. change 1%Q with (inject_Z 1).
    rewrite <- Zle_Qle. lia. }
  rewrite Hone. cbn [andb].
  destruct (Z.leb_spec h 596) as [Hle|Hgt].
  - assert (Hmax : Qle_bool (inject_Z h * 60 * 60 * 1000) (inject_Z TIMEOUT_MAX) = true).
    { apply Qle_bool_iff. rewrite Heq, <- Zle_Qle. unfold TIMEOUT_MAX. lia. }
    rewrite Hmax. f_equal. f_equal. rewrite Heq. apply Qfloor_Z.
  - assert (Hmax : Qle_bool (inject_Z h * 60 * 60 * 1000) (inject_Z TIMEOUT_MAX) = false).
    { destruct (Qle_bool (inject_Z h * 60 * 60 * 1000) _) eqn:Hb; [|done].
      apply Qle_bool_iff in Hb. rewrite Heq, <- Zle_Qle in Hb.
      unfold TIMEOUT_MAX in Hb. lia. }
    by rewrite Hmax.
Qed.

Section Rearm.

Context (E : Ethers) (W : World) (HW : responsive W) (st : State).

(** The libraries accept the keys and the proxies of the lists. *)
Hypothesis Hagents : ∀ url, url ∈ proxies st -> newProxyAgent E url = inr tt.
Hypothesis Hkeys : ∀ key, key ∈ accounts st -> ∃ addr, walletAddress E key = inr addr.

Hypothesis Hsome : accounts st ≠ [].
Hypothesis Hbounded : countsBounded (dailyActivityConfig st) = true.
Hypothesis Hidle : isCycleRunning st = false.
Hypothesis Hnone : activeProcesses st <= 0.

(** X18. Started from the menu with no cycle running and no sleep
    pending, on a chain that answers every call, with keys and proxies the
    libraries accept, repetition counts that are bounded and no other
    handler running in between, a cycle ends with the timer of the next one
    armed, [isCycleRunning] on and the nonce tracker empty. For a whole
    number of hours, as the configuration form stores it, the timer is
    armed with [loopHours * 60 * 60 * 1000] milliseconds as Node takes
    them: the product up to 596 hours, and one millisecond beyond, where
    the product exceeds what a timer of Node can hold. Starting again from
    the menu is then refused: an error is logged and nothing else
    happens. *)
Theorem cycle_arms_the_next :
  wp (menuSelect E W "Start Auto Daily Activity") st (λ r st',
    r = Ok tt
    ∧ (∃ delay, dailyActivityInterval st' = Some delay)
    ∧ (∀ h, loopHours (dailyActivityConfig st) = of_Z h -> 1 <= h ->
         dailyActivityInterval st'
           = Some (if h <=? 596 then of_Z (h * 3600000) else Fin 1))
    ∧ isCycleRunning st' = true ∧ activityRunning st' = false
    ∧ nonceTracker st' = ∅
    ∧ wp (menuSelect E W "Start Auto Daily Activity") st' (λ r2 st2,
        r2 = Ok tt ∧ trace st2 = trace st'
        ∧ dailyActivityInterval st2 = dailyActivityInterval st'
        ∧ transactionLogs st2 = transactionLogs st' ++
            [("error", "Cycle is still running. Stop the current cycle first.")])).
Proof.
  unfold menuSelect at 1. cbn [String.eqb Ascii.eqb Bool.eqb]. wp_go.
  unfold runDailyActivity. wp_go.
  { apply Z.eqb_eq in Heqb. by destruct (accounts st). }
  eapply wp_conseq.
  { apply (accounts_loop_sure calm calm_frame E W HW (λ p, createAgent E p = inr tt)).
    - intros rpcUrl chainId p Hp. by apply getProvider_calm.
    - apply sleep_calm.
    - st_simpl. exact Hkeys.
    - st_simpl. intros i. destruct (proxyFor (proxies st) i) as [url|] eqn:Hp; [|done].
      simpl. apply Hagents. by eapply proxyFor_elem.
    - st_simpl. exact Hbounded.
    - by intros st1 st2 ((_ & -> & -> & _) & _).
    - lia. }
  intros r st1 [-> ((Hstop & Hacc & Hprox & Hcfg & Hproc) & Hrun & Hcyc & Htimer & Hact)].
  st_simpl_everywhere.
  rewrite Z.max_l in Hact by done. specialize (Hact ltac:(lia)).
  wp_go. rewrite Hact. change (0 <=? 0) with true. wp_go.
  rewrite Hcfg, bool_decide_true by done. cbn [orb Z.ltb Z.compare].
  split; [done|]. split; [by eexists|].
  split; [intros h Hh H1; by rewrite Hh, timeoutDelay_hours|].
  repeat (split; [done|]).
  unfold menuSelect. cbn [String.eqb Ascii.eqb Bool.eqb]. wp_go. done.
Qed.

End Rearm.

Lemma cycle_arms_the_next_witness :
  wp (menuSelect laxEthers
        (sampleWorld 20000000000000000 20000000000000000 20000000000000000
           (Resolved "0xhash00000000"))
        "Start Auto Daily Activity") scenarioState (λ r st',
    r = Ok tt ∧ dailyActivityInterval st' = Some (Fin 86400000)
    ∧ isCycleRunning st' = true).
Proof.
  eapply wp_conseq.
  - apply (cycle_arms_the_next laxEthers
             (sampleWorld 20000000000000000 20000000000000000 20000000000000000
                (Resolved "0xhash00000000"))
             (sampleWorld_responsive _ _ _ _)).
    + reflexivity.
    + intros key _. by exists key.
    + discriminate.
    + reflexivity.
    + reflexivity.
    + simpl. lia.
  - intros r st' (Hr & _ & Ht & Hc & _). split; [exact Hr|]. split; [|exact Hc].
    apply (Ht 24); [reflexivity|lia].
Defined.

(** ** The menu: stopping *)

(** X19. "Stop Activity" always clears the timer of the next cycle. With
    no sleep pending it finishes the stop at once: the stop flag, the
    running flags and the flag of the sleep message are all off afterwards.
    With sleeps pending it leaves the stop flag on and the running flags as
    they were. It touches neither the chain nor the nonce tracker. *)
Theorem stopActivity_cases st :
  wp stopActivity st (λ r st',
    r = Ok tt
    ∧ dailyActivityInterval st' = None
    ∧ trace st' = trace st ∧ nonceTracker st' = nonceTracker st
    ∧ activeProcesses st' = activeProcesses st
    ∧ if decide (activeProcesses st <= 0) then
        shouldStop st' = false ∧ activityRunning st' = false
        ∧ isCycleRunning st' = false ∧ hasLoggedSleepInterrupt st' = false
      else
        shouldStop st' = true ∧ activityRunning st' = activityRunning st
        ∧ isCycleRunning st' = isCycleRunning st).
Proof.
  unfold stopActivity. wp_go.
  all: z_facts.
  all: repeat (split; [first [done | by destruct (dailyActivityInterval st)]|]).
  all: destruct (decide (activeProcesses st <= 0)); try lia; done.
Qed.

(** ** ConfigStore: saving and loading again *)

Section RoundTrip.

Context (E : Ethers) (N : Node) (W : World) (files : Files) (st : State).
Context (cfg : Config) (data : string).

(** The configuration is written as [data]; the write goes through, and
    [data] parses back to the document written. *)
Hypothesis Hcfg : dailyActivityConfig st = cfg.
Hypothesis Hdata : JSON_stringify N (configJson cfg) = data.
Hypothesis Hwrite :
  writeFileSync N files CONFIG_FILE data = inr (<[CONFIG_FILE := data]> files).
Hypothesis Hparse : JSON_parse E data = inr (configJson cfg).

(** X20. Saving the configuration and loading it again, when the write
    goes through and the text parses back to the document written: every
    setting comes back as it was unless it was zero, [NaN] or infinite, in
    which case its default comes back ([JSON.stringify] writes [NaN] and
    the infinities as [null]). A configuration whose settings are all
    finite and other than zero comes back unchanged. *)
Theorem save_then_load :
  wp (saveConfig N files) st (λ r st1,
    ∃ files1, r = Ok files1
    ∧ dailyActivityConfig st1 = cfg
    ∧ ∀ st2,
        wp (loadConfig E (filesWorld files1 W)) st2 (λ r2 st3,
          r2 = Ok tt
          ∧ dailyActivityConfig st3 =
              {| stakeRepetitions := reloaded (stakeRepetitions cfg) (Fin 1);
                 unstakeRepetitions := reloaded (unstakeRepetitions cfg) (Fin 1);
                 claimRepetitions := reloaded (claimRepetitions cfg) (Fin 1);
                 wethStakeRange :=
                   {| range_min := reloaded (range_min (wethStakeRange cfg)) (Fin (1 # 100));
                      range_max := reloaded (range_max (wethStakeRange cfg)) (Fin (2 # 100)) |};
                 exethUnstakeRange :=
                   {| range_min := reloaded (range_min (exethUnstakeRange cfg)) (Fin (1 # 100));
                      range_max := reloaded (range_max (exethUnstakeRange cfg)) (Fin (2 # 100)) |};
                 loopHours := reloaded (loopHours cfg) (Fin 24) |}
          ∧ (storableConfig cfg = true -> dailyActivityConfig st3 = cfg))).
Proof.
  assert (Hnum : ∀ n d, num_or (Number E (Some (numberJson n))) d = reloaded n d).
  { by intros [|q|negative] d. }
  assert (Htruthy : ∀ n d, storable n = true -> reloaded n d = n).
  { intros [|q|negative] d Hn; try discriminate Hn.
    unfold reloaded, num_or. cbn [truthy]. cbn [storable] in Hn. by rewrite Hn. }
  unfold saveConfig. wp_go.
  eexists. split; [reflexivity|]. split; [done|]. intros st2.
  assert (Hex : existsSync (filesWorld (<[CONFIG_FILE := data]> files) W) CONFIG_FILE = true).
  { cbn [existsSync readFileSync filesWorld]. rewrite lookup_insert_eq. done. }
  assert (Hrd : readFileSync (filesWorld (<[CONFIG_FILE := data]> files) W) CONFIG_FILE
                = inr data).
  { cbn [existsSync readFileSync filesWorld]. rewrite lookup_insert_eq. done. }
  clear Hwrite Hdata.
  assert (Hprop : ∀ key, prop (configJson cfg) key
                         = inr (getField key
                                  [("stakeRepetitions", numberJson (stakeRepetitions cfg));
                                   ("unstakeRepetitions", numberJson (unstakeRepetitions cfg));
                                   ("claimRepetitions", numberJson (claimRepetitions cfg));
                                   ("wethStakeRange", rangeJson (wethStakeRange cfg));
                                   ("exethUnstakeRange", rangeJson (exethUnstakeRange cfg));
                                   ("loopHours", numberJson (loopHours cfg))])) by done.
  unfold loadConfig. wp_go. split; [done|].
  cbn [prop configJson rangeJson getField optProp String.eqb Ascii.eqb Bool.eqb
       set_stakeRepetitions set_unstakeRepetitions set_claimRepetitions
       set_wethStakeRange set_exethUnstakeRange set_loopHours set_range_min set_range_max
       stakeRepetitions unstakeRepetitions claimRepetitions wethStakeRange
       exethUnstakeRange loopHours range_min range_max].
  rewrite !Hnum. split; [done|].
  intros Ht. unfold storableConfig in Ht.
  repeat match type of Ht with (_ && _)%bool = true => apply andb_prop in Ht as [Ht ?] end.
  rewrite !Htruthy by done.
  by destruct cfg as [? ? ? [? ?] [? ?] ?].
Qed.

End RoundTrip.

Lemma save_then_load_witness :
  wp (saveConfig sampleNode ∅) initialState (λ r st1,
    ∃ files1, r = Ok files1
    ∧ wp (loadConfig defaultsEthers (filesWorld files1 (constWorld 0))) initialState
        (λ r2 st3, r2 = Ok tt ∧ dailyActivityConfig st3 = defaultConfig)).
Proof.
  eapply wp_conseq.
  - apply (save_then_load defaultsEthers sampleNode (constWorld 0) ∅ initialState
             defaultConfig "{}"); reflexivity.
  - intros r st1 (files1 & Hr & _ & Hload). exists files1. split; [exact Hr|].
    eapply wp_conseq; [apply Hload|].
    intros r2 st3 (Hr2 & _ & Hsame). split; [exact Hr2|]. apply Hsame. reflexivity.
Defined.

(** ** The configuration form *)

Lemma Qle_bool_false_lt q : Qle_bool q 0 = false -> (0 < q)%Q.
Proof.
  intros Hle. apply Qnot_le_lt. intros Hq. apply Qle_bool_iff in Hq. congruence.
Qed.

Lemma positiveCount_floor z :
  Qle_bool (inject_Z z) 0 = false -> positiveCount (num_floor (of_Z z)).
Proof.
  intros Hle. apply Qle_bool_false_lt in Hle. right. exists z. split.
  - rewrite Zlt_Qlt. done.
  - unfold num_floor, of_Z. by rewrite Qfloor_Z.
Qed.

Lemma positiveCount_of_Z z :
  Qle_bool (inject_Z z) 0 = false -> positiveCount (of_Z z).
Proof.
  intros Hle. apply Qle_bool_false_lt in Hle. right. exists z. split; [|done].
  rewrite Zlt_Qlt. done.
Qed.

(** What the form checks of a range, [value <= 0] and [value > maxValue]
    both false with neither end [NaN], makes the range a positive one. *)
Lemma positiveRange_checked lo hi :
  isNaN lo = false -> isNaN hi = false ->
  num_le lo (Fin 0) = false -> num_lt hi lo = false ->
  positiveRange {| range_min := lo; range_max := hi |}.
Proof.
  unfold positiveRange. cbn [range_min range_max].
  destruct lo as [|lo|[]], hi as [|hi|[]]; cbn [isNaN num_le num_lt orb negb];
    try discriminate; intros _ _ Hpos Hord; try done.
  - split; [by rewrite Hpos|]. by apply negb_false_iff in Hord.
  - by rewrite Hpos.
Qed.

Section ConfigForm.

Context (E : Ethers) (N : Node).
Context (configType input inputMax : string) (files : Files) (st : State).

(** [parseInt] answers [NaN], an infinity (for a row of digits too long
    for a double) or an integer. *)
Hypothesis HparseInt :
  ∀ s, parseInt N s = NaN ∨ (∃ negative, parseInt N s = Inf negative)
       ∨ ∃ z, parseInt N s = of_Z z.
Hypothesis Hvalid : validConfig (dailyActivityConfig st).

Ltac form_leaf :=
  eexists _, _; (split; [reflexivity|]);
  (split;
   [ destruct Hvalid as (Hs & Hu & Hc & Hw & He & Hl);
     first [ exact Hvalid
           | unfold validConfig;
             cbn [set_stakeRepetitions set_unstakeRepetitions set_claimRepetitions
                  set_wethStakeRange set_exethUnstakeRange set_loopHours
                  set_range_min set_range_max
                  stakeRepetitions unstakeRepetitions claimRepetitions wethStakeRange
                  exethUnstakeRange loopHours range_min range_max];
             (split; [|split; [|split; [|split; [|split]]]]);
             first [ assumption
                   | by left
                   | by apply positiveCount_floor
                   | by apply positiveCount_of_Z
                   | apply positiveRange_checked;
                     unfold set_range_min, set_range_max;
                     cbn [range_min range_max isNaN num_le num_lt orb negb]; try done;
                     match goal with H : Qle_bool _ _ = _ |- _ => by rewrite H end ] ]
   | split; [done|]; split; [done|]; intros Hf; first [discriminate Hf | done] ]).

Ltac form_run :=
  cbn [String.eqb Ascii.eqb Bool.eqb orb andb negb isNaN of_Z num_le num_lt];
  wp_go; form_leaf.

Ltac count_case :=
  destruct (HparseInt (trim input)) as [Hint|[[[] Hint]|[z Hint]]]; rewrite Hint; form_run.

Ltac range_case :=
  destruct (parseFloat N (trim input)) as [|lo|[]];
  destruct (parseFloat N (trim inputMax)) as [|hi|[]]; form_run.

(** X21. Whatever is typed into the configuration form, and for
    whichever setting, a valid configuration stays valid: counts and hours
    remain whole numbers above zero or [Infinity], and each range keeps a
    lower end above zero that does not exceed its upper end, where either
    end may be [Infinity] as well ([parseFloat] reads "Infinity", and
    [parseInt] a row of digits too long for a double, as [Infinity]). The
    form never throws and touches neither the chain nor the accounts; an
    input it turns down leaves the configuration and the files as they
    were. *)
Theorem configForm_keeps_valid :
  wp (configFormSubmit E N configType input inputMax false files) st (λ r st',
    ∃ isSubmitting files', r = Ok (isSubmitting, files')
    ∧ validConfig (dailyActivityConfig st')
    ∧ trace st' = trace st ∧ accounts st' = accounts st
    ∧ (isSubmitting = false ->
         dailyActivityConfig st' = dailyActivityConfig st ∧ files' = files)).
Proof.
  unfold configFormSubmit, assignSetting, saveConfig, isCountType, isRangeType.
  cbv zeta.
  destruct (String.eqb configType "stakeRepetitions") eqn:H1.
  { apply String.eqb_eq in H1. rewrite H1. count_case. }
  destruct (String.eqb configType "unstakeRepetitions") eqn:H2.
  { apply String.eqb_eq in H2. rewrite H2. count_case. }
  destruct (String.eqb configType "claimRepetitions") eqn:H3.
  { apply String.eqb_eq in H3. rewrite H3. count_case. }
  destruct (String.eqb configType "loopHours") eqn:H4.
  { apply String.eqb_eq in H4. rewrite H4. count_case. }
  destruct (String.eqb configType "wethStakeRange") eqn:H5.
  { apply String.eqb_eq in H5. rewrite H5. range_case. }
  destruct (String.eqb configType "exethUnstakeRange") eqn:H6.
  { range_case. }
  destruct (parseFloat N (trim input)) as [|lo|[]]; form_run.
Qed.

End ConfigForm.

Lemma sampleNode_parseInt s :
  parseInt sampleNode s = NaN ∨ (∃ negative, parseInt sampleNode s = Inf negative)
  ∨ ∃ z, parseInt sampleNode s = of_Z z.
Proof.
  simpl. destruct (String.eqb s "3"); [right; right; by exists 3|].
  destruct (String.eqb s "0"); [right; right; by exists 0|by left].
Qed.

Lemma defaultConfig_valid : validConfig defaultConfig.
Proof.
  repeat split; first [right; by exists 1 | right; by exists 24].
Qed.

Lemma configForm_keeps_valid_witness :
  wp (configFormSubmit laxEthers sampleNode "stakeRepetitions" "3" EmptyString false ∅)
     initialState (λ r st',
    ∃ isSubmitting files', r = Ok (isSubmitting, files')
                           ∧ validConfig (dailyActivityConfig st')).
Proof.
  eapply wp_conseq.
  - apply (configForm_keeps_valid laxEthers sampleNode "stakeRepetitions" "3" EmptyString
             ∅ initialState sampleNode_parseInt defaultConfig_valid).
  - intros r st' (flag & files' & Hr & Hv & _). exists flag, files'.
    split; [exact Hr|exact Hv].
Defined.

(** ** The swap form *)

Lemma Qfloor_unit x : (0 <= x)%Q -> (x < 1)%Q -> Qfloor x = 0.
Proof.
  intros H0 H1.
  assert (Hlt : Qfloor x < 1).
  { rewrite Zlt_Qlt. eapply Qle_lt_trans; [apply Qfloor_le|done]. }
  assert (Hgt : 0 < Qfloor x + 1).
  { rewrite Zlt_Qlt. eapply Qle_lt_trans; [exact H0|apply Qlt_floor]. }
  lia.
Qed.

(** An amount below half of the last digit kept is rendered as zero. *)
Lemma toFixed4_tiny toString q :
  (0 <= q)%Q -> (q < 1 # 20000)%Q -> toFixed4 toString (Fin q) = "0.0000".
Proof.
  intros H0 H1. unfold toFixed4.
  assert (Hbig : Qle_bool (inject_Z (10 ^ 21)) (Qabs q) = false).
  { destruct (Qle_bool (inject_Z (10 ^ 21)) (Qabs q)) eqn:Hb; [|done].
    apply Qle_bool_iff in Hb. rewrite Qabs_pos in Hb by done.
    exfalso. apply (Qlt_not_le _ _ H1). eapply Qle_trans; [|exact Hb]. discriminate. }
  rewrite Hbig.
  assert (Hle : Qle_bool 0 q = true) by by apply Qle_bool_iff.
  rewrite Hle.
  assert (Hfl : Qfloor (Qabs q * 10000 + (1 # 2)) = 0).
  { apply Qfloor_unit.
    - apply Qle_trans with (0 * 10000 + (1 # 2))%Q; [discriminate|].
      apply Qplus_le_compat; [|apply Qle_refl].
      apply Qmult_le_compat_r; [apply Qabs_nonneg|discriminate].
    - rewrite Qabs_pos by done.
      apply Qlt_le_trans with ((1 # 20000) * 10000 + (1 # 2))%Q; [|discriminate].
      apply Qplus_lt_le_compat; [|apply Qle_refl].
      apply Qmult_lt_compat_r; [reflexivity|done]. }
  rewrite Hfl. reflexivity.
Qed.

Section AmountForm.

Context (E : Ethers) (W : World) (N : Node).
Context (swapType input : string) (st : State).

(** X22. The swap form turns down an amount that is not a number, zero
    or negative: it logs "Invalid amount. Please enter a positive
    number.", gives the form free again, and neither asks the chain
    anything nor touches the nonce tracker. *)
Theorem amountForm_rejects :
  (parseFloat N (trim input) = NaN
   ∨ ∃ q, parseFloat N (trim input) = Fin q ∧ (q <= 0)%Q) ->
  wp (amountFormSubmit E W N swapType input false) st (λ r st',
    r = Ok false
    ∧ trace st' = trace st ∧ tick st' = tick st
    ∧ nonceTracker st' = nonceTracker st
    ∧ transactionLogs st' = transactionLogs st ++
        [("error", "Invalid amount. Please enter a positive number.")]).
Proof.
  intros [Hnan|(q & Hq & Hle)]; unfold amountFormSubmit; cbv zeta.
  - rewrite Hnan. cbn [isNaN orb]. wp_go. done.
  - rewrite Hq. cbn [isNaN orb num_le]. apply Qle_bool_iff in Hle. rewrite Hle.
    wp_go. done.
Qed.

Context (amount : number) (key addr : string).

(** The amount typed passes the check of the form: it is a number above
    zero, which [Infinity] is too. *)
Hypothesis Hamount : parseFloat N (trim input) = amount.
Hypothesis Hpositive : isNaN amount || num_le amount (Fin 0) = false.
Hypothesis Hindex : 0 <= selectedWalletIndex st.
Hypothesis Hkey : accounts st !! Z.to_nat (selectedWalletIndex st) = Some key.
Hypothesis Haddr : walletAddress E key = inr addr.

Ltac swap_leaf :=
  (split; [first [by left | by right]|]);
  rewrite <- ?app_assoc; eexists; reflexivity.

(** X23. For an amount that passes the check of the swap form (a number
    above zero, [Infinity] included) and a selected wallet whose key the
    library accepts, the form enters the wrap, or the unwrap, with
    [amount.toFixed(4)], and a failure of the swap never leaves the handler:
    it ends with the form free again unless an awaited call never settles.
    [toFixed(4)] renders a finite amount below 10^21 with four decimals, a
    larger one as [String(amount)] does, and [Infinity] as "Infinity". The
    check of the amount comes before the rounding: a positive amount below
    0.00005 is let through and swapped as "0.0000". *)
Theorem amountForm_swaps_rounded :
  (∀ q, amount = Fin q -> (q < 1 # 20000)%Q ->
     toFixed4 (numberToString E) amount = "0.0000")
  ∧ (amount = Inf false -> toFixed4 (numberToString E) amount = "Infinity")
  ∧ wp (amountFormSubmit E W N "wrap" input false) st (λ r st',
      (r = Ok false ∨ r = Hang)
      ∧ ∃ evs, trace st' = trace st ++
                 [EvPerform Wrap addr (Some (toFixed4 (numberToString E) amount))] ++ evs)
  ∧ wp (amountFormSubmit E W N "unwrap" input false) st (λ r st',
      (r = Ok false ∨ r = Hang)
      ∧ ∃ evs, trace st' = trace st ++
                 [EvPerform Unwrap addr (Some (toFixed4 (numberToString E) amount))] ++ evs).
Proof.
  assert (Hlt : (selectedWalletIndex st <? 0) = false) by by apply Z.ltb_ge.
  split.
  { intros q -> Hq. apply toFixed4_tiny; [|done].
    cbn [isNaN orb num_le] in Hpositive. apply Qlt_le_weak.
    by apply Qle_bool_false_lt. }
  split; [by intros ->|].
  split.
  - unfold amountFormSubmit; cbv zeta. rewrite Hamount, Hpositive.
    cbn [String.eqb Ascii.eqb Bool.eqb directions].
    unfold performWrap, getProvider, getProviderFrom, sleepDetached, estimateGasCost,
      getNextNonce, onSendError, updateWallets.
    wp_go; swap_leaf.
  - unfold amountFormSubmit; cbv zeta. rewrite Hamount, Hpositive.
    cbn [String.eqb Ascii.eqb Bool.eqb directions].
    unfold performUnwrap, getProvider, getProviderFrom, sleepDetached, estimateGasCost,
      getNextNonce, onSendError, updateWallets.
    wp_go; swap_leaf.
Qed.

End AmountForm.

Lemma amountForm_rejects_witness :
  wp (amountFormSubmit laxEthers (constWorld 0) sampleNode "wrap" "-1" false) initialState
    (λ r st', r = Ok false ∧ trace st' = []).
Proof.
  eapply wp_conseq.
  - apply (amountForm_rejects laxEthers (constWorld 0) sampleNode "wrap" "-1" initialState).
    right. exists (-1)%Q. split; [reflexivity|discriminate].
  - intros r st' (Hr & Ht & _). split; [exact Hr|exact Ht].
Defined.

Lemma amountForm_swaps_rounded_witness :
  wp (amountFormSubmit laxEthers (constWorld 0) sampleNode "wrap" "0.00001" false)
     (set_accounts ["key1"] initialState) (λ r st',
    ∃ evs, trace st' = [EvPerform Wrap "key1" (Some "0.0000")] ++ evs).
Proof.
  destruct (amountForm_swaps_rounded laxEthers (constWorld 0) sampleNode "0.00001"
              (set_accounts ["key1"] initialState) (Fin (1 # 100000)) "key1" "key1")
    as (Htiny & _ & Hwrap & _); [reflexivity|reflexivity|simpl; lia|reflexivity|reflexivity|].
  eapply wp_conseq; [exact Hwrap|].
  intros r st' (_ & evs & Ht). exists evs.
  rewrite Ht, (Htiny (1 # 100000)%Q); reflexivity.
Defined.

(** ** CycleScheduler: the operations of a cycle *)

Lemma operations_app evs1 evs2 :
  operations (evs1 ++ evs2) = operations evs1 ++ operations evs2.
Proof. apply omap_app. Qed.

Lemma operations_schedule evs : operations (schedule evs) = operations evs.
Proof.
  induction evs as [|e evs IH]; [done|].
  destruct e; simpl; by rewrite ?IH.
Qed.

Lemma steps_went st st' sched ops :
  steps st st' sched -> operations sched = ops -> went st st' ops.
Proof.
  intros [Hu (evs & Ht & Hs)] <-. split; [done|]. exists evs. split; [done|].
  by rewrite <- Hs, operations_schedule.
Qed.

Lemma went_trans st1 st2 st3 ops1 ops2 ops :
  went st1 st2 ops1 -> went st2 st3 ops2 -> ops = ops1 ++ ops2 -> went st1 st3 ops.
Proof.
  intros [(a1 & a2 & a3 & a4 & a5) (evs1 & Ht1 & Hs1)]
         [(b1 & b2 & b3 & b4 & b5) (evs2 & Ht2 & Hs2)] ->.
  split; [repeat split; congruence|].
  exists (evs1 ++ evs2). split.
  - rewrite Ht2, Ht1. by rewrite app_assoc.
  - by rewrite operations_app, Hs1, Hs2.
Qed.

(** A loop index below the number of passes is below the count. *)
Lemma passes_lt (n : number) (j : Z) :
  0 <= j < Z.of_nat (passCount n) -> num_lt (of_Z j) n = true.
Proof.
  unfold passCount.
  destruct n as [|q|[]]; simpl; [lia| |lia|lia].
  destruct (Qle_bool q (inject_Z MAX_COUNT)); simpl; [|lia]. intros Hj.
  apply negb_true_iff. destruct (Qle_bool q (inject_Z j)) eqn:Hle; [|done].
  apply Qle_bool_iff in Hle. apply Qceiling_resp_le in Hle.
  rewrite Qceiling_Z in Hle. lia.
Qed.

Lemma wp_repeatWhile reps i st (Q : res bool -> State -> Prop) :
  Q (Ok (num_lt (of_Z i) (reps (dailyActivityConfig st)) && negb (shouldStop st))) st ->
  wp (repeatWhile reps i) st Q.
Proof. intros HQ. unfold repeatWhile. wp_go. exact HQ. Qed.

Section Plan.

Context (E : Ethers) (W : World) (HW : responsive W).

Ltac carry H :=
  let Hu := fresh "Hu" in
  pose proof H as [Hu _];
  destruct Hu as (? & ? & ? & ? & ?); st_simpl_everywhere.

Ltac went_tac := eapply steps_went; [steps_tac; reflexivity|reflexivity].

Lemma stakeStep_went accountIndex wallet direction proxyUrl stakeCount st :
  shouldStop st = false ->
  wp (stakeStep E W accountIndex wallet direction proxyUrl stakeCount) st (λ r st',
    r = Ok tt ∧ went st st' [(Stake, address wallet)]).
Proof.
  intros Hstop. unfold stakeStep, randomAmount, randomDelay, sleep. wp_go.
  eapply wp_conseq; [apply (performStake_schedule E W HW)|].
  intros r st1 [Hn Hs]. carry Hs. unfold updateWallets.
  destruct r as [[]|e|]; [| |done]; wp_go.
  all: split; [done|]; went_tac.
Qed.

Lemma unstakeStep_went accountIndex wallet direction proxyUrl unstakeCount st :
  shouldStop st = false ->
  wp (unstakeStep E W accountIndex wallet direction proxyUrl unstakeCount) st (λ r st',
    r = Ok tt ∧ went st st' [(Unstake, address wallet)]).
Proof.
  intros Hstop. unfold unstakeStep, randomAmount, randomDelay, sleep. wp_go.
  eapply wp_conseq; [apply (performUnstake_schedule E W HW)|].
  intros r st1 [Hn Hs]. carry Hs. unfold updateWallets.
  destruct r as [[]|e|]; [| |done]; wp_go.
  all: split; [done|]; went_tac.
Qed.

Lemma claimStep_went accountIndex wallet direction proxyUrl claimCount st :
  shouldStop st = false ->
  wp (claimStep E W accountIndex wallet direction proxyUrl claimCount) st (λ r st',
    r = Ok tt ∧ went st st' [(Claim, address wallet)]).
Proof.
  intros Hstop. unfold claimStep, randomDelay, sleep. wp_go.
  eapply wp_conseq; [apply (performClaim_schedule E W HW)|].
  intros r st1 [Hn Hs]. carry Hs. unfold updateWallets.
  destruct r as [[]|e|]; [| |done]; wp_go.
  all: split; [done|]; went_tac.
Qed.

(** A loop whose passes each enter one operation and request no stop
    enters it as often as the loop has passes. *)
Lemma repeat_went (reps : Config -> number) (step : Z -> M unit) op :
  (∀ i st, shouldStop st = false ->
     wp (step i) st (λ r st', r = Ok tt ∧ went st st' [op])) ->
  ∀ fuel i st,
    shouldStop st = false -> 0 <= i ->
    i + Z.of_nat fuel = Z.of_nat (passCount (reps (dailyActivityConfig st))) ->
    wp (forLoop fuel i (repeatWhile reps) step) st (λ r st',
      r = Ok tt ∧ went st st' (replicate fuel op)).
Proof.
  intros Hstep fuel. induction fuel as [|fuel IH]; intros i st Hstop Hi Hfuel.
  - cbn [forLoop]. wp_go. split; [done|]. went_tac.
  - assert (Hlt : num_lt (of_Z i) (reps (dailyActivityConfig st)) = true)
      by (apply passes_lt; lia).
    cbn [forLoop]. apply wp_bind, wp_repeatWhile. rewrite Hlt, Hstop. wp_go.
    eapply wp_conseq; [by apply Hstep|].
    intros r st1 [-> Hs1]. pose proof Hs1 as [(Hu1 & Hu2 & Hu3 & Hu4 & Hu5) _].
    wp_go. eapply wp_conseq.
    { apply IH; [congruence|lia|]. rewrite Hu4. lia. }
    intros r st2 [-> Hs2]. split; [done|].
    eapply went_trans; [exact Hs1|exact Hs2|done].
Qed.

(** The same of the loop over a repetition count that has a last pass. *)
Lemma repeatLoop_went (reps : Config -> number) (step : Z -> M unit) op st :
  (∀ i st, shouldStop st = false ->
     wp (step i) st (λ r st', r = Ok tt ∧ went st st' [op])) ->
  hasLastPass (reps (dailyActivityConfig st)) = true ->
  shouldStop st = false ->
  wp (repeatLoop reps step) st (λ r st',
    r = Ok tt ∧ went st st' (replicate (passCount (reps (dailyActivityConfig st))) op)).
Proof.
  intros Hstep Hlast Hstop. unfold hasLastPass in Hlast. unfold passCount.
  destruct (passes (reps (dailyActivityConfig st))) as [fuel|] eqn:Hpasses; [|done].
  assert (Hrun : repeatLoop reps step st = forLoop fuel 0 (repeatWhile reps) step st).
  { unfold repeatLoop, config, gets. rewrite bind_run. by rewrite Hpasses. }
  unfold wp. rewrite Hrun. simpl.
  apply (repeat_went reps step op Hstep fuel 0 st Hstop); [lia|].
  unfold passCount. rewrite Hpasses. simpl. lia.
Qed.

Lemma countsBounded_inv cfg :
  countsBounded cfg = true ->
  hasLastPass (stakeRepetitions cfg) = true
  ∧ hasLastPass (unstakeRepetitions cfg) = true
  ∧ hasLastPass (claimRepetitions cfg) = true.
Proof.
  unfold countsBounded. intros H.
  apply andb_prop in H as [H H3]. by apply andb_prop in H as [H1 H2].
Qed.

Lemma pauseBetween_went accountIndex before after what st :
  shouldStop st = false ->
  wp (pauseBetween W accountIndex before after what) st (λ r st',
    r = Ok tt ∧ went st st' []).
Proof.
  intros Hstop. unfold pauseBetween, randomDelay, sleep. wp_go.
  all: split; [done|]; went_tac.
Qed.

Lemma went_eq st st' ops ops' : went st st' ops' -> ops' = ops -> went st st' ops.
Proof. by intros H <-. Qed.

Ltac went_base := eapply steps_went; [steps_base|reflexivity].

Ltac went_go :=
  lazymatch goal with
  | |- went ?a ?c _ =>
      let b := base_of c in
      let a0 := base_of a in
      first
        [ constr_eq a0 b; went_base
        | constr_eq b c;
          lazymatch goal with
          | H : went ?x b _ |- _ =>
              eapply (went_trans a x b); [went_go | exact H | ]
          end
        | eapply (went_trans a b c); [went_go | went_base | ] ]
  end.

Lemma processAccount_went accountIndex key addr st :
  0 <= accountIndex ->
  accounts st !! Z.to_nat accountIndex = Some key ->
  walletAddress E key = inr addr ->
  shouldStop st = false ->
  countsBounded (dailyActivityConfig st) = true ->
  wp (processAccount E W accountIndex) st (λ r st',
    r = Ok tt ∧ went st st' (accountPlan E (dailyActivityConfig st) addr)).
Proof.
  intros Hidx Hkey Haddr Hstop Hbounded.
  apply countsBounded_inv in Hbounded as (Hb1 & Hb2 & Hb3).
  unfold processAccount, accountPlan, sleep.
  destruct (isAddress E addr) eqn:Hvalid.
  2: { wp_go. split; [done|]. went_tac. }
  wp_go.
  eapply wp_conseq.
  { apply (repeatLoop_went stakeRepetitions _ (Stake, addr)); [|st_simpl; done|st_simpl; done].
    intros i st0 Hgo. by apply (stakeStep_went accountIndex {| privateKey := key; address := addr |}). }
  intros r st1 [-> Hs1]. carry Hs1. wp_go.
  eapply wp_conseq; [apply pauseBetween_went; congruence|].
  intros r st2 [-> Hs2]. carry Hs2. wp_go.
  eapply wp_conseq.
  { apply (repeatLoop_went unstakeRepetitions _ (Unstake, addr)); [|congruence|congruence].
    intros i st0 Hgo. by apply (unstakeStep_went accountIndex {| privateKey := key; address := addr |}). }
  intros r st3 [-> Hs3]. carry Hs3. wp_go.
  eapply wp_conseq; [apply pauseBetween_went; congruence|].
  intros r st4 [-> Hs4]. carry Hs4. wp_go.
  eapply wp_conseq.
  { apply (repeatLoop_went claimRepetitions _ (Claim, addr)); [|congruence|congruence].
    intros i st0 Hgo. by apply (claimStep_went accountIndex {| privateKey := key; address := addr |}). }
  intros r st5 [-> Hs5]. carry Hs5. wp_go.
  all: split; [done|].
  all: eapply went_eq; [went_go; reflexivity|].
  all: replace (dailyActivityConfig st4) with (dailyActivityConfig st) by congruence.
  all: replace (dailyActivityConfig st2) with (dailyActivityConfig st) by congruence.
  all: cbn [operations schedule List.filter omap app]; by rewrite ?app_nil_r, <- ?app_assoc.
Qed.

Section AccountsLoop.

Context (addrs : list string).

(** The loop over the accounts, from the account at [accountIndex] on. *)
Lemma accounts_went fuel : ∀ accountIndex st,
  Forall2 (λ key addr, walletAddress E key = inr addr) (accounts st) addrs ->
  shouldStop st = false ->
  countsBounded (dailyActivityConfig st) = true ->
  0 <= accountIndex ->
  (Z.to_nat accountIndex + fuel)%nat = length (accounts st) ->
  wp (forLoop fuel accountIndex
        (λ accountIndex,
           n ← gets (λ st, Z.of_nat (length (accounts st)));
           stop ← gets shouldStop;
           mret ((accountIndex <? n) && negb stop))
        (processAccount E W)) st (λ r st',
    r = Ok tt
    ∧ went st st' (mjoin (accountPlan E (dailyActivityConfig st)
                            <$> drop (Z.to_nat accountIndex) addrs))).
Proof.
  induction fuel as [|fuel IH]; intros accountIndex st Hkeys Hstop Hbounded Hidx Hfuel.
  - apply wp_ret. split; [done|].
    rewrite drop_ge by (rewrite <- (Forall2_length _ _ _ Hkeys); lia).
    went_tac.
  - assert (Hlt : (accountIndex <? Z.of_nat (length (accounts st))) = true)
      by (apply Z.ltb_lt; lia).
    destruct (lookup_lt_is_Some_2 (accounts st) (Z.to_nat accountIndex)) as [key Hkey];
      [lia|].
    destruct (Forall2_lookup_l _ _ _ _ _ Hkeys Hkey) as (addr & Haddr & Hwallet).
    cbn [forLoop]. wp_go.
    eapply wp_conseq; [by apply (processAccount_went accountIndex key addr)|].
    intros r st1 [-> Hs1]. pose proof Hs1 as [(Hu1 & Hu2 & Hu3 & Hu4 & Hu5) _].
    eapply wp_conseq.
    { apply IH; [by rewrite Hu2|congruence|by rewrite Hu4|lia|rewrite Hu2; lia]. }
    intros r st2 [-> Hs2]. split; [done|].
    eapply went_trans; [exact Hs1|exact Hs2|].
    rewrite Hu4, (drop_S _ _ _ Haddr), Z2Nat.inj_add by lia.
    change (Z.to_nat 1) with 1%nat. by rewrite Nat.add_1_r.
Qed.

End AccountsLoop.

Context (st : State) (addrs : list string).

Hypothesis Hkeys : Forall2 (λ key addr, walletAddress E key = inr addr) (accounts st) addrs.
Hypothesis Hbounded : countsBounded (dailyActivityConfig st) = true.

(** X24. On a chain that answers every call, with keys the library
    accepts and repetition counts that are [NaN], negative or at most 2^53
    (a loop over a larger count, [Infinity] included, has no last pass), a
    cycle that no other handler interrupts (no stop is requested while it
    runs) returns normally and enters, account after account in the order
    of the key list, the stakes, then the unstakes, then the claims of the
    account, each as often as its loop has passes: the count rounded up, and
    none for a count that is [NaN] or not positive; this whether or not the
    operations succeed. For an account whose address the library does not
    accept it enters none. *)
Theorem runDailyActivity_operations :
  wp (runDailyActivity E W) st (λ r st',
    r = Ok tt
    ∧ ∃ evs, trace st' = trace st ++ evs
             ∧ operations evs = mjoin (accountPlan E (dailyActivityConfig st) <$> addrs)).
Proof.
  unfold runDailyActivity. wp_go.
  { split; [done|]. exists []. rewrite app_nil_r. split; [done|].
    apply Z.eqb_eq in Heqb. destruct (accounts st); [|done].
    by apply Forall2_nil_inv_l in Hkeys as ->. }
  eapply wp_conseq.
  { apply (accounts_went addrs); st_simpl; [done|done|done|lia|lia]. }
  intros r st1 [-> Hs1]. carry Hs1. wp_go.
  all: split; [done|].
  all: destruct Hs1 as [_ (evs & Ht & Hops)]; st_simpl_everywhere.
  all: exists evs; split; [exact Ht|exact Hops].
Qed.


End Plan.

(** One key, one and a half stake repetitions and one unstake repetition, on
    a chain that refuses every transaction: two stakes and one unstake are
    entered. *)
Lemma runDailyActivity_operations_witness :
  wp (runDailyActivity laxEthers (sampleWorld 0 0 0 (Rejected "insufficient funds")))
     planState (λ r st',
    r = Ok tt
    ∧ ∃ evs, trace st' = evs
             ∧ operations evs = [(Stake, "key1"); (Stake, "key1"); (Unstake, "key1")]).
Proof.
  eapply wp_conseq.
  - apply (runDailyActivity_operations laxEthers
             (sampleWorld 0 0 0 (Rejected "insufficient funds"))) with (addrs := ["key1"]).
    + by repeat split.
    + by repeat constructor.
    + reflexivity.
  - intros r st' (Hr & evs & Ht & Hops). split; [exact Hr|].
    exists evs. split; [exact Ht|exact Hops].
Defined.

(** ** The menu: what ends the process *)

Section MenuExit.

Context (E : Ethers) (W : World) (HW : responsive W).

(** A cycle leaves the process running, with or without accounts. *)
Lemma runDailyActivity_alive st :
  countsBounded (dailyActivityConfig st) = true ->
  wp (runDailyActivity E W) st (λ r st', r = Ok tt ∧ process st' = process st).
Proof.
  intros Hbounded. unfold runDailyActivity. wp_go; [done|].
  eapply (wp_keeps unchanged).
  { apply (keeps_forLoop unchanged unchanged_frame).
    - intros j. apply sure_keeps.
      repeat first [apply (sure_bind unchanged unchanged_frame); [|intros ?]
                   | apply (sure_gets unchanged unchanged_frame)
                   | apply (sure_ret unchanged unchanged_frame)].
    - intros j. apply (keeps_processAccount unchanged unchanged_frame E W HW (λ _, True)).
      + intros. apply getProvider_unchanged.
      + apply sleep_unchanged.
      + done. }
  { st_simpl. exact Hbounded. }
  intros r st1 Hn (Hstop & Hacc & Hprox & Hcfg & Hproc). st_simpl_everywhere.
  destruct r as [[]|e|]; [| |done]; wp_go; done.
Qed.

(** X25. On a chain that answers every call and with repetition counts
    none of which is above 2^53 (so that every loop of a cycle has a last
    pass), the handler of the main menu, run with no other handler in
    between, always returns, and of its entries only "Exit" ends the
    process, with code 0: starting a cycle, stopping it, clearing the log,
    refreshing and the entries that only switch lists leave the process
    running. Apart from the menu, the keys escape, q and Ctrl-C end the
    process, with code 0 as well, after logging "Exiting application". *)
Theorem only_exit_ends_the_process action st :
  countsBounded (dailyActivityConfig st) = true ->
  wp (menuSelect E W action) st (λ r st',
    r = Ok tt
    ∧ process st' = if String.eqb action "Exit" then Exited 0 else process st)
  ∧ wp screenKeyExit st (λ r st',
      r = Ok tt ∧ process st' = Exited 0
      ∧ transactionLogs st' = transactionLogs st ++ [("info", "Exiting application")]).
Proof.
  intros Hbounded. split; [|unfold screenKeyExit; wp_go; done].
  unfold menuSelect.
  destruct (String.eqb_spec action "Start Auto Daily Activity") as [->|_].
  { change (String.eqb "Start Auto Daily Activity" "Exit") with false.
    wp_go; [done|]. by apply runDailyActivity_alive. }
  destruct (String.eqb_spec action "Stop Activity") as [->|_].
  { change (String.eqb "Stop Activity" "Exit") with false.
    unfold stopActivity. wp_go; done. }
  destruct (String.eqb_spec action "Clear Logs") as [->|_].
  { change (String.eqb "Clear Logs" "Exit") with false.
    unfold clearTransactionLogs. wp_go; done. }
  destruct (String.eqb_spec action "Refresh") as [->|_].
  { change (String.eqb "Refresh" "Exit") with false.
    unfold updateWallets. wp_go; done. }
  destruct (String.eqb action "Exit"); wp_go; done.
Qed.

End MenuExit.

Lemma only_exit_ends_the_process_witness :
  wp (menuSelect laxEthers (sampleWorld 0 0 0 (Rejected "insufficient funds"))
        "Start Auto Daily Activity") scenarioState (λ r st',
    r = Ok tt ∧ process st' = Alive)
  ∧ wp (menuSelect laxEthers (sampleWorld 0 0 0 (Rejected "insufficient funds"))
          "Exit") scenarioState (λ r st', r = Ok tt ∧ process st' = Exited 0).
Proof.
  assert (HW : responsive (sampleWorld 0 0 0 (Rejected "insufficient funds")))
    by by repeat split.
  split.
  - apply (only_exit_ends_the_process laxEthers _ HW "Start Auto Daily Activity"
             scenarioState).
    reflexivity.
  - apply (only_exit_ends_the_process laxEthers _ HW "Exit" scenarioState).
    reflexivity.
Defined.
